(** * CarbonReady ESP32 firmware: telemetry-delivery core

    A shallow embedding of the firmware sources under [firmware/esp32]
    ([local_storage.cpp], [mqtt_client.cpp], [data_processor.cpp],
    [sensor_manager.cpp], [config.h]) together with the properties of the
    natural-language specification that concern them.

    Layout: the first part holds the model (one group of definitions per
    source file), the second part the lemmas and the theorems of the
    specification, the third part further properties of the code. *)

From Stdlib Require Import ZArith List String Ascii Bool Lia.
From Stdlib Require Import QArith Qabs Qpower Lqa SpecFloat DecimalString.
Import ListNotations.

Local Open Scope string_scope.
Local Open Scope Z_scope.

(* ================================================================== *)
(** * Part I: the model                                                *)
(* ================================================================== *)

(** ** config.h *)

Definition RETRY_DELAY_BASE_MS : Z := 2000.
Definition MAX_RETRIES : Z := 3.
Definition MAX_OFFLINE_READINGS : Z := 100.
Definition SOIL_MOISTURE_DRY : Z := 3200.
Definition SOIL_MOISTURE_WET : Z := 1200.

(** ** Arduino [String] helpers

    An Arduino [String] is a byte buffer; it is modelled by [string]. *)

(** [isspace] of the C locale: space, TAB, LF, VT, FF, CR. *)
Definition isspace (c : ascii) : bool :=
  let n := nat_of_ascii c in
  (Nat.eqb n 32 || (Nat.leb 9 n && Nat.leb n 13))%bool.

Definition LF : ascii := ascii_of_nat 10.
Definition CR : ascii := ascii_of_nat 13.
Definition CRLF : string := String CR (String LF EmptyString).

Definition is_empty (s : string) : bool :=
  match s with EmptyString => true | String _ _ => false end.

(** [String::trim]: the first loop skips the leading blanks, the second one
    the trailing blanks. *)
Fixpoint ltrim (s : string) : string :=
  match s with
  | EmptyString => EmptyString
  | String c s' => if isspace c then ltrim s' else s
  end.

Fixpoint rtrim (s : string) : string :=
  match s with
  | EmptyString => EmptyString
  | String c s' =>
      let t := rtrim s' in
      if (isspace c && is_empty t)%bool then EmptyString else String c t
  end.

Definition trim (s : string) : string := rtrim (ltrim s).

(** [Stream::readStringUntil]: the bytes up to the terminator, which is
    consumed and not returned, or up to the end of the stream.  The second
    component is what is left unread. *)
Fixpoint readStringUntil (terminator : ascii) (s : string) : string * string :=
  match s with
  | EmptyString => (EmptyString, EmptyString)
  | String c rest =>
      if Ascii.eqb c terminator then (EmptyString, rest)
      else let (line, rest') := readStringUntil terminator rest in
           (String c line, rest')
  end.

(** ** local_storage.cpp *)

(** The SPIFFS partition as far as [LocalStorage] touches it: whether the
    file system is mounted, and the contents of [STORAGE_FILE]
    ("/offline_readings.txt") when that file exists. *)
Record Spiffs : Type := mkSpiffs {
  mounted : bool;
  storage_file : option string
}.

(** The calls [LocalStorage] makes that change the partition.  [OpenW] is
    [SPIFFS.open(STORAGE_FILE, "w")], which creates or truncates the file;
    [Println l] is [file.println(l)], which appends [l] and CR LF;
    [Remove] is [SPIFFS.remove(STORAGE_FILE)]. *)
Inductive SpiffsCall : Type :=
| OpenW
| Println (line : string)
| Close
| Remove.

Definition spiffs_call (fs : Spiffs) (c : SpiffsCall) : Spiffs :=
  if mounted fs then
    match c with
    | OpenW => mkSpiffs true (Some EmptyString)
    | Println l =>
        match storage_file fs with
        | Some content => mkSpiffs true (Some (content ++ l ++ CRLF))
        | None => fs
        end
    | Close => fs
    | Remove => mkSpiffs true None
    end
  else fs.

Definition spiffs_run (fs : Spiffs) (calls : list SpiffsCall) : Spiffs :=
  fold_left spiffs_call calls fs.

(** [SPIFFS.exists(STORAGE_FILE)]. *)
Definition spiffs_exists (fs : Spiffs) : bool :=
  (mounted fs && match storage_file fs with Some _ => true | None => false end)%bool.

(** [SPIFFS.open(STORAGE_FILE, "r")]: the bytes to read, or [None] for an
    invalid [File]. *)
Definition spiffs_open_r (fs : Spiffs) : option string :=
  if mounted fs then storage_file fs else None.

(** The object of class [LocalStorage] with the partition it works on. *)
Record LocalStorage : Type := mkLocalStorage {
  maxReadings : Z;
  spiffs : Spiffs
}.

(** The constructor. *)
Definition LocalStorage_new (fs : Spiffs) : LocalStorage :=
  mkLocalStorage MAX_OFFLINE_READINGS fs.

(** Outcome of [SPIFFS.begin(true)]: mounted as it is, mounted after a
    format (format-on-fail), or not mounted. *)
Inductive BeginOutcome : Type := MountOk | MountFormatted | MountFailed.

Definition begin (o : BeginOutcome) (st : LocalStorage) : bool * LocalStorage :=
  match o with
  | MountOk =>
      (true, mkLocalStorage (maxReadings st)
               (mkSpiffs true (storage_file (spiffs st))))
  | MountFormatted =>
      (true, mkLocalStorage (maxReadings st) (mkSpiffs true None))
  | MountFailed =>
      (false, mkLocalStorage (maxReadings st)
                (mkSpiffs false (storage_file (spiffs st))))
  end.

(** The [while (file.available())] loop of [readLines].  Every round reads
    at least one byte, so [fuel] = number of bytes is enough. *)
Fixpoint readLines_loop (fuel : nat) (unread : string) (lines : list string)
  : list string :=
  match fuel with
  | O => lines
  | S fuel' =>
      if is_empty unread then lines
      else
        let (line, rest) := readStringUntil LF unread in
        let line := trim line in
        readLines_loop fuel' rest
          (if Nat.ltb 0 (String.length line) then (lines ++ [line])%list else lines)
  end.

Definition read_content (content : string) : list string :=
  readLines_loop (String.length content) content [].

Definition readLines (fs : Spiffs) : list string :=
  if negb (spiffs_exists fs) then []
  else match spiffs_open_r fs with
       | None => []
       | Some content => read_content content
       end.

(** The calls of [writeLines] once the file is open. *)
Definition writeLines_calls (lines : list string) : list SpiffsCall :=
  (map Println lines ++ [Close])%list.

Definition writeLines (fs : Spiffs) (lines : list string) : bool * Spiffs :=
  if mounted fs
  then (true, spiffs_run fs (OpenW :: writeLines_calls lines))
  else (false, fs).

Definition getStoredCount (st : LocalStorage) : Z :=
  Z.of_nat (List.length (readLines (spiffs st))).

Definition isFull (st : LocalStorage) : bool :=
  getStoredCount st >=? maxReadings st.

Definition storeReading (st : LocalStorage) (message : string)
  : bool * LocalStorage :=
  if isFull st then (false, st)
  else
    let readings := readLines (spiffs st) in
    let readings := (readings ++ [message])%list in
    let (success, fs') := writeLines (spiffs st) readings in
    (success, mkLocalStorage (maxReadings st) fs').

Definition getAllReadings (st : LocalStorage) : list string * LocalStorage :=
  (readLines (spiffs st), st).

(** [SPIFFS.remove(STORAGE_FILE)]: fails when there is no such file. *)
Definition spiffs_remove (fs : Spiffs) : bool * Spiffs :=
  if spiffs_exists fs then (true, spiffs_call fs Remove) else (false, fs).

Definition clearReadings (st : LocalStorage) : bool * LocalStorage :=
  let (removed, fs') := spiffs_remove (spiffs st) in
  if removed
  then (true, mkLocalStorage (maxReadings st) fs')
  else (false, mkLocalStorage (maxReadings st) fs').

(** The public interface of [LocalStorage] (local_storage.h). *)
Inductive StorageOp : Type :=
| OpBegin (o : BeginOutcome)
| OpStoreReading (message : string)
| OpGetStoredCount
| OpGetAllReadings
| OpClearReadings
| OpIsFull.

Definition storage_step (st : LocalStorage) (op : StorageOp) : LocalStorage :=
  match op with
  | OpBegin o => snd (begin o st)
  | OpStoreReading m => snd (storeReading st m)
  | OpGetStoredCount => st
  | OpGetAllReadings => snd (getAllReadings st)
  | OpClearReadings => snd (clearReadings st)
  | OpIsFull => st
  end.

Definition storage_run (st : LocalStorage) (ops : list StorageOp) : LocalStorage :=
  fold_left storage_step ops st.

(** Storing a list of messages one after the other, with the results. *)
Fixpoint store_all (st : LocalStorage) (msgs : list string)
  : list bool * LocalStorage :=
  match msgs with
  | [] => ([], st)
  | m :: ms =>
      let (ok, st1) := storeReading st m in
      let (oks, st2) := store_all st1 ms in
      (ok :: oks, st2)
  end.

(** The string holds no LF. *)
Fixpoint newline_free (s : string) : bool :=
  match s with
  | EmptyString => true
  | String c s' => (negb (Ascii.eqb c LF) && newline_free s')%bool
  end.

(** A record as the queue holds it: one line, not blank, without blanks at
    either end. *)
Definition is_record (s : string) : bool :=
  (negb (is_empty s) && String.eqb (trim s) s && newline_free s)%bool.





(** What [writeLines] leaves in the file for a list of lines. *)
Definition file_of (lines : list string) : string :=
  fold_right (fun l acc => l ++ CRLF ++ acc) EmptyString lines.

(** The entries held in flash, mounted or not. *)
Definition flash_entries (fs : Spiffs) : list string :=
  match storage_file fs with
  | Some content => read_content content
  | None => []
  end.

(** A string that [ltrim] leaves alone starts with a visible byte. *)
Definition starts_visible (s : string) : bool :=
  match s with EmptyString => true | String c _ => negb (isspace c) end.

(** One round of the loop of [readLines]. *)
Definition line_entry (line : string) : list string :=
  if is_empty (trim line) then [] else [trim line].

(** The entries a message is read back as once it is written as a line. *)
Definition entries_of (message : string) : list string :=
  read_content (message ++ CRLF).

(** Every message handed to [storeReading] in a run is a single line. *)
Definition single_line_op (op : StorageOp) : bool :=
  match op with
  | OpStoreReading m => newline_free m
  | _ => true
  end.

(** A message of two lines, and one with a leading blank. *)
Definition two_line_message : string := "a" ++ String LF "b".
Definition padded_message : string := " x".

(** ** mqtt_client.cpp *)

(** C [int] and [unsigned long] of the ESP32 (32 bits), with wrap-around. *)
Definition int32_wrap (z : Z) : Z := (z + 2 ^ 31) mod 2 ^ 32 - 2 ^ 31.
Definition uint32_wrap (z : Z) : Z := z mod 2 ^ 32.

(** [getBackoffDelay]: [RETRY_DELAY_BASE_MS * (1 << retryCount)], computed on
    [int] and returned as [unsigned long]. *)
Definition getBackoffDelay (retryCount : Z) : Z :=
  uint32_wrap (int32_wrap (RETRY_DELAY_BASE_MS * int32_wrap (Z.shiftl 1 retryCount))).

(** What a call of the manager does that can be seen from outside: the
    blocking delays, the connection attempts and the delivery tries with
    their outcome. *)
Inductive Event : Type :=
| EvDelay (ms : Z)
| EvConnect (ok : bool)
| EvPublish (topic payload : string) (ack : bool).

(** The [PubSubClient] with the network behind it.  Every call may change
    the state of the world [W]; [pc_delay] is the world going on during
    [::delay]. *)
Class PubSubClient (W : Type) : Type := {
  pc_connected : W -> bool * W;
  pc_connect : string -> W -> bool * W;
  pc_subscribe : string -> W -> bool * W;
  pc_publish : string -> string -> W -> bool * W;
  pc_delay : Z -> W -> W
}.

Record MQTTClientManager (W : Type) : Type := mkManager {
  mqttClient : W;
  farmId : string;
  deviceId : string;
  publishTopic : string;
  subscribeTopic : string;
  lastRetryCount : Z;
  events : list Event
}.

Arguments mkManager {W}.
Arguments mqttClient {W}.
Arguments farmId {W}.
Arguments deviceId {W}.
Arguments publishTopic {W}.
Arguments subscribeTopic {W}.
Arguments lastRetryCount {W}.
Arguments events {W}.

Section MQTTClientManager.
Context {W : Type} {client : PubSubClient W}.

Definition with_client (st : MQTTClientManager W) (w : W) : MQTTClientManager W :=
  mkManager w (farmId st) (deviceId st) (publishTopic st) (subscribeTopic st)
    (lastRetryCount st) (events st).

Definition with_retry_count (st : MQTTClientManager W) (n : Z) : MQTTClientManager W :=
  mkManager (mqttClient st) (farmId st) (deviceId st) (publishTopic st)
    (subscribeTopic st) n (events st).

Definition emit (st : MQTTClientManager W) (e : Event) : MQTTClientManager W :=
  mkManager (mqttClient st) (farmId st) (deviceId st) (publishTopic st)
    (subscribeTopic st) (lastRetryCount st) (events st ++ [e]).

(** The constructor and [begin]. *)
Definition MQTTClientManager_new (w : W) : MQTTClientManager W :=
  mkManager w EmptyString EmptyString EmptyString EmptyString 0 [].

Definition mqtt_begin (farm device : string) (st : MQTTClientManager W)
  : bool * MQTTClientManager W :=
  (true, mkManager (mqttClient st) farm device
           ("carbonready/farm/" ++ farm ++ "/sensor/data")
           ("carbonready/farm/" ++ farm ++ "/commands")
           (lastRetryCount st) (events st)).

Definition isConnected (st : MQTTClientManager W) : bool * MQTTClientManager W :=
  let (c, w) := pc_connected (mqttClient st) in (c, with_client st w).

Definition connect (st : MQTTClientManager W) : bool * MQTTClientManager W :=
  let (c, w1) := pc_connected (mqttClient st) in
  if c then (true, with_client st w1)
  else
    let (ok, w2) := pc_connect (deviceId st) w1 in
    if ok then
      let (_, w3) := pc_subscribe (subscribeTopic st) w2 in
      (true, emit (with_client st w3) (EvConnect true))
    else (false, emit (with_client st w2) (EvConnect false)).

(** The body of the [for] loop of [publishWithRetry] before the delivery
    try: nothing on the first round, then the retry count, the backoff
    delay and the reconnection. *)
Definition retry_prelude (attempt : Z) (st : MQTTClientManager W) : MQTTClientManager W :=
  if 0 <? attempt then
    let st := with_retry_count st attempt in
    let delay := getBackoffDelay attempt in
    let st := emit (with_client st (pc_delay delay (mqttClient st))) (EvDelay delay) in
    let (c, st) := isConnected st in
    if negb c then snd (connect st) else st
  else st.

(** The [for] loop, [rounds] = number of rounds left, that is
    [maxRetries - attempt + 1]. *)
Fixpoint publish_loop (rounds : nat) (attempt : Z) (message : string)
  (st : MQTTClientManager W) : bool * MQTTClientManager W :=
  match rounds with
  | O => (false, st)
  | S rounds' =>
      let st := retry_prelude attempt st in
      let (ack, w) := pc_publish (publishTopic st) message (mqttClient st) in
      let st := emit (with_client st w) (EvPublish (publishTopic st) message ack) in
      if ack then (true, st)
      else publish_loop rounds' (attempt + 1) message st
  end.

Definition publishWithRetry (message : string) (maxRetries : Z)
  (st : MQTTClientManager W) : bool * MQTTClientManager W :=
  let st := with_retry_count st 0 in
  publish_loop (Z.to_nat (maxRetries + 1)) 0 message st.

Definition publish (message : string) (st : MQTTClientManager W)
  : bool * MQTTClientManager W :=
  let (c, st) := isConnected st in
  if negb c then
    let (ok, st) := connect st in
    if negb ok then (false, st)
    else publishWithRetry message MAX_RETRIES st
  else publishWithRetry message MAX_RETRIES st.

Definition getLastRetryCount (st : MQTTClientManager W) : Z := lastRetryCount st.

(** Whether [publish] gets to its delivery tries: the client is connected,
    or the one [connect] of [publish] succeeds. *)
Definition link_up (st : MQTTClientManager W) : bool :=
  let (c, st1) := isConnected st in
  if c then true else fst (connect st1).

End MQTTClientManager.

(** The delivery tries among the events, with their outcome. *)
Fixpoint acks (evs : list Event) : list bool :=
  match evs with
  | [] => []
  | EvPublish _ _ a :: evs' => a :: acks evs'
  | _ :: evs' => acks evs'
  end.

Definition tries (evs : list Event) : nat := List.length (acks evs).

(** The delays and the delivery tries in the order they happen: [Some ms]
    for a delay, [None] for a try. *)
Fixpoint timeline (evs : list Event) : list (option Z) :=
  match evs with
  | [] => []
  | EvDelay ms :: evs' => Some ms :: timeline evs'
  | EvPublish _ _ _ :: evs' => None :: timeline evs'
  | EvConnect _ :: evs' => timeline evs'
  end.

(** A step that makes no delivery try and waits for nothing. *)
Definition quiet_step {W : Type} (st st' : MQTTClientManager W) : Prop :=
  lastRetryCount st' = lastRetryCount st /\
  exists evs, events st' = (events st ++ evs)%list /\
              acks evs = [] /\ timeline evs = [].

(** The timeline of [n] rounds of the loop that start at retry [k >= 1]:
    the delay [base * 2^k], a try, the delay [base * 2^(k+1)], a try, ... *)
Fixpoint retry_timeline (k : Z) (n : nat) : list (option Z) :=
  match n with
  | O => []
  | S n' => Some (RETRY_DELAY_BASE_MS * 2 ^ k) :: None :: retry_timeline (k + 1) n'
  end.

(** The timeline of a call with [n] tries: the first try at once, then the
    retries 1, 2, ... each behind its delay. *)
Definition publish_timeline (n : nat) : list (option Z) :=
  match n with
  | O => []
  | S n' => None :: retry_timeline 1 n'
  end.

(** Two worlds to run the manager in.  [Scripted]: the connection holds and
    the broker answers the delivery tries with the listed outcomes, then
    with failure.  [Offline]: there is no connection, and none can be made. *)
Definition Scripted : PubSubClient (list bool) := {|
  pc_connected := fun w => (true, w);
  pc_connect := fun _ w => (true, w);
  pc_subscribe := fun _ w => (true, w);
  pc_publish := fun _ _ w =>
    match w with
    | [] => (false, [])
    | a :: w' => (a, w')
    end;
  pc_delay := fun _ w => w
|}.

Definition Offline : PubSubClient unit := {|
  pc_connected := fun w => (false, w);
  pc_connect := fun _ w => (false, w);
  pc_subscribe := fun _ w => (false, w);
  pc_publish := fun _ _ w => (false, w);
  pc_delay := fun _ w => w
|}.

(** ** Floating point

    A C [float] is an IEEE 754 binary32 value and a [double] a binary64
    value, both as [spec_float] of the standard library: signed zeros,
    infinities, NaN, and [S754_finite s m e] for [(-1)^s * m * 2^e].  The
    arithmetic is that of [SpecFloat] at the precision of the operands. *)

Definition float_of_Z (z : Z) : spec_float := binary_normalize 24 128 z 0 false.

(** The conversions between [float] and [double]: exact upwards, rounded to
    nearest even downwards. *)
Definition float_to_double (x : spec_float) : spec_float :=
  match x with
  | S754_finite s m e => binary_round 53 1024 s m e
  | _ => x
  end.

Definition double_to_float (x : spec_float) : spec_float :=
  match x with
  | S754_finite s m e => binary_round 24 128 s m e
  | _ => x
  end.

Definition is_nan (x : spec_float) : bool :=
  match x with S754_nan => true | _ => false end.

(** The number a finite value stands for. *)
Definition Qval (s : bool) (m : positive) (e : Z) : Q :=
  ((if s then -1 else 1) * inject_Z (Zpos m) * 2 ^ e)%Q.

Definition F2Q (x : spec_float) : option Q :=
  match x with
  | S754_zero _ => Some 0%Q
  | S754_finite s m e => Some (Qval s m e)
  | _ => None
  end.

(** The relational operators of C on floating operands: they compare the
    numbers the operands stand for, whatever their precision, and NaN
    compares with nothing. *)
Definition fcompare (x y : spec_float) : option comparison :=
  match x, y with
  | S754_nan, _ | _, S754_nan => None
  | S754_infinity s1, S754_infinity s2 =>
      Some (match s1, s2 with
            | true, false => Lt
            | false, true => Gt
            | _, _ => Eq
            end)
  | S754_infinity s, _ => Some (if s then Lt else Gt)
  | _, S754_infinity s => Some (if s then Gt else Lt)
  | _, _ =>
      match F2Q x, F2Q y with
      | Some qx, Some qy => Some (qx ?= qy)%Q
      | _, _ => None
      end
  end.

Definition flt (x y : spec_float) : bool :=
  match fcompare x y with Some Lt => true | _ => false end.
Definition fle (x y : spec_float) : bool :=
  match fcompare x y with Some Lt | Some Eq => true | _ => false end.
Definition feq (x y : spec_float) : bool :=
  match fcompare x y with Some Eq => true | _ => false end.

(** ** sensor_manager.cpp *)

Record SensorReadings : Type := mkReadings {
  soilMoisture : spec_float;
  soilTemperature : spec_float;
  airTemperature : spec_float;
  humidity : spec_float;
  timestamp : Z;
  valid : bool
}.

(** What the hardware and the drivers deliver in one acquisition:
    [analogRead(SOIL_MOISTURE_PIN)], [ds18b20.getTempCByIndex(0)],
    [dht.readTemperature()], [dht.readHumidity()] and [time()]. *)
Record SensorInputs : Type := mkInputs {
  analogRead : Z;
  getTempCByIndex : spec_float;
  dht_readTemperature : spec_float;
  dht_readHumidity : spec_float;
  time_now : Z
}.

Record SensorManager : Type := mkSensorManager {
  dht22Initialized : bool;
  ds18b20Initialized : bool
}.

(** The marker the read functions return for a failed sensor, and the
    marker of the DallasTemperature driver (DallasTemperature.h:
    [DEVICE_DISCONNECTED_C] is -127). *)
Definition INVALID_READING : spec_float := float_of_Z (-999).
Definition DEVICE_DISCONNECTED_C : spec_float := float_of_Z (-127).

(** The Arduino macro [constrain(amt, low, high)].  At its one use the
    bounds are the [double] constants 0.0 and 100.0 and [amt] is a [float];
    the comparisons are on the numbers, and the operand selected goes back
    to [float] unchanged, all three being binary32 values. *)
Definition constrain (amt low high : spec_float) : spec_float :=
  if flt amt low then low else if flt high amt then high else amt.

Definition readSoilMoisture (inp : SensorInputs) : spec_float :=
  let rawValue := analogRead inp in
  let num := float_of_Z (int32_wrap (rawValue - SOIL_MOISTURE_WET)) in
  let den := float_of_Z (int32_wrap (SOIL_MOISTURE_DRY - SOIL_MOISTURE_WET)) in
  let ratio := SFdiv 24 128 num den in
  let hundred := float_to_double (float_of_Z 100) in
  let moisture :=
    double_to_float
      (SFsub 53 1024 hundred (SFmul 53 1024 (float_to_double ratio) hundred)) in
  constrain moisture (float_of_Z 0) (float_of_Z 100).

Definition readSoilTemperature (mgr : SensorManager) (inp : SensorInputs) : spec_float :=
  if negb (ds18b20Initialized mgr) then INVALID_READING
  else
    let temp := getTempCByIndex inp in
    if feq temp DEVICE_DISCONNECTED_C then INVALID_READING else temp.

Definition readAirTemperature (mgr : SensorManager) (inp : SensorInputs) : spec_float :=
  if negb (dht22Initialized mgr) then INVALID_READING
  else
    let temp := dht_readTemperature inp in
    if is_nan temp then INVALID_READING else temp.

Definition readHumidity (mgr : SensorManager) (inp : SensorInputs) : spec_float :=
  if negb (dht22Initialized mgr) then INVALID_READING
  else
    let h := dht_readHumidity inp in
    if is_nan h then INVALID_READING else h.

Definition getUTCTimestamp (inp : SensorInputs) : Z := uint32_wrap (time_now inp).

Definition validateReading (value min max : spec_float) : bool :=
  if fle value INVALID_READING then false
  else if (flt value min || flt max value)%bool then false
  else true.

Definition readAllSensors (mgr : SensorManager) (inp : SensorInputs) : SensorReadings :=
  let sm := readSoilMoisture inp in
  let st := readSoilTemperature mgr inp in
  let at_ := readAirTemperature mgr inp in
  let h := readHumidity mgr inp in
  let ts := getUTCTimestamp inp in
  let allValid := true in
  let allValid := (allValid && validateReading sm (float_of_Z 0) (float_of_Z 100))%bool in
  let allValid := (allValid && validateReading st (float_of_Z (-10)) (float_of_Z 60))%bool in
  let allValid := (allValid && validateReading at_ (float_of_Z (-10)) (float_of_Z 60))%bool in
  let allValid := (allValid && validateReading h (float_of_Z 0) (float_of_Z 100))%bool in
  mkReadings sm st at_ h ts allValid.

(** The value is a number of the closed interval [[lo, hi]]. *)
Definition within (v : spec_float) (lo hi : Q) : Prop :=
  exists q : Q, F2Q v = Some q /\ (lo <= q)%Q /\ (q <= hi)%Q.

(** The value is at or below the error marker -999. *)
Definition at_or_below_marker (v : spec_float) : Prop :=
  v = S754_infinity true \/ exists q : Q, F2Q v = Some q /\ (q <= -999)%Q.

(** An acquisition with every sensor in order: ADC 2200, soil 22.5 C,
    air 25 C, humidity 60 %, at 1700000000. *)
Definition sample_inputs : SensorInputs :=
  mkInputs 2200 (binary_normalize 24 128 45 (-1) false)
    (float_of_Z 25) (float_of_Z 60) 1700000000.

Definition sensors_ready : SensorManager := mkSensorManager true true.

(** ** SHA-256 (FIPS 180-4), as [mbedtls_sha256_starts] with [is224 = 0],
    [update] and [finish] compute it.  Words are 32 bits, bytes are
    numbers below 256. *)

Definition w32 (z : Z) : Z := z mod 2 ^ 32.
Definition rotr (n x : Z) : Z := Z.lor (Z.shiftr x n) (w32 (Z.shiftl x (32 - n))).
Definition Ch (x y z : Z) : Z := Z.lxor (Z.land x y) (Z.land (Z.lxor x 4294967295) z).
Definition Maj (x y z : Z) : Z := Z.lxor (Z.lxor (Z.land x y) (Z.land x z)) (Z.land y z).
Definition Sigma0 (x : Z) : Z := Z.lxor (Z.lxor (rotr 2 x) (rotr 13 x)) (rotr 22 x).
Definition Sigma1 (x : Z) : Z := Z.lxor (Z.lxor (rotr 6 x) (rotr 11 x)) (rotr 25 x).
Definition sigma0 (x : Z) : Z := Z.lxor (Z.lxor (rotr 7 x) (rotr 18 x)) (Z.shiftr x 3).
Definition sigma1 (x : Z) : Z := Z.lxor (Z.lxor (rotr 17 x) (rotr 19 x)) (Z.shiftr x 10).

(** The constants of the standard by their definition: the first 32 bits
    of the fractional parts of the cube roots of the first 64 primes, and
    of the square roots of the first 8 primes. *)
Definition is_prime (n : nat) : bool :=
  forallb (fun d => negb (Nat.eqb (Nat.modulo n d) 0)) (seq 2 (n - 2)).

Definition primes_below (n : nat) : list Z :=
  map Z.of_nat (filter is_prime (seq 2 (n - 2))).

(** The integer cube root, one bit after the other from [2^(bits-1)] down. *)
Fixpoint cube_root_bits (bits : nat) (n r : Z) : Z :=
  match bits with
  | O => r
  | S b =>
      let c := r + 2 ^ Z.of_nat b in
      if c * c * c <=? n then cube_root_bits b n c else cube_root_bits b n r
  end.

Definition K256 : list Z :=
  Eval vm_compute in
    map (fun p => w32 (cube_root_bits 36 (p * 2 ^ 96) 0)) (primes_below 312).

Definition H256 : list Z :=
  Eval vm_compute in
    map (fun p => w32 (Z.sqrt (p * 2 ^ 64))) (primes_below 20).

(** Padding: the byte 0x80, zeros up to 56 modulo 64, and the length in
    bits on 8 bytes, big endian. *)
Definition be_bytes (n : nat) (z : Z) : list Z :=
  map (fun i => (Z.shiftr z (8 * Z.of_nat i)) mod 256) (rev (seq 0 n)).

Definition sha_pad (msg : list Z) : list Z :=
  let len := Z.of_nat (List.length msg) in
  let zeros := Z.to_nat ((55 - len) mod 64) in
  (msg ++ [128] ++ repeat 0 zeros ++ be_bytes 8 (8 * len))%list.

Fixpoint be_words (fuel : nat) (bs : list Z) : list Z :=
  match fuel, bs with
  | S f, b0 :: b1 :: b2 :: b3 :: rest =>
      (b0 * 16777216 + b1 * 65536 + b2 * 256 + b3) :: be_words f rest
  | _, _ => []
  end.

(** The message schedule; [w] holds the words so far, newest first. *)
Fixpoint schedule (n : nat) (w : list Z) : list Z :=
  match n with
  | O => w
  | S n' =>
      let wt := w32 (sigma1 (nth 1 w 0) + nth 6 w 0 + sigma0 (nth 14 w 0) + nth 15 w 0) in
      schedule n' (wt :: w)
  end.

Definition round (st : list Z) (kw : Z * Z) : list Z :=
  match st with
  | [a; b; c; d; e; f; g; h] =>
      let t1 := w32 (h + Sigma1 e + Ch e f g + fst kw + snd kw) in
      let t2 := w32 (Sigma0 a + Maj a b c) in
      [w32 (t1 + t2); a; b; c; w32 (d + t1); e; f; g]
  | _ => st
  end.

Definition compress (h : list Z) (block : list Z) : list Z :=
  let w := rev (schedule 48 (rev block)) in
  let st := fold_left round (combine K256 w) h in
  map (fun p => w32 (fst p + snd p)) (combine h st).

Fixpoint blocks (fuel : nat) (ws : list Z) : list (list Z) :=
  match fuel with
  | O => []
  | S f => match ws with
           | [] => []
           | _ => firstn 16 ws :: blocks f (skipn 16 ws)
           end
  end.

Definition sha256 (msg : list Z) : list Z :=
  let bytes := sha_pad msg in
  let ws := be_words (List.length bytes) bytes in
  let h := fold_left compress (blocks (List.length ws) ws) H256 in
  flat_map (be_bytes 4) h.

Definition bytes_of_string (s : string) : list Z :=
  map (fun c => Z.of_nat (nat_of_ascii c)) (list_ascii_of_string s).

(** [sprintf(hex, "%02x", hash[i])]: two lowercase hexadecimal digits. *)
Definition hex_digit (z : Z) : ascii :=
  match z mod 16 with
  | 0 => "0" | 1 => "1" | 2 => "2" | 3 => "3" | 4 => "4" | 5 => "5"
  | 6 => "6" | 7 => "7" | 8 => "8" | 9 => "9" | 10 => "a" | 11 => "b"
  | 12 => "c" | 13 => "d" | 14 => "e" | _ => "f"
  end%char.

Fixpoint hex_of_bytes (bs : list Z) : string :=
  match bs with
  | [] => EmptyString
  | b :: bs' => String (hex_digit (b / 16)) (String (hex_digit (b mod 16)) (hex_of_bytes bs'))
  end.



(** ** printf, strftime and gmtime *)

Definition dec (z : Z) : string := NilZero.string_of_uint (N.to_uint (Z.to_N z)).

Definition pad2 (z : Z) : string := dec (z / 10) ++ dec (z mod 10).

(** Rounding [num / den] to the nearest integer, ties to even. *)
Definition round_half_even (num den : Z) : Z :=
  let q := num / den in
  let r := num mod den in
  match 2 * r ?= den with
  | Lt => q
  | Gt => q + 1
  | Eq => if Z.even q then q else q + 1
  end.

(** The conversion [%.2f]: the exact value rounded to hundredths. *)
Definition printf_2f (x : spec_float) : string :=
  match x with
  | S754_zero s => (if s then "-" else EmptyString) ++ "0.00"
  | S754_infinity s => if s then "-inf" else "inf"
  | S754_nan => "nan"
  | S754_finite s m e =>
      let hundredths :=
        if 0 <=? e then Zpos m * 2 ^ e * 100
        else round_half_even (Zpos m * 100) (2 ^ (- e)) in
      (if s then "-" else EmptyString)
        ++ dec (hundredths / 100) ++ "." ++ pad2 (hundredths mod 100)
  end.

(** [gmtime]: the civil date of a day number, days counted from
    1970-01-01, in the proleptic Gregorian calendar. *)
Definition civil_from_days (days : Z) : Z * Z * Z :=
  let z := days + 719468 in
  let era := z / 146097 in
  let doe := z - era * 146097 in
  let yoe := (doe - doe / 1460 + doe / 36524 - doe / 146096) / 365 in
  let doy := doe - (365 * yoe + yoe / 4 - yoe / 100) in
  let mp := (5 * doy + 2) / 153 in
  let d := doy - (153 * mp + 2) / 5 + 1 in
  let m := if mp <? 10 then mp + 3 else mp - 9 in
  let y := yoe + era * 400 + (if m <=? 2 then 1 else 0) in
  (y, m, d).

(** ** ArduinoJson

    The values of a [JsonDocument] as far as [DataProcessor] uses them:
    null, strings and objects, an object being the chain of its members
    in the order they were added.  The memory pool that holds them comes
    further down, with [StaticJsonDocument]. *)

Inductive JsonVariant : Type :=
| JNull
| JString (s : string)
| JObject (members : JsonMembers)
with JsonMembers : Type :=
| MNil
| MCons (key : string) (value : JsonVariant) (rest : JsonMembers).

Definition DQ : ascii := ascii_of_nat 34.
Definition BACKSLASH : ascii := ascii_of_nat 92.
Definition NUL : ascii := ascii_of_nat 0.

(** [obj[key] = value]: the member of that key gets the value, a new
    member goes to the end. *)
Fixpoint members_set (ms : JsonMembers) (k : string) (v : JsonVariant) : JsonMembers :=
  match ms with
  | MNil => MCons k v MNil
  | MCons k' v' rest =>
      if String.eqb k' k then MCons k' v rest
      else MCons k' v' (members_set rest k v)
  end.

Fixpoint members_get (ms : JsonMembers) (k : string) : option JsonVariant :=
  match ms with
  | MNil => None
  | MCons k' v' rest => if String.eqb k' k then Some v' else members_get rest k
  end.

Definition has_key (ms : JsonMembers) (k : string) : bool :=
  match members_get ms k with Some _ => true | None => false end.

Fixpoint members_remove (ms : JsonMembers) (k : string) : JsonMembers :=
  match ms with
  | MNil => MNil
  | MCons k' v' rest =>
      if String.eqb k' k then rest else MCons k' v' (members_remove rest k)
  end.

(** [doc[key] = value]; a null document becomes an object. *)
Definition doc_set (doc : JsonVariant) (k : string) (v : JsonVariant) : JsonVariant :=
  match doc with
  | JNull => JObject (MCons k v MNil)
  | JObject ms => JObject (members_set ms k v)
  | JString _ => doc
  end.

Definition doc_get (doc : JsonVariant) (k : string) : option JsonVariant :=
  match doc with
  | JObject ms => members_get ms k
  | _ => None
  end.

Definition doc_remove (doc : JsonVariant) (k : string) : JsonVariant :=
  match doc with
  | JObject ms => JObject (members_remove ms k)
  | _ => doc
  end.

(** [doc.createNestedObject(key)], and [obj[k] = v] on the object it
    returned, which is the member [key] of the document. *)
Definition createNestedObject (doc : JsonVariant) (key : string) : JsonVariant :=
  doc_set doc key (JObject MNil).

Definition nested_set (doc : JsonVariant) (key k : string) (v : JsonVariant) : JsonVariant :=
  match doc_get doc key with
  | Some obj => doc_set doc key (doc_set obj k v)
  | None => doc
  end.

(** The escape sequences of the serializer: the letter that follows the
    backslash. *)
Definition escape_char (c : ascii) : option ascii :=
  if Ascii.eqb c DQ then Some DQ
  else if Ascii.eqb c BACKSLASH then Some BACKSLASH
  else if Ascii.eqb c (ascii_of_nat 8) then Some "b"%char
  else if Ascii.eqb c (ascii_of_nat 12) then Some "f"%char
  else if Ascii.eqb c LF then Some "n"%char
  else if Ascii.eqb c CR then Some "r"%char
  else if Ascii.eqb c (ascii_of_nat 9) then Some "t"%char
  else None.

(** The escape sequences the parser takes, the solidus among them. *)
Definition unescape_char (e : ascii) : option ascii :=
  if Ascii.eqb e DQ then Some DQ
  else if Ascii.eqb e BACKSLASH then Some BACKSLASH
  else if Ascii.eqb e "/"%char then Some "/"%char
  else if Ascii.eqb e "b"%char then Some (ascii_of_nat 8)
  else if Ascii.eqb e "f"%char then Some (ascii_of_nat 12)
  else if Ascii.eqb e "n"%char then Some LF
  else if Ascii.eqb e "r"%char then Some CR
  else if Ascii.eqb e "t"%char then Some (ascii_of_nat 9)
  else None.

Fixpoint escape (s : string) : string :=
  match s with
  | EmptyString => EmptyString
  | String c s' =>
      match escape_char c with
      | Some e => String BACKSLASH (String e (escape s'))
      | None =>
          if Ascii.eqb c NUL then "\u0000" ++ escape s'
          else String c (escape s')
      end
  end.

Definition quote (s : string) : string :=
  String DQ (escape s ++ String DQ EmptyString).

(** [serializeJson]: the compact form. *)
Fixpoint serializeJson (v : JsonVariant) : string :=
  match v with
  | JNull => "null"
  | JString s => quote s
  | JObject ms => "{" ++ serialize_members ms ++ "}"
  end
with serialize_members (ms : JsonMembers) : string :=
  match ms with
  | MNil => EmptyString
  | MCons k v rest =>
      quote k ++ ":" ++ serializeJson v
        ++ match rest with
           | MNil => EmptyString
           | MCons _ _ _ => "," ++ serialize_members rest
           end
  end.

(** The parser of [deserializeJson], for null, strings and objects; anything
    else ends in an error, [None].  Unicode escapes are not decoded. *)
Fixpoint skip_spaces (s : string) : string :=
  match s with
  | EmptyString => EmptyString
  | String c s' =>
      if (Ascii.eqb c " " || Ascii.eqb c (ascii_of_nat 9)
          || Ascii.eqb c LF || Ascii.eqb c CR)%bool
      then skip_spaces s' else s
  end.

(** The string after its opening quote: the text up to the closing quote,
    and what follows that quote. *)
Fixpoint parse_string_body (s : string) : option (string * string) :=
  match s with
  | EmptyString => None
  | String c s' =>
      if Ascii.eqb c DQ then Some (EmptyString, s')
      else if Ascii.eqb c BACKSLASH then
        match s' with
        | EmptyString => None
        | String e s'' =>
            match unescape_char e with
            | None => None
            | Some ch =>
                match parse_string_body s'' with
                | Some (str, rest) => Some (String ch str, rest)
                | None => None
                end
            end
        end
      else if Ascii.eqb c NUL then None
      else
        match parse_string_body s' with
        | Some (str, rest) => Some (String c str, rest)
        | None => None
        end
  end.

Fixpoint parse_value (fuel : nat) (s : string) {struct fuel}
  : option (JsonVariant * string) :=
  match fuel with
  | O => None
  | S fuel' =>
      match skip_spaces s with
      | EmptyString => None
      | String c s1 =>
          if Ascii.eqb c "{" then
            match skip_spaces s1 with
            | EmptyString => None
            | String c2 s2 =>
                if Ascii.eqb c2 "}" then Some (JObject MNil, s2)
                else parse_members fuel' (String c2 s2) MNil
            end
          else if Ascii.eqb c DQ then
            match parse_string_body s1 with
            | Some (str, rest) => Some (JString str, rest)
            | None => None
            end
          else
            match s1 with
            | String c1 (String c2 (String c3 rest)) =>
                if (Ascii.eqb c "n" && Ascii.eqb c1 "u"
                    && Ascii.eqb c2 "l" && Ascii.eqb c3 "l")%bool
                then Some (JNull, rest) else None
            | _ => None
            end
      end
  end
with parse_members (fuel : nat) (s : string) (acc : JsonMembers) {struct fuel}
  : option (JsonVariant * string) :=
  match fuel with
  | O => None
  | S fuel' =>
      match s with
      | EmptyString => None
      | String c s1 =>
          if Ascii.eqb c DQ then
            match parse_string_body s1 with
            | None => None
            | Some (k, s2) =>
                match skip_spaces s2 with
                | EmptyString => None
                | String c3 s3 =>
                    if Ascii.eqb c3 ":" then
                      match parse_value fuel' s3 with
                      | None => None
                      | Some (v, s4) =>
                          let acc' := members_set acc k v in
                          match skip_spaces s4 with
                          | EmptyString => None
                          | String c5 s5 =>
                              if Ascii.eqb c5 "}" then Some (JObject acc', s5)
                              else if Ascii.eqb c5 "," then
                                parse_members fuel' (skip_spaces s5) acc'
                              else None
                          end
                      end
                    else None
                end
            end
          else None
      end
  end.

(** [deserializeJson(doc, input)] into a document that has room for all of
    the input, as the reader of a message has it: the document, or [None]
    for an error.  What follows the first value is not looked at. *)
Definition deserializeJson (input : string) : option JsonVariant :=
  match parse_value (S (String.length input)) input with
  | Some (v, _) => Some v
  | None => None
  end.

(** ** The memory pool of a document

    [StaticJsonDocument<512>] is the document of ArduinoJson 6 with a
    pool of 512 bytes inside.  On the ESP32 every member of an object
    takes a slot of 16 bytes; a [String] that is assigned, and every key
    and string that is parsed, is copied into the pool with a final zero
    byte; a key given as a string literal is not copied.  What finds no
    room is left out: a member whose slot cannot be allocated is not
    added, a string that cannot be copied leaves null, and the parser
    stops with what it has built. *)
Definition POOL_CAPACITY : Z := 512.
Definition SLOT_SIZE : Z := 16.
Definition string_size (s : string) : Z := Z.of_nat (String.length s) + 1.

Record StaticJsonDocument : Type := mkDocument {
  root : JsonVariant;
  pool_used : Z
}.

Definition StaticJsonDocument_new : StaticJsonDocument := mkDocument JNull 0.

(** The slot of a member; a member that is there has its slot. *)
Definition alloc_slot (present : bool) (used : Z) : option Z :=
  if present then Some used
  else if used + SLOT_SIZE <=? POOL_CAPACITY then Some (used + SLOT_SIZE)
  else None.

(** The copy of a string into the pool, and the value that it leaves. *)
Definition store_string (s : string) (used : Z) : JsonVariant * Z :=
  if used + string_size s <=? POOL_CAPACITY
  then (JString s, used + string_size s)
  else (JNull, used).

Definition has_member (doc : JsonVariant) (k : string) : bool :=
  match doc_get doc k with Some _ => true | None => false end.

(** [doc[key] = value] for a [String value] and a literal [key]. *)
Definition set_string (doc : StaticJsonDocument) (key value : string)
  : StaticJsonDocument :=
  match alloc_slot (has_member (root doc) key) (pool_used doc) with
  | None => doc
  | Some used1 =>
      let (v, used2) := store_string value used1 in
      mkDocument (doc_set (root doc) key v) used2
  end.

(** [doc.createNestedObject(key)]: the document, and whether the
    [JsonObject] returned is bound to a member; it is not when the slot
    found no room. *)
Definition create_nested_object (doc : StaticJsonDocument) (key : string)
  : StaticJsonDocument * bool :=
  match alloc_slot (has_member (root doc) key) (pool_used doc) with
  | None => (doc, false)
  | Some used1 => (mkDocument (createNestedObject (root doc) key) used1, true)
  end.

(** [obj[k] = value] on the [JsonObject] that [createNestedObject(key)]
    returned; nothing happens on an object that is not bound. *)
Definition nested_set_string (doc : StaticJsonDocument) (bound : bool)
  (key k value : string) : StaticJsonDocument :=
  if bound then
    match doc_get (root doc) key with
    | Some obj =>
        match alloc_slot (has_member obj k) (pool_used doc) with
        | None => doc
        | Some used1 =>
            let (v, used2) := store_string value used1 in
            mkDocument (nested_set (root doc) key k v) used2
        end
    | None => doc
    end
  else doc.

(** The parser with the pool.  [Complete]: the value, the input behind it
    and the pool; [Stopped]: an error, of syntax or for lack of room, with
    the value as far as it was built. *)
Inductive ParseResult : Type :=
| Complete (v : JsonVariant) (rest : string) (used : Z)
| Stopped (v : JsonVariant) (used : Z).

Fixpoint parse_value_pool (fuel : nat) (s : string) (used : Z) {struct fuel}
  : ParseResult :=
  match fuel with
  | O => Stopped JNull used
  | S fuel' =>
      match skip_spaces s with
      | EmptyString => Stopped JNull used
      | String c s1 =>
          if Ascii.eqb c "{" then
            match skip_spaces s1 with
            | EmptyString => Stopped (JObject MNil) used
            | String c2 s2 =>
                if Ascii.eqb c2 "}" then Complete (JObject MNil) s2 used
                else parse_members_pool fuel' (String c2 s2) MNil used
            end
          else if Ascii.eqb c DQ then
            match parse_string_body s1 with
            | Some (str, rest) =>
                if used + string_size str <=? POOL_CAPACITY
                then Complete (JString str) rest (used + string_size str)
                else Stopped JNull used
            | None => Stopped JNull used
            end
          else
            match s1 with
            | String c1 (String c2 (String c3 rest)) =>
                if (Ascii.eqb c "n" && Ascii.eqb c1 "u"
                    && Ascii.eqb c2 "l" && Ascii.eqb c3 "l")%bool
                then Complete JNull rest used else Stopped JNull used
            | _ => Stopped JNull used
            end
      end
  end
with parse_members_pool (fuel : nat) (s : string) (acc : JsonMembers) (used : Z)
  {struct fuel} : ParseResult :=
  match fuel with
  | O => Stopped (JObject acc) used
  | S fuel' =>
      match s with
      | EmptyString => Stopped (JObject acc) used
      | String c s1 =>
          if Ascii.eqb c DQ then
            match parse_string_body s1 with
            | None => Stopped (JObject acc) used
            | Some (k, s2) =>
                if used + string_size k <=? POOL_CAPACITY then
                  match skip_spaces s2 with
                  | EmptyString => Stopped (JObject acc) used
                  | String c3 s3 =>
                      if Ascii.eqb c3 ":" then
                        let present := has_key acc k in
                        let used_key :=
                          if present then used else used + string_size k in
                        match alloc_slot present used_key with
                        | None => Stopped (JObject acc) used_key
                        | Some used_slot =>
                            match parse_value_pool fuel' s3 used_slot with
                            | Stopped v used' =>
                                Stopped (JObject (members_set acc k v)) used'
                            | Complete v s4 used' =>
                                let acc' := members_set acc k v in
                                match skip_spaces s4 with
                                | EmptyString => Stopped (JObject acc') used'
                                | String c5 s5 =>
                                    if Ascii.eqb c5 "}"
                                    then Complete (JObject acc') s5 used'
                                    else if Ascii.eqb c5 ","
                                    then parse_members_pool fuel' (skip_spaces s5)
                                           acc' used'
                                    else Stopped (JObject acc') used'
                                end
                            end
                        end
                      else Stopped (JObject acc) used
                  end
                else Stopped (JObject acc) used
            end
          else Stopped (JObject acc) used
      end
  end.

(** [deserializeJson(doc, input)] into a [StaticJsonDocument<512>]: the
    document, and whether the parser went through. *)
Definition deserializeJson_static (input : string) : StaticJsonDocument * bool :=
  match parse_value_pool (S (String.length input)) input 0 with
  | Complete v _ used => (mkDocument v used, true)
  | Stopped v used => (mkDocument v used, false)
  end.

(** What a document takes in the pool once it is parsed. *)
Fixpoint load_size (v : JsonVariant) : Z :=
  match v with
  | JNull => 0
  | JString s => string_size s
  | JObject ms => members_load_size ms
  end
with members_load_size (ms : JsonMembers) : Z :=
  match ms with
  | MNil => 0
  | MCons k v rest =>
      string_size k + SLOT_SIZE + load_size v + members_load_size rest
  end.

Fixpoint nul_free (s : string) : bool :=
  match s with
  | EmptyString => true
  | String c s' => (negb (Ascii.eqb c NUL) && nul_free s')%bool
  end.

(** ** data_processor.cpp *)

(** [snprintf(buffer, sizeof(buffer), "%.2f", value)] with [char buffer[10]]:
    at most 9 bytes are kept. *)
Definition formatFloat (value : spec_float) : string :=
  substring 0 9 (printf_2f value).

(** [gmtime] and [strftime(.., "%Y-%m-%dT%H:%M:%SZ", ..)].  The timestamp is
    an [unsigned long]; [time_t] has 64 bits, so that the cast keeps it. *)
Definition formatISO8601 (timestamp : Z) : string :=
  let rawtime := uint32_wrap timestamp in
  let secs := rawtime mod 86400 in
  let '(y, m, d) := civil_from_days (rawtime / 86400) in
  dec y ++ "-" ++ pad2 m ++ "-" ++ pad2 d ++ "T"
    ++ pad2 (secs / 3600) ++ ":" ++ pad2 (secs mod 3600 / 60) ++ ":"
    ++ pad2 (secs mod 60) ++ "Z".

(** [computeSHA256Hash]: the digest of the bytes of the payload, in
    lowercase hexadecimal. *)
Definition computeSHA256Hash (payload : string) : string :=
  hex_of_bytes (sha256 (bytes_of_string payload)).

(** The [StaticJsonDocument<512>] of [createPayload] before it is
    serialized. *)
Definition payload_pool (readings : SensorReadings) (farmId deviceId : string)
  : StaticJsonDocument :=
  let doc := StaticJsonDocument_new in
  let doc := set_string doc "farmId" farmId in
  let doc := set_string doc "deviceId" deviceId in
  let doc := set_string doc "timestamp" (formatISO8601 (timestamp readings)) in
  let (doc, readingsObj) := create_nested_object doc "readings" in
  let doc := nested_set_string doc readingsObj "readings" "soilMoisture"
               (formatFloat (soilMoisture readings)) in
  let doc := nested_set_string doc readingsObj "readings" "soilTemperature"
               (formatFloat (soilTemperature readings)) in
  let doc := nested_set_string doc readingsObj "readings" "airTemperature"
               (formatFloat (airTemperature readings)) in
  let doc := nested_set_string doc readingsObj "readings" "humidity"
               (formatFloat (humidity readings)) in
  doc.

Definition payload_document (readings : SensorReadings) (farmId deviceId : string)
  : JsonVariant :=
  root (payload_pool readings farmId deviceId).

Definition createPayload (readings : SensorReadings) (farmId deviceId : string)
  : string :=
  serializeJson (payload_document readings farmId deviceId).

(** The payload is parsed into a second [StaticJsonDocument<512>].  The
    result of [deserializeJson] is not looked at: after an error the
    document holds what the parser built before it stopped. *)
Definition createMessage (readings : SensorReadings) (farmId deviceId : string)
  : string :=
  let payload := createPayload readings farmId deviceId in
  let hash := computeSHA256Hash payload in
  let doc := fst (deserializeJson_static payload) in
  let doc := set_string doc "hash" hash in
  serializeJson (root doc).

(** The document of a payload all of whose strings found room. *)
Definition whole_payload (readings : SensorReadings) (farmId deviceId : string)
  : JsonVariant :=
  JObject
    (MCons "farmId" (JString farmId)
    (MCons "deviceId" (JString deviceId)
    (MCons "timestamp" (JString (formatISO8601 (timestamp readings)))
    (MCons "readings"
       (JObject
          (MCons "soilMoisture" (JString (formatFloat (soilMoisture readings)))
          (MCons "soilTemperature" (JString (formatFloat (soilTemperature readings)))
          (MCons "airTemperature" (JString (formatFloat (airTemperature readings)))
          (MCons "humidity" (JString (formatFloat (humidity readings))) MNil)))))
     MNil)))).

(** The room the documents ask for.  The strings of a payload: the two
    identifiers, the timestamp and the four readings, each with its final
    zero.  In [createPayload] the eight members take a slot each, the keys
    being literals.  In [createMessage] the parser copies the eight keys as
    well (88 bytes), and the member "hash" takes a ninth slot and the 65
    bytes of the digest. *)
Definition payload_strings_size (readings : SensorReadings) (farmId deviceId : string)
  : Z :=
  string_size farmId + string_size deviceId
  + string_size (formatISO8601 (timestamp readings))
  + string_size (formatFloat (soilMoisture readings))
  + string_size (formatFloat (soilTemperature readings))
  + string_size (formatFloat (airTemperature readings))
  + string_size (formatFloat (humidity readings)).

Definition payload_pool_size (readings : SensorReadings) (farmId deviceId : string)
  : Z :=
  8 * SLOT_SIZE + payload_strings_size readings farmId deviceId.

Definition message_pool_size (readings : SensorReadings) (farmId deviceId : string)
  : Z :=
  9 * SLOT_SIZE + 88 + payload_strings_size readings farmId deviceId + 65.

(** A farm identifier of 200 bytes. *)
Definition long_farm_id : string := string_of_list_ascii (repeat "a"%char 200).

(** Double quotes written as apostrophes, for the texts of the examples. *)
Fixpoint dq (s : string) : string :=
  match s with
  | EmptyString => EmptyString
  | String c s' => String (if Ascii.eqb c "'" then DQ else c) (dq s')
  end.

(** The reading of the scenario of the specification: moisture 45.00,
    soil 22.50 C, air 25.00 C, humidity 60.00 %, at 1700000000. *)
Definition scenario_reading : SensorReadings :=
  mkReadings (float_of_Z 45) (binary_normalize 24 128 45 (-1) false)
    (float_of_Z 25) (float_of_Z 60) 1700000000 true.


(** Documents that hold C strings (no NUL inside) and no key twice. *)
Fixpoint wf_variant (v : JsonVariant) : bool :=
  match v with
  | JNull => true
  | JString s => nul_free s
  | JObject ms => wf_members ms
  end
with wf_members (ms : JsonMembers) : bool :=
  match ms with
  | MNil => true
  | MCons k v rest =>
      (nul_free k && wf_variant v && negb (has_key rest k) && wf_members rest)%bool
  end.

Fixpoint mappend (a b : JsonMembers) : JsonMembers :=
  match a with
  | MNil => b
  | MCons k v rest => MCons k v (mappend rest b)
  end.

(** The keys of [ms] are not keys of [acc]. *)
Fixpoint keys_fresh (acc ms : JsonMembers) : bool :=
  match ms with
  | MNil => true
  | MCons k _ rest => (negb (has_key acc k) && keys_fresh acc rest)%bool
  end.

(** The rounds the parser needs for a document. *)
Fixpoint vfuel (v : JsonVariant) : nat :=
  match v with
  | JNull => 1
  | JString _ => 1
  | JObject ms => S (mfuel ms)
  end
with mfuel (ms : JsonMembers) : nat :=
  match ms with
  | MNil => 0
  | MCons _ v rest => S (Nat.max (vfuel v) (mfuel rest))
  end.

Definition is_lower_hex (c : ascii) : bool :=
  let n := nat_of_ascii c in
  ((Nat.leb 48 n && Nat.leb n 57) || (Nat.leb 97 n && Nat.leb n 102))%bool.

Fixpoint all_lower_hex (s : string) : bool :=
  match s with
  | EmptyString => true
  | String c s' => (is_lower_hex c && all_lower_hex s')%bool
  end.

Scheme JsonVariant_mind := Induction for JsonVariant Sort Prop
  with JsonMembers_mind := Induction for JsonMembers Sort Prop.
Combined Scheme Json_mutind from JsonVariant_mind, JsonMembers_mind.

(** ** local_storage.cpp: files as other writers leave them *)

(** The lines with LF alone behind each of them. *)
Definition unix_file_of (lines : list string) : string :=
  fold_right (fun l acc => l ++ String LF acc) EmptyString lines.

(** ** data_processor.cpp: the parts of the timestamp text *)

Definition date_text (days : Z) : string :=
  let '(y, m, d) := civil_from_days days in
  dec y ++ "-" ++ pad2 m ++ "-" ++ pad2 d.

Definition time_text (secs : Z) : string :=
  pad2 (secs / 3600) ++ ":" ++ pad2 (secs mod 3600 / 60) ++ ":" ++ pad2 (secs mod 60).

(** The date as one number, year * 10000 + month * 100 + day. *)
Definition date_code (days : Z) : Z :=
  let '(y, m, d) := civil_from_days days in y * 10000 + m * 100 + d.

(** The number that the decimal digits of a text spell, other bytes
    passed over. *)
Fixpoint digits_code (s : string) (acc : Z) : Z :=
  match s with
  | EmptyString => acc
  | String c s' =>
      let n := Z.of_nat (nat_of_ascii c) in
      digits_code s' (if ((48 <=? n) && (n <=? 57))%bool then acc * 10 + (n - 48) else acc)
  end.

Fixpoint Zrange (lo : Z) (n : nat) : list Z :=
  match n with
  | O => nil
  | S n' => lo :: Zrange (lo + 1) n'
  end.

(** The checks that are run over all the days of an [unsigned long]
    timestamp, all years of that span and all numbers of two digits.
    [dates_check n day prev]: on each of the [n] days from [day] on the
    date is one of 1970 to 2106 and its code is above the code of the day
    before, [prev] for the first. *)
Fixpoint dates_check (n : nat) (day prev : Z) : bool :=
  match n with
  | O => true
  | S n' =>
      let '(y, m, d) := civil_from_days day in
      let code := y * 10000 + m * 100 + d in
      ((1970 <=? y) && (y <=? 2106) && (1 <=? m) && (m <=? 12)
       && (1 <=? d) && (d <=? 31) && (prev <? code)
       && dates_check n' (day + 1) code)%bool
  end.

Definition year_check (y : Z) : bool :=
  (Nat.eqb (String.length (dec y)) 4 && (digits_code (dec y) 0 =? y))%bool.

Definition pad2_check (z : Z) : bool :=
  (Nat.eqb (String.length (pad2 z)) 2 && (digits_code (pad2 z) 0 =? z))%bool.

(** ** The delivery tries and the delays of a call, for the further
    properties of the MQTT client *)

(** Every delivery try among the events goes to [topic] and carries
    [payload]. *)
Definition tries_carry (topic payload : string) (evs : list Event) : Prop :=
  Forall (fun e => match e with
                   | EvPublish t p _ => t = topic /\ p = payload
                   | _ => True
                   end) evs.

(** The milliseconds spent in [::delay]. *)
Fixpoint total_delay (evs : list Event) : Z :=
  match evs with
  | [] => 0
  | EvDelay ms :: evs' => ms + total_delay evs'
  | _ :: evs' => total_delay evs'
  end.

Fixpoint timeline_delay (tl : list (option Z)) : Z :=
  match tl with
  | [] => 0
  | Some ms :: tl' => ms + timeline_delay tl'
  | None :: tl' => timeline_delay tl'
  end.

(** What [begin] sets stays as it is. *)
Definition same_config {W : Type} (st st' : MQTTClientManager W) : Prop :=
  farmId st' = farmId st /\ deviceId st' = deviceId st /\
  publishTopic st' = publishTopic st /\ subscribeTopic st' = subscribeTopic st.

(** A step that keeps the configuration and whose delivery tries all go
    to the publish topic with [message]. *)
Definition carries {W : Type} (message : string) (st st' : MQTTClientManager W) : Prop :=
  same_config st st' /\
  exists evs, events st' = (events st ++ evs)%list /\
              tries_carry (publishTopic st) message evs.


(** ** SensorManager: the constructor and [begin] *)

Definition SensorManager_new : SensorManager := mkSensorManager false false.

(** [begin]; [deviceCount] is what [ds18b20.getDeviceCount()] returns. *)
Definition sensor_begin (deviceCount : Z) (mgr : SensorManager) : bool * SensorManager :=
  let dht22 := true in
  let ds18b20 := if 0 <? deviceCount then true else false in
  ((dht22 && ds18b20)%bool, mkSensorManager dht22 ds18b20).

(** The acquisition with [raw] at the ADC and nothing else to read. *)
Definition adc_inputs (raw : Z) : SensorInputs :=
  mkInputs raw S754_nan S754_nan S754_nan 0.

Definition sf_eqb (x y : spec_float) : bool :=
  match x, y with
  | S754_zero a, S754_zero b => Bool.eqb a b
  | S754_infinity a, S754_infinity b => Bool.eqb a b
  | S754_nan, S754_nan => true
  | S754_finite s m e, S754_finite s' m' e' =>
      (Bool.eqb s s' && Pos.eqb m m' && Z.eqb e e')%bool
  | _, _ => false
  end.

(** The check that is run over the values of the 12-bit ADC: the reading
    at [raw + 1] is not above the one at [raw], below it between the
    calibration points, and the reading is 100 up to the wet point and 0
    from the dry point on. *)
Definition moisture_check (raw : Z) : bool :=
  let v := readSoilMoisture (adc_inputs raw) in
  let v' := readSoilMoisture (adc_inputs (raw + 1)) in
  (fle v' v
   && (if raw <=? SOIL_MOISTURE_WET then sf_eqb v (float_of_Z 100) else true)
   && (if SOIL_MOISTURE_DRY <=? raw then sf_eqb v (float_of_Z 0) else true)
   && (if (SOIL_MOISTURE_WET <=? raw) && (raw <? SOIL_MOISTURE_DRY)
       then flt v' v else true))%bool.

(** An acquisition in which the DS18B20 driver delivers NaN. *)
Definition nan_inputs : SensorInputs :=
  mkInputs 2200 S754_nan (float_of_Z 25) (float_of_Z 60) 1700000000.

(** An acquisition in which the DS18B20 reports a disconnected device. *)
Definition disconnected_inputs : SensorInputs :=
  mkInputs 2200 DEVICE_DISCONNECTED_C (float_of_Z 25) (float_of_Z 60) 1700000000.


(** ** The hundredths of [%.2f] *)

(** The hundredths that [printf_2f] prints for the magnitude [m * 2^e]. *)
Definition hundredths (m : positive) (e : Z) : Z :=
  if 0 <=? e then Zpos m * 2 ^ e * 100
  else round_half_even (Zpos m * 100) (2 ^ (- e)).

(** The text of a sign and a number of hundredths. *)
Definition two_decimals (negative : bool) (h : Z) : string :=
  (if negative then "-" else EmptyString) ++ dec (h / 100) ++ "." ++ pad2 (h mod 100).

Definition dec_check (n : Z) : bool := (String.length (dec n) <=? 3)%nat.


(* ================================================================== *)
(** * Part II: lemmas and theorems                                     *)
(* ================================================================== *)

(** ** Strings *)

Lemma append_empty_r (s : string) : s ++ EmptyString = s.
Proof. induction s as [|c s IH]; simpl; [reflexivity | now rewrite IH]. Qed.

Lemma append_assoc (a b c : string) : (a ++ b) ++ c = a ++ (b ++ c).
Proof. induction a as [|x a IH]; simpl; [reflexivity | now rewrite IH]. Qed.

Lemma length_append (a b : string) :
  String.length (a ++ b) = (String.length a + String.length b)%nat.
Proof. induction a as [|x a IH]; simpl; [reflexivity | now rewrite IH]. Qed.

Lemma is_empty_true (s : string) : is_empty s = true -> s = EmptyString.
Proof. destruct s; simpl; [reflexivity | discriminate]. Qed.

Lemma length_ltrim (s : string) : (String.length (ltrim s) <= String.length s)%nat.
Proof.
  induction s as [|c s IH]; simpl; [lia|].
  destruct (isspace c); simpl; lia.
Qed.

Lemma length_rtrim (s : string) : (String.length (rtrim s) <= String.length s)%nat.
Proof.
  induction s as [|c s IH]; simpl; [lia|].
  destruct (isspace c && is_empty (rtrim s))%bool; simpl; lia.
Qed.

Lemma rtrim_idem (s : string) : rtrim (rtrim s) = rtrim s.
Proof.
  induction s as [|c s IH]; simpl; [reflexivity|].
  destruct (isspace c && is_empty (rtrim s))%bool eqn:E; simpl; [reflexivity|].
  now rewrite IH, E.
Qed.

Lemma rtrim_append_space (s : string) (c : ascii) :
  isspace c = true -> rtrim (s ++ String c EmptyString) = rtrim s.
Proof.
  intros Hc. induction s as [|a s IH]; simpl.
  - now rewrite Hc.
  - now rewrite IH.
Qed.

Lemma ltrim_starts_visible (s : string) : starts_visible (ltrim s) = true.
Proof.
  induction s as [|c s IH]; simpl; [reflexivity|].
  destruct (isspace c) eqn:E; [exact IH | simpl; now rewrite E].
Qed.

Lemma ltrim_fix (s : string) : starts_visible s = true -> ltrim s = s.
Proof.
  destruct s as [|c s]; simpl; [reflexivity|].
  destruct (isspace c); simpl; [discriminate | reflexivity].
Qed.

Lemma rtrim_starts_visible (s : string) :
  starts_visible s = true -> starts_visible (rtrim s) = true.
Proof.
  destruct s as [|c s]; simpl; [reflexivity|].
  destruct (isspace c) eqn:E; simpl; [discriminate | now rewrite E].
Qed.

Lemma trim_idem (s : string) : trim (trim s) = trim s.
Proof.
  unfold trim.
  rewrite (ltrim_fix (rtrim (ltrim s))).
  - apply rtrim_idem.
  - apply rtrim_starts_visible, ltrim_starts_visible.
Qed.

Lemma newline_free_append (a b : string) :
  newline_free (a ++ b) = (newline_free a && newline_free b)%bool.
Proof.
  induction a as [|c a IH]; simpl; [reflexivity|].
  rewrite IH. now rewrite andb_assoc.
Qed.

Lemma newline_free_ltrim (s : string) :
  newline_free s = true -> newline_free (ltrim s) = true.
Proof.
  induction s as [|c s IH]; simpl; [reflexivity|].
  intros H. apply andb_true_iff in H as [H1 H2].
  destruct (isspace c); [now apply IH | simpl; now rewrite H1, H2].
Qed.

Lemma newline_free_rtrim (s : string) :
  newline_free s = true -> newline_free (rtrim s) = true.
Proof.
  induction s as [|c s IH]; simpl; [reflexivity|].
  intros H. apply andb_true_iff in H as [H1 H2].
  destruct (isspace c && is_empty (rtrim s))%bool; simpl; [reflexivity|].
  now rewrite H1, IH.
Qed.

Lemma newline_free_trim (s : string) :
  newline_free s = true -> newline_free (trim s) = true.
Proof. intros H. now apply newline_free_rtrim, newline_free_ltrim. Qed.

(** ** Records *)

Lemma is_record_inv (l : string) :
  is_record l = true ->
  l <> EmptyString /\ newline_free l = true /\ ltrim l = l /\ rtrim l = l.
Proof.
  unfold is_record. intros H.
  apply andb_true_iff in H as [H Hnl]. apply andb_true_iff in H as [Hne Htr].
  apply String.eqb_eq in Htr.
  assert (Hl : ltrim l = l).
  { destruct l as [|c l]; [reflexivity|]. simpl.
    destruct (isspace c) eqn:E; [|reflexivity].
    exfalso. unfold trim in Htr. simpl in Htr. rewrite E in Htr.
    pose proof (length_rtrim (ltrim l)) as L1.
    pose proof (length_ltrim l) as L2.
    rewrite Htr in L1. simpl in L1. lia. }
  repeat split; trivial.
  - intros ->. discriminate.
  - unfold trim in Htr. now rewrite Hl in Htr.
Qed.

Lemma trim_record_cr (l : string) :
  is_record l = true -> trim (l ++ String CR EmptyString) = l.
Proof.
  intros H. destruct (is_record_inv l H) as (Hne & _ & Hl & Hr).
  unfold trim. rewrite ltrim_fix.
  - rewrite rtrim_append_space; [exact Hr | reflexivity].
  - destruct l as [|c l]; [congruence|]. simpl in *.
    destruct (isspace c) eqn:E; [|reflexivity].
    exfalso. pose proof (length_ltrim l) as L. rewrite Hl in L. simpl in L. lia.
Qed.

Lemma trim_is_record (s : string) :
  newline_free s = true -> is_empty (trim s) = false -> is_record (trim s) = true.
Proof.
  intros Hnl Hne. unfold is_record.
  rewrite Hne, trim_idem, String.eqb_refl, newline_free_trim; trivial.
Qed.

(** ** Reading the file back *)

Lemma readStringUntil_line (l rest : string) :
  newline_free l = true ->
  readStringUntil LF (l ++ String LF rest) = (l, rest).
Proof.
  induction l as [|c l IH]; simpl; intros H.
  - reflexivity.
  - apply andb_true_iff in H as [H1 H2].
    apply negb_true_iff in H1. rewrite H1, (IH H2). reflexivity.
Qed.

Lemma readStringUntil_newline_free (s : string) :
  newline_free (fst (readStringUntil LF s)) = true.
Proof.
  induction s as [|c s IH]; simpl; [reflexivity|].
  destruct (Ascii.eqb c LF) eqn:E; [reflexivity|].
  destruct (readStringUntil LF s) as [line rest]. simpl in *.
  now rewrite E, IH.
Qed.

Lemma readStringUntil_rest (s : string) :
  (String.length (snd (readStringUntil LF s)) <= Nat.pred (String.length s))%nat.
Proof.
  induction s as [|c s IH]; simpl; [lia|].
  destruct (Ascii.eqb c LF); simpl; [lia|].
  destruct (readStringUntil LF s) as [line rest]. simpl in *. lia.
Qed.

Lemma readLines_loop_acc (n : nat) : forall (s : string) (acc : list string),
  readLines_loop n s acc = (acc ++ readLines_loop n s [])%list.
Proof.
  induction n as [|n IH]; intros s acc; simpl.
  - now rewrite app_nil_r.
  - destruct (is_empty s); [now rewrite app_nil_r|].
    destruct (readStringUntil LF s) as [line rest].
    destruct (Nat.ltb 0 (String.length (trim line))).
    + rewrite (IH rest (acc ++ [trim line])%list), (IH rest [trim line]).
      now rewrite <- app_assoc.
    + apply IH.
Qed.

Lemma readLines_loop_fuel (n : nat) : forall (m : nat) (s : string) (acc : list string),
  (String.length s <= n)%nat -> (String.length s <= m)%nat ->
  readLines_loop n s acc = readLines_loop m s acc.
Proof.
  induction n as [|n IH]; intros m s acc Hn Hm.
  - destruct s; [|simpl in Hn; lia]. destruct m; reflexivity.
  - destruct m as [|m].
    + destruct s; [reflexivity | simpl in Hm; lia].
    + simpl. destruct (is_empty s) eqn:E; [reflexivity|].
      pose proof (readStringUntil_rest s) as R.
      destruct (readStringUntil LF s) as [line rest]. simpl in R.
      apply IH; lia.
Qed.

Lemma read_content_empty : read_content EmptyString = [].
Proof. reflexivity. Qed.

Lemma read_content_step (s : string) :
  s <> EmptyString ->
  read_content s =
    (line_entry (fst (readStringUntil LF s))
       ++ read_content (snd (readStringUntil LF s)))%list.
Proof.
  intros Hs. unfold read_content at 1.
  destruct s as [|c s]; [congruence|].
  cbn [String.length readLines_loop is_empty].
  pose proof (readStringUntil_rest (String c s)) as R.
  destruct (readStringUntil LF (String c s)) as [line rest].
  cbn [fst snd] in *. simpl in R.
  rewrite readLines_loop_acc.
  rewrite (readLines_loop_fuel _ (String.length rest) rest []) by lia.
  fold (read_content rest). f_equal.
  unfold line_entry. destruct (trim line); reflexivity.
Qed.

Lemma read_content_line (l rest : string) :
  newline_free l = true ->
  read_content (l ++ CRLF ++ rest) = (line_entry (l ++ String CR EmptyString) ++ read_content rest)%list.
Proof.
  intros Hl.
  assert (E : l ++ CRLF ++ rest = (l ++ String CR EmptyString) ++ String LF rest).
  { rewrite append_assoc. reflexivity. }
  rewrite E, read_content_step.
  - rewrite readStringUntil_line; [reflexivity|].
    rewrite newline_free_append, Hl. reflexivity.
  - destruct l; discriminate.
Qed.

Lemma line_entry_record (l : string) :
  is_record l = true -> line_entry (l ++ String CR EmptyString) = [l].
Proof.
  intros H. unfold line_entry. rewrite (trim_record_cr l H).
  destruct (is_record_inv l H) as (Hne & _). destruct l; [congruence | reflexivity].
Qed.

Lemma read_content_record (l rest : string) :
  is_record l = true -> read_content (l ++ CRLF ++ rest) = l :: read_content rest.
Proof.
  intros H. destruct (is_record_inv l H) as (_ & Hnl & _).
  now rewrite (read_content_line l rest Hnl), (line_entry_record l H).
Qed.

Lemma read_content_records_aux (n : nat) : forall s : string,
  (String.length s <= n)%nat -> Forall (fun l => is_record l = true) (read_content s).
Proof.
  induction n as [|n IH]; intros s Hs.
  - destruct s; [constructor | simpl in Hs; lia].
  - destruct s as [|c s]; [constructor|].
    rewrite read_content_step by discriminate.
    pose proof (readStringUntil_rest (String c s)) as R.
    pose proof (readStringUntil_newline_free (String c s)) as N.
    destruct (readStringUntil LF (String c s)) as [line rest].
    cbn [fst snd] in *. simpl in R, Hs.
    apply Forall_app. split; [|apply IH; lia].
    unfold line_entry. destruct (is_empty (trim line)) eqn:E; constructor; [|constructor].
    now apply trim_is_record.
Qed.

Lemma read_content_records (s : string) :
  Forall (fun l => is_record l = true) (read_content s).
Proof. apply (read_content_records_aux (String.length s)). lia. Qed.

Lemma file_of_app (a b : list string) : file_of (a ++ b) = file_of a ++ file_of b.
Proof.
  induction a as [|l a IH]; [reflexivity|].
  change (file_of ((l :: a) ++ b)) with (l ++ CRLF ++ file_of (a ++ b)).
  change (file_of (l :: a)) with (l ++ CRLF ++ file_of a).
  now rewrite IH, !append_assoc.
Qed.

Lemma read_content_file_of (ls : list string) (rest : string) :
  Forall (fun l => is_record l = true) ls ->
  read_content (file_of ls ++ rest) = (ls ++ read_content rest)%list.
Proof.
  induction 1 as [|l ls Hl _ IH]; [reflexivity|].
  change (file_of (l :: ls)) with (l ++ CRLF ++ file_of ls).
  rewrite !append_assoc. rewrite (read_content_record l _ Hl). now rewrite IH.
Qed.

Lemma entries_of_record (m : string) : is_record m = true -> entries_of m = [m].
Proof.
  intros H. unfold entries_of.
  replace (m ++ CRLF) with (m ++ CRLF ++ EmptyString) by now rewrite append_empty_r.
  now rewrite (read_content_record m EmptyString H).
Qed.

Lemma entries_of_newline_free (m : string) :
  newline_free m = true -> (List.length (entries_of m) <= 1)%nat.
Proof.
  intros H. unfold entries_of.
  replace (m ++ CRLF) with (m ++ CRLF ++ EmptyString) by now rewrite append_empty_r.
  rewrite (read_content_line m EmptyString H), read_content_empty, app_nil_r.
  unfold line_entry. destruct (is_empty _); simpl; lia.
Qed.

Lemma read_content_file_of_snoc (ls : list string) (m : string) :
  Forall (fun l => is_record l = true) ls ->
  read_content (file_of (ls ++ [m])) = (ls ++ entries_of m)%list.
Proof.
  intros H. rewrite file_of_app, (read_content_file_of ls _ H).
  change (file_of [m]) with (m ++ CRLF ++ EmptyString). now rewrite append_empty_r.
Qed.

(** ** LocalStorage *)

Lemma spiffs_run_println (ls : list string) : forall content : string,
  spiffs_run (mkSpiffs true (Some content)) (map Println ls)
  = mkSpiffs true (Some (content ++ file_of ls)).
Proof.
  unfold spiffs_run.
  induction ls as [|l ls IH]; intros content.
  - simpl. now rewrite append_empty_r.
  - cbn [map fold_left]. unfold spiffs_call at 2. cbn [mounted storage_file].
    rewrite IH. change (file_of (l :: ls)) with (l ++ CRLF ++ file_of ls).
    now rewrite !append_assoc.
Qed.

Lemma spiffs_run_app (fs : Spiffs) (a b : list SpiffsCall) :
  spiffs_run fs (a ++ b) = spiffs_run (spiffs_run fs a) b.
Proof. apply fold_left_app. Qed.

Lemma writeLines_mounted (fs : Spiffs) (ls : list string) :
  mounted fs = true ->
  writeLines fs ls = (true, mkSpiffs true (Some (file_of ls))).
Proof.
  intros Hm. unfold writeLines, writeLines_calls. rewrite Hm.
  change (OpenW :: (map Println ls ++ [Close])%list)
    with ([OpenW] ++ (map Println ls ++ [Close]))%list.
  rewrite !spiffs_run_app.
  assert (E : spiffs_run fs [OpenW] = mkSpiffs true (Some EmptyString)).
  { unfold spiffs_run, spiffs_call. simpl. now rewrite Hm. }
  rewrite E, spiffs_run_println. reflexivity.
Qed.

Lemma readLines_flash (fs : Spiffs) :
  readLines fs = if mounted fs then flash_entries fs else [].
Proof.
  unfold readLines, spiffs_exists, spiffs_open_r, flash_entries.
  destruct (mounted fs), (storage_file fs); reflexivity.
Qed.

Lemma flash_entries_records (fs : Spiffs) :
  Forall (fun l => is_record l = true) (flash_entries fs).
Proof.
  unfold flash_entries. destruct (storage_file fs); [apply read_content_records | constructor].
Qed.

Lemma readLines_records (fs : Spiffs) :
  Forall (fun l => is_record l = true) (readLines fs).
Proof.
  rewrite readLines_flash. destruct (mounted fs); [apply flash_entries_records | constructor].
Qed.

Lemma storeReading_full (st : LocalStorage) (m : string) :
  isFull st = true -> storeReading st m = (false, st).
Proof. intros H. unfold storeReading. now rewrite H. Qed.

Lemma storeReading_unmounted (st : LocalStorage) (m : string) :
  mounted (spiffs st) = false -> storeReading st m = (false, st).
Proof.
  intros H. unfold storeReading, writeLines. rewrite H.
  destruct (isFull st); [reflexivity|]. now destruct st.
Qed.

Lemma storeReading_stored (st : LocalStorage) (m : string) :
  isFull st = false -> mounted (spiffs st) = true ->
  storeReading st m
  = (true, mkLocalStorage (maxReadings st)
             (mkSpiffs true (Some (file_of (readLines (spiffs st) ++ [m]))))).
Proof.
  intros Hf Hm. unfold storeReading. rewrite Hf.
  now rewrite (writeLines_mounted _ _ Hm).
Qed.

Lemma storeReading_success (st : LocalStorage) (m : string) :
  fst (storeReading st m) = true ->
  isFull st = false /\ mounted (spiffs st) = true.
Proof.
  intros H. destruct (isFull st) eqn:Hf.
  - rewrite (storeReading_full _ _ Hf) in H. discriminate.
  - destruct (mounted (spiffs st)) eqn:Hm; [now split|].
    rewrite (storeReading_unmounted _ _ Hm) in H. discriminate.
Qed.

Lemma flash_entries_stored (ls : list string) (m : string) :
  Forall (fun l => is_record l = true) ls ->
  flash_entries (mkSpiffs true (Some (file_of (ls ++ [m])))) = (ls ++ entries_of m)%list.
Proof. intros H. unfold flash_entries. simpl. now apply read_content_file_of_snoc. Qed.

(** What the queue holds after a [storeReading], in every case. *)
Lemma readLines_storeReading (st : LocalStorage) (m : string) :
  readLines (spiffs (snd (storeReading st m)))
  = if fst (storeReading st m)
    then (readLines (spiffs st) ++ entries_of m)%list
    else readLines (spiffs st).
Proof.
  destruct (isFull st) eqn:Hf.
  - now rewrite (storeReading_full _ _ Hf).
  - destruct (mounted (spiffs st)) eqn:Hm.
    + rewrite (storeReading_stored _ _ Hf Hm). cbn [fst snd spiffs].
      rewrite (readLines_flash (mkSpiffs _ _)). cbn [mounted].
      apply flash_entries_stored, readLines_records.
    + now rewrite (storeReading_unmounted _ _ Hm).
Qed.

Lemma maxReadings_storeReading (st : LocalStorage) (m : string) :
  maxReadings (snd (storeReading st m)) = maxReadings st.
Proof.
  unfold storeReading. destruct (isFull st); [reflexivity|].
  destruct (writeLines _ _). reflexivity.
Qed.

Lemma mounted_storeReading (st : LocalStorage) (m : string) :
  mounted (spiffs (snd (storeReading st m))) = mounted (spiffs st).
Proof.
  destruct (isFull st) eqn:Hf.
  - now rewrite (storeReading_full _ _ Hf).
  - destruct (mounted (spiffs st)) eqn:Hm.
    + now rewrite (storeReading_stored _ _ Hf Hm).
    + now rewrite (storeReading_unmounted _ _ Hm).
Qed.

Lemma isFull_spec (st : LocalStorage) :
  isFull st = true <-> maxReadings st <= Z.of_nat (List.length (readLines (spiffs st))).
Proof. unfold isFull, getStoredCount. rewrite Z.geb_le. tauto. Qed.

Lemma isFull_false (st : LocalStorage) :
  isFull st = false <-> Z.of_nat (List.length (readLines (spiffs st))) < maxReadings st.
Proof.
  unfold isFull, getStoredCount. rewrite Z.geb_leb, Z.leb_gt. tauto.
Qed.

(** Storing records one after the other keeps the oldest [maxReadings]. *)
Lemma store_all_firstn (msgs : list string) : forall st : LocalStorage,
  mounted (spiffs st) = true ->
  0 <= maxReadings st ->
  Z.of_nat (List.length (readLines (spiffs st))) <= maxReadings st ->
  Forall (fun m => is_record m = true) msgs ->
  readLines (spiffs (snd (store_all st msgs)))
  = firstn (Z.to_nat (maxReadings st)) (readLines (spiffs st) ++ msgs).
Proof.
  induction msgs as [|m ms IH]; intros st Hm HC Hlen Hrec.
  - simpl. rewrite app_nil_r, firstn_all2; [reflexivity | lia].
  - inversion Hrec as [|? ? Hm1 Hms]; subst.
    cbn [store_all].
    pose proof (readLines_storeReading st m) as R.
    pose proof (maxReadings_storeReading st m) as M.
    pose proof (mounted_storeReading st m) as Mt.
    destruct (storeReading st m) as [ok st1] eqn:E. cbn [fst snd] in *.
    specialize (IH st1).
    destruct (store_all st1 ms) as [oks st2] eqn:E2. cbn [snd] in *.
    rewrite M, Mt in IH.
    destruct ok.
    + assert (Hf : isFull st = false).
      { apply (storeReading_success st m). now rewrite E. }
      apply isFull_false in Hf.
      rewrite (entries_of_record m Hm1) in R.
      rewrite IH; trivial.
      * rewrite R, <- app_assoc. reflexivity.
      * rewrite R, length_app. simpl. lia.
    + assert (Hf : isFull st = true).
      { destruct (isFull st) eqn:Hf; [reflexivity|].
        rewrite (storeReading_stored _ _ Hf Hm) in E. discriminate. }
      apply isFull_spec in Hf.
      rewrite IH; trivial; rewrite R; [|lia].
      rewrite !firstn_app.
      replace (Z.to_nat (maxReadings st) - List.length (readLines (spiffs st)))%nat
        with 0%nat by lia.
      reflexivity.
Qed.

(** ... and the stores succeed as long as there is room. *)
Lemma store_all_results (msgs : list string) : forall st : LocalStorage,
  mounted (spiffs st) = true ->
  Z.of_nat (List.length (readLines (spiffs st))) <= maxReadings st ->
  Forall (fun m => is_record m = true) msgs ->
  fst (store_all st msgs)
  = map (fun i => Z.of_nat (List.length (readLines (spiffs st)) + i) <? maxReadings st)
      (seq 0 (List.length msgs)).
Proof.
  induction msgs as [|m ms IH]; intros st Hm Hlen Hrec; [reflexivity|].
  inversion Hrec as [|? ? Hm1 Hms]; subst.
  cbn [store_all List.length seq map].
  pose proof (readLines_storeReading st m) as R.
  pose proof (maxReadings_storeReading st m) as M.
  pose proof (mounted_storeReading st m) as Mt.
  destruct (storeReading st m) as [ok st1] eqn:E. cbn [fst snd] in *.
  specialize (IH st1).
  destruct (store_all st1 ms) as [oks st2] eqn:E2. cbn [fst] in *.
  rewrite M, Mt in IH. rewrite <- seq_shift, map_map.
  destruct ok.
  - assert (Hf : isFull st = false).
    { apply (storeReading_success st m). now rewrite E. }
    apply isFull_false in Hf.
    rewrite (entries_of_record m Hm1) in R.
    rewrite IH; trivial; rewrite R, ?length_app; cbn [List.length]; [|lia].
    f_equal.
    + symmetry. apply Z.ltb_lt. lia.
    + apply map_ext. intros i. f_equal. lia.
  - assert (Hf : isFull st = true).
    { destruct (isFull st) eqn:Hf; [reflexivity|].
      rewrite (storeReading_stored _ _ Hf Hm) in E. discriminate. }
    apply isFull_spec in Hf.
    rewrite IH; trivial; rewrite R; [|lia].
    f_equal.
    + symmetry. apply Z.ltb_ge. lia.
    + apply map_ext. intros i.
      transitivity false; [apply Z.ltb_ge | symmetry; apply Z.ltb_ge]; lia.
Qed.


Lemma getStoredCount_flash (st : LocalStorage) :
  getStoredCount st <= Z.of_nat (List.length (flash_entries (spiffs st))).
Proof.
  unfold getStoredCount. rewrite readLines_flash.
  destruct (mounted (spiffs st)); simpl; lia.
Qed.

(** One operation keeps the number of entries in flash within the capacity. *)
Lemma storage_step_bound (st : LocalStorage) (op : StorageOp) :
  0 <= maxReadings st ->
  Z.of_nat (List.length (flash_entries (spiffs st))) <= maxReadings st ->
  single_line_op op = true ->
  maxReadings (storage_step st op) = maxReadings st /\
  Z.of_nat (List.length (flash_entries (spiffs (storage_step st op)))) <= maxReadings st.
Proof.
  intros HC Hlen Hop. destruct op as [o|m| | | |]; cbn [storage_step]; auto.
  - destruct o; simpl; auto.
  - split; [apply maxReadings_storeReading|].
    destruct (isFull st) eqn:Hf.
    + now rewrite (storeReading_full _ _ Hf).
    + destruct (mounted (spiffs st)) eqn:Hm.
      * rewrite (storeReading_stored _ _ Hf Hm). cbn [snd spiffs].
        rewrite flash_entries_stored by apply readLines_records.
        apply isFull_false in Hf.
        pose proof (entries_of_newline_free m Hop).
        rewrite length_app. lia.
      * now rewrite (storeReading_unmounted _ _ Hm).
  - unfold clearReadings, spiffs_remove, spiffs_exists, spiffs_call.
    destruct (mounted (spiffs st)) eqn:Hm; simpl.
    + destruct (storage_file (spiffs st)); simpl; auto.
    + auto.
Qed.

Lemma maxReadings_storage_step (st : LocalStorage) (op : StorageOp) :
  maxReadings (storage_step st op) = maxReadings st.
Proof.
  destruct op as [o|m| | | |]; cbn [storage_step]; trivial.
  - destruct o; reflexivity.
  - apply maxReadings_storeReading.
  - unfold clearReadings. destruct (spiffs_remove (spiffs st)) as [[|] fs']; reflexivity.
Qed.

Lemma maxReadings_storage_run (ops : list StorageOp) : forall st : LocalStorage,
  maxReadings (storage_run st ops) = maxReadings st.
Proof.
  induction ops as [|op ops IH]; intros st; [reflexivity|].
  cbn [storage_run fold_left]. fold (storage_run (storage_step st op) ops).
  now rewrite IH, maxReadings_storage_step.
Qed.

Lemma storage_run_bound (ops : list StorageOp) : forall st : LocalStorage,
  0 <= maxReadings st ->
  Z.of_nat (List.length (flash_entries (spiffs st))) <= maxReadings st ->
  forallb single_line_op ops = true ->
  maxReadings (storage_run st ops) = maxReadings st /\
  Z.of_nat (List.length (flash_entries (spiffs (storage_run st ops)))) <= maxReadings st.
Proof.
  induction ops as [|op ops IH]; intros st HC Hlen Hops; [simpl; auto|].
  simpl in Hops. apply andb_true_iff in Hops as [Hop Hops].
  destruct (storage_step_bound st op HC Hlen Hop) as [M L].
  cbn [storage_run fold_left]. fold (storage_run (storage_step st op) ops).
  destruct (IH (storage_step st op)) as [M' L']; try rewrite M; trivial.
  rewrite M in *. auto.
Qed.

(** ** Power loss *)


Lemma readStringUntil_no_terminator (l : string) :
  newline_free l = true -> readStringUntil LF l = (l, EmptyString).
Proof.
  induction l as [|c l IH]; simpl; intros H; [reflexivity|].
  apply andb_true_iff in H as [H1 H2]. apply negb_true_iff in H1.
  now rewrite H1, (IH H2).
Qed.










(** ** The offline queue: capacity, peek, clear, round trip *)

(** C3, as the code has it.  From an empty queue of capacity [C]: while the
    messages stored are single lines the entry count never exceeds [C];
    in a state whose count is at least [C], [storeReading] fails and leaves
    the state as it is; and storing any number of records (non-blank single
    lines without blanks at either end, as [createMessage] builds them)
    leaves the first [C] of them, in their order, the first [C] stores
    succeeding and the later ones failing. *)
Theorem storeReading_bounded_drop_newest
  (C : Z) (st0 : LocalStorage) (ops : list StorageOp)
  (msgs : list string) (m : string) :
  0 <= C ->
  maxReadings st0 = C ->
  flash_entries (spiffs st0) = [] ->
  (forallb single_line_op ops = true ->
   getStoredCount (storage_run st0 ops) <= C) /\
  (C <= getStoredCount (storage_run st0 ops) ->
   storeReading (storage_run st0 ops) m = (false, storage_run st0 ops)) /\
  (mounted (spiffs st0) = true ->
   Forall (fun x => is_record x = true) msgs ->
   fst (getAllReadings (snd (store_all st0 msgs))) = firstn (Z.to_nat C) msgs /\
   fst (store_all st0 msgs)
   = map (fun i => Z.of_nat i <? C) (seq 0 (List.length msgs))).
Proof.
  intros HC HM He. split; [|split].
  - intros Hops.
    destruct (storage_run_bound ops st0) as [_ L]; rewrite ?HM, ?He; simpl; trivial.
    pose proof (getStoredCount_flash (storage_run st0 ops)). lia.
  - intros Hfull. apply storeReading_full.
    unfold isFull. rewrite maxReadings_storage_run, HM. apply Z.geb_le. lia.
  - intros Hm Hrec. cbn [getAllReadings fst].
    assert (R : readLines (spiffs st0) = []).
    { rewrite readLines_flash, Hm. exact He. }
    split.
    + rewrite store_all_firstn; trivial; rewrite ?HM, ?R; simpl; trivial.
    + rewrite store_all_results; trivial; rewrite ?HM, ?R; simpl; trivial.
Qed.

Lemma storeReading_bounded_drop_newest_witness :
  let st0 := mkLocalStorage 2 (mkSpiffs true None) in
  let ops := [OpStoreReading "a"; OpStoreReading "b"] in
  getStoredCount (storage_run st0 ops) <= 2 /\
  storeReading (storage_run st0 ops) "c" = (false, storage_run st0 ops) /\
  fst (getAllReadings (snd (store_all st0 ["a"; "b"; "c"]))) = ["a"; "b"] /\
  fst (store_all st0 ["a"; "b"; "c"]) = [true; true; false].
Proof.
  intros st0 ops.
  destruct (storeReading_bounded_drop_newest 2 st0 ops ["a"; "b"; "c"] "c")
    as (A & B & D); [lia | reflexivity | reflexivity |].
  split; [apply A; reflexivity|].
  split; [apply B; vm_compute; discriminate|].
  apply D; [reflexivity|]. repeat constructor.
Defined.

(** C3 as stated fails: with capacity 1, a message of two lines is read
    back as two entries; and a blank message is accepted without leaving
    an entry, so that of two messages the second one is the one kept. *)
Lemma storeReading_capacity_counterexample :
  let st0 := mkLocalStorage 1 (mkSpiffs true None) in
  flash_entries (spiffs st0) = [] /\
  getStoredCount (storage_run st0 [OpStoreReading two_line_message]) = 2 /\
  fst (store_all st0 [EmptyString; "b"]) = [true; true] /\
  fst (getAllReadings (snd (store_all st0 [EmptyString; "b"]))) = ["b"] /\
  fst (getAllReadings (snd (store_all st0 [EmptyString; "b"]))) <> firstn 1 [EmptyString; "b"].
Proof. vm_compute. repeat split; discriminate. Qed.

(** C7.  [getAllReadings] returns the entries and leaves the storage as it
    is; a message that [storeReading] accepts goes behind the entries
    already held, so that records come back oldest first; after
    [clearReadings] no entry is left; and no operation of the interface
    takes away part of the entries: afterwards the queue is empty or
    still starts with all the entries it had. *)
Theorem getAllReadings_peek_clearReadings_all
  (st : LocalStorage) (op : StorageOp) (m : string) (msgs : list string) :
  snd (getAllReadings st) = st /\
  fst (getAllReadings (snd (getAllReadings st))) = fst (getAllReadings st) /\
  fst (getAllReadings (snd (storeReading st m)))
  = (if fst (storeReading st m)
     then (fst (getAllReadings st) ++ entries_of m)%list
     else fst (getAllReadings st)) /\
  (mounted (spiffs st) = true ->
   Z.of_nat (List.length (fst (getAllReadings st)) + List.length msgs)
     <= maxReadings st ->
   Forall (fun x => is_record x = true) msgs ->
   fst (getAllReadings (snd (store_all st msgs)))
   = (fst (getAllReadings st) ++ msgs)%list) /\
  fst (getAllReadings (snd (clearReadings st))) = [] /\
  (fst (getAllReadings (storage_step st op)) = [] \/
   exists extra, fst (getAllReadings (storage_step st op))
                 = (fst (getAllReadings st) ++ extra)%list).
Proof.
  cbn [getAllReadings fst snd].
  split; [reflexivity|]. split; [reflexivity|].
  split; [apply readLines_storeReading|].
  split.
  { intros Hm Hlen Hrec.
    rewrite store_all_firstn; trivial; try lia.
    apply firstn_all2. rewrite length_app. lia. }
  assert (Hclear : readLines (spiffs (snd (clearReadings st))) = []).
  { unfold clearReadings, spiffs_remove, spiffs_call.
    rewrite !readLines_flash. unfold spiffs_exists, flash_entries.
    destruct (mounted (spiffs st)) eqn:Hm; simpl; rewrite ?Hm; [|reflexivity].
    destruct (storage_file (spiffs st)) eqn:Hf; simpl; rewrite ?Hm, ?Hf; reflexivity. }
  split; [exact Hclear|].
  destruct op as [o|m'| | | |]; cbn [storage_step getAllReadings snd].
  - rewrite !readLines_flash. destruct o; simpl.
    + right. destruct (mounted (spiffs st)).
      * exists []. now rewrite app_nil_r.
      * exists (flash_entries (mkSpiffs true (storage_file (spiffs st)))). reflexivity.
    + left. reflexivity.
    + left. reflexivity.
  - right. rewrite readLines_storeReading.
    destruct (fst (storeReading st m')); [now exists (entries_of m')|].
    exists []. now rewrite app_nil_r.
  - right. exists []. now rewrite app_nil_r.
  - right. exists []. now rewrite app_nil_r.
  - left. exact Hclear.
  - right. exists []. now rewrite app_nil_r.
Qed.

Lemma getAllReadings_peek_clearReadings_all_witness :
  let st := snd (storeReading (LocalStorage_new (mkSpiffs true None)) "r1") in
  fst (getAllReadings st) = ["r1"] /\
  snd (getAllReadings st) = st /\
  fst (getAllReadings (snd (store_all st ["r2"; "r3"]))) = ["r1"; "r2"; "r3"] /\
  fst (getAllReadings (snd (clearReadings st))) = [].
Proof.
  intros st.
  destruct (getAllReadings_peek_clearReadings_all st OpClearReadings "r2" ["r2"; "r3"])
    as (A & _ & _ & D & E & _).
  split; [reflexivity|]. split; [exact A|]. split; [|exact E].
  apply D; [reflexivity | vm_compute; discriminate | repeat constructor].
Defined.

(** C8, as the code has it.  A record (a non-blank single line without
    blanks at either end) that [storeReading] accepts comes back from
    [getAllReadings] byte for byte, behind the entries held before. *)
Theorem storeReading_getAllReadings_verbatim (st : LocalStorage) (m : string) :
  is_record m = true ->
  fst (storeReading st m) = true ->
  fst (getAllReadings (snd (storeReading st m)))
  = (fst (getAllReadings st) ++ [m])%list.
Proof.
  intros Hrec Hok. cbn [getAllReadings fst].
  now rewrite readLines_storeReading, Hok, (entries_of_record m Hrec).
Qed.

Lemma storeReading_getAllReadings_verbatim_witness :
  let st := snd (storeReading (LocalStorage_new (mkSpiffs true None)) "{}") in
  fst (getAllReadings (snd (storeReading st "{k:1}")))
  = ["{}"; "{k:1}"].
Proof.
  intros st.
  apply (storeReading_getAllReadings_verbatim st); reflexivity.
Defined.

(** C8 as stated fails: a message without LF that starts with a blank is
    accepted, and comes back without the blank. *)
Lemma storeReading_trims_counterexample :
  let st0 := LocalStorage_new (mkSpiffs true None) in
  newline_free padded_message = true /\
  fst (storeReading st0 padded_message) = true /\
  fst (getAllReadings (snd (storeReading st0 padded_message))) = ["x"] /\
  fst (getAllReadings (snd (storeReading st0 padded_message)))
  <> (fst (getAllReadings st0) ++ [padded_message])%list.
Proof. vm_compute. repeat split; discriminate. Qed.




(** ** MQTTClientManager *)

Lemma int32_wrap_small (z : Z) : - 2 ^ 31 <= z < 2 ^ 31 -> int32_wrap z = z.
Proof. intros H. unfold int32_wrap. rewrite Z.mod_small; lia. Qed.

Lemma getBackoffDelay_pow (k : Z) :
  0 <= k <= 20 -> getBackoffDelay k = RETRY_DELAY_BASE_MS * 2 ^ k.
Proof.
  intros Hk. unfold getBackoffDelay, uint32_wrap, RETRY_DELAY_BASE_MS.
  rewrite Z.shiftl_1_l.
  assert (B : 0 < 2 ^ k <= 2 ^ 20).
  { split; [apply Z.pow_pos_nonneg; lia | apply Z.pow_le_mono_r; lia]. }
  change (2 ^ 20) with 1048576 in B.
  rewrite (int32_wrap_small (2 ^ k)) by (change (2 ^ 31) with 2147483648; lia).
  rewrite int32_wrap_small by (change (2 ^ 31) with 2147483648; lia).
  apply Z.mod_small. change (2 ^ 32) with 4294967296. lia.
Qed.

Lemma acks_app (a b : list Event) : acks (a ++ b) = (acks a ++ acks b)%list.
Proof.
  induction a as [|e a IH]; [reflexivity|].
  destruct e; simpl; now rewrite IH.
Qed.

Lemma timeline_app (a b : list Event) :
  timeline (a ++ b) = (timeline a ++ timeline b)%list.
Proof.
  induction a as [|e a IH]; [reflexivity|].
  destruct e; simpl; now rewrite IH.
Qed.

Lemma retry_timeline_snoc (n : nat) : forall k : Z,
  retry_timeline k (S n)
  = (retry_timeline k n
       ++ [Some (RETRY_DELAY_BASE_MS * 2 ^ (k + Z.of_nat n)); None])%list.
Proof.
  induction n as [|n IH]; intros k.
  - simpl. now rewrite Z.add_0_r.
  - change (retry_timeline k (S (S n)))
      with (Some (RETRY_DELAY_BASE_MS * 2 ^ k) :: None :: retry_timeline (k + 1) (S n)).
    rewrite IH. simpl retry_timeline at 2.
    replace (k + 1 + Z.of_nat n) with (k + Z.of_nat (S n)) by lia.
    reflexivity.
Qed.

Section MQTTClientManagerFacts.
Context {W : Type} {client : PubSubClient W}.

Lemma quiet_step_refl (st : MQTTClientManager W) : quiet_step st st.
Proof. split; [reflexivity|]. exists []. now rewrite app_nil_r. Qed.

Lemma quiet_step_trans (a b c : MQTTClientManager W) :
  quiet_step a b -> quiet_step b c -> quiet_step a c.
Proof.
  intros [L1 (e1 & E1 & A1 & T1)] [L2 (e2 & E2 & A2 & T2)].
  split; [congruence|]. exists (e1 ++ e2)%list.
  rewrite E2, E1, <- app_assoc, acks_app, timeline_app, A1, A2, T1, T2.
  auto.
Qed.

Lemma isConnected_quiet (st : MQTTClientManager W) :
  quiet_step st (snd (isConnected st)).
Proof.
  unfold isConnected. destruct (pc_connected (mqttClient st)) as [c w].
  split; [reflexivity|]. exists []. cbn. now rewrite app_nil_r.
Qed.

Lemma connect_quiet (st : MQTTClientManager W) :
  quiet_step st (snd (connect st)).
Proof.
  unfold connect. destruct (pc_connected (mqttClient st)) as [c w1].
  destruct c; [split; [reflexivity|]; exists []; cbn; now rewrite app_nil_r|].
  destruct (pc_connect (deviceId st) w1) as [ok w2].
  destruct ok.
  - destruct (pc_subscribe (subscribeTopic st) w2) as [sub w3].
    split; [reflexivity|]. now exists [EvConnect true].
  - split; [reflexivity|]. now exists [EvConnect false].
Qed.

(** The retry prelude of round [attempt >= 1]: the retry count is set, and
    the one delay of the round is [getBackoffDelay attempt]. *)
Lemma retry_prelude_spec (attempt : Z) (st : MQTTClientManager W) :
  1 <= attempt ->
  lastRetryCount (retry_prelude attempt st) = attempt /\
  exists evs, events (retry_prelude attempt st) = (events st ++ evs)%list /\
              acks evs = [] /\ timeline evs = [Some (getBackoffDelay attempt)].
Proof.
  intros Ha. unfold retry_prelude.
  destruct (0 <? attempt) eqn:E; [|apply Z.ltb_ge in E; lia].
  set (st1 := emit _ _).
  assert (Q : quiet_step st1
                (let (c, st2) := isConnected st1 in
                 if negb c then snd (connect st2) else st2)).
  { pose proof (isConnected_quiet st1) as Q1.
    destruct (isConnected st1) as [c st2]. cbn [snd] in Q1.
    destruct c; cbn [negb]; [exact Q1|].
    eapply quiet_step_trans; [exact Q1 | apply connect_quiet]. }
  destruct (isConnected st1) as [c st2].
  destruct Q as [L (evs & Ev & A & T)].
  split.
  - rewrite L. reflexivity.
  - exists (EvDelay (getBackoffDelay attempt) :: evs). rewrite Ev.
    subst st1. cbn [emit events with_client with_retry_count].
    rewrite <- app_assoc. cbn [acks timeline]. rewrite A, T. auto.
Qed.

(** The rounds of the loop from retry [attempt >= 1] on.  [n] rounds ran;
    on success the last try of the [n] is the only acknowledged one, on
    failure all [rounds] ran. *)
Lemma publish_loop_spec (message : string) (rounds : nat) :
  forall (attempt : Z) (st : MQTTClientManager W),
    1 <= attempt ->
    (Z.of_nat rounds + attempt <= 21) ->
    let r := publish_loop rounds attempt message st in
    exists (evs : list Event) (n : nat),
      events (snd r) = (events st ++ evs)%list /\
      timeline evs = retry_timeline attempt n /\
      (n <= rounds)%nat /\
      if fst r
      then exists n', n = S n' /\ acks evs = (repeat false n' ++ [true])%list /\
                      lastRetryCount (snd r) = attempt + Z.of_nat n'
      else n = rounds /\ acks evs = repeat false rounds /\
           lastRetryCount (snd r)
           = match rounds with
             | O => lastRetryCount st
             | S p => attempt + Z.of_nat p
             end.
Proof.
  induction rounds as [|rounds IH]; intros attempt st Ha Hb r; subst r.
  - exists [], 0%nat. cbn. rewrite app_nil_r. repeat split; auto.
  - cbn [publish_loop].
    destruct (retry_prelude_spec attempt st Ha) as (L & ev1 & E1 & A1 & T1).
    rewrite getBackoffDelay_pow in T1 by lia.
    set (st1 := retry_prelude attempt st) in *.
    destruct (pc_publish (publishTopic st1) message (mqttClient st1)) as [ack w].
    set (st2 := emit _ _).
    assert (E2 : events st2
                 = (events st ++ ev1 ++ [EvPublish (publishTopic st1) message ack])%list).
    { subst st2. cbn [emit events with_client]. now rewrite E1, <- app_assoc. }
    assert (L2 : lastRetryCount st2 = attempt) by exact L.
    destruct ack.
    + exists (ev1 ++ [EvPublish (publishTopic st1) message true])%list, 1%nat.
      cbn [fst snd]. rewrite E2, timeline_app, acks_app, T1, A1. cbn.
      repeat split; try lia.
      exists 0%nat. cbn. rewrite Z.add_0_r. auto.
    + specialize (IH (attempt + 1) st2 ltac:(lia) ltac:(lia)). cbn zeta in IH.
      destruct IH as (evs & n & E & T & Hn & Hres).
      exists ((ev1 ++ [EvPublish (publishTopic st1) message false]) ++ evs)%list, (S n).
      rewrite E, E2, !timeline_app, !acks_app, T1, A1, T, <- !app_assoc.
      cbn [timeline acks app retry_timeline].
      repeat split; try lia.
      destruct (fst (publish_loop rounds (attempt + 1) message st2)).
      * destruct Hres as (n' & -> & A & Lr).
        exists (S n'). rewrite A, Lr. cbn [repeat app].
        repeat split; trivial. lia.
      * destruct Hres as (-> & A & Lr). rewrite A, Lr.
        repeat split; trivial.
        destruct rounds; [rewrite L2; cbn; lia | lia].
Qed.

Lemma publishWithRetry_spec (message : string) (maxRetries : Z)
  (st : MQTTClientManager W) :
  0 <= maxRetries <= 20 ->
  let r := publishWithRetry message maxRetries st in
  exists evs : list Event,
    events (snd r) = (events st ++ evs)%list /\
    timeline evs = publish_timeline (tries evs) /\
    Z.of_nat (tries evs) <= maxRetries + 1 /\
    if fst r
    then exists n, Z.of_nat n <= maxRetries /\
                   acks evs = (repeat false n ++ [true])%list /\
                   lastRetryCount (snd r) = Z.of_nat n
    else acks evs = repeat false (Z.to_nat (maxRetries + 1)) /\
         lastRetryCount (snd r) = maxRetries.
Proof.
  intros Hm r. subst r. unfold publishWithRetry.
  replace (Z.to_nat (maxRetries + 1)) with (S (Z.to_nat maxRetries)) by lia.
  set (st0 := with_retry_count st 0).
  cbn [publish_loop]. unfold retry_prelude. cbn [Z.ltb Z.compare].
  destruct (pc_publish (publishTopic st0) message (mqttClient st0)) as [ack w].
  set (st1 := emit _ _).
  assert (E1 : events st1 = (events st ++ [EvPublish (publishTopic st0) message ack])%list)
    by reflexivity.
  destruct ack.
  - exists [EvPublish (publishTopic st0) message true]. cbn.
    repeat split; trivial; try lia.
    exists 0%nat. cbn. repeat split; trivial; lia.
  - destruct (publish_loop_spec message (Z.to_nat maxRetries) 1 st1)
      as (evs & n & E & T & Hn & Hres); [lia | lia |].
    exists (EvPublish (publishTopic st0) message false :: evs).
    change (0 + 1) with 1.
    rewrite E, E1, <- app_assoc. cbn [app].
    assert (Hlen : tries evs = n).
    { unfold tries.
      destruct (fst (publish_loop (Z.to_nat maxRetries) 1 message st1)).
      - destruct Hres as (n' & -> & A & _).
        rewrite A, length_app, repeat_length. simpl. lia.
      - destruct Hres as (-> & A & _). now rewrite A, repeat_length. }
    split; [reflexivity|].
    split.
    { unfold tries in *. cbn [acks timeline List.length]. rewrite Hlen, T. reflexivity. }
    split.
    { unfold tries in *. cbn [acks List.length]. lia. }
    destruct (fst (publish_loop (Z.to_nat maxRetries) 1 message st1)).
    + destruct Hres as (n' & -> & A & L).
      exists (S n'). cbn [acks]. rewrite A, L. cbn [repeat app].
      repeat split; trivial; lia.
    + destruct Hres as (-> & A & L). cbn [acks]. rewrite A, L.
      split; [reflexivity|].
      destruct (Z.to_nat maxRetries) eqn:En; [cbn; lia | lia].
Qed.

(** [publish] as a whole. *)
Lemma publish_spec (message : string) (st : MQTTClientManager W) :
  let r := publish message st in
  exists evs : list Event,
    events (snd r) = (events st ++ evs)%list /\
    timeline evs = publish_timeline (tries evs) /\
    Z.of_nat (tries evs) <= MAX_RETRIES + 1 /\
    if link_up st
    then if fst r
         then exists n, Z.of_nat n <= MAX_RETRIES /\
                        acks evs = (repeat false n ++ [true])%list /\
                        lastRetryCount (snd r) = Z.of_nat n
         else acks evs = repeat false (Z.to_nat (MAX_RETRIES + 1)) /\
              lastRetryCount (snd r) = MAX_RETRIES
    else fst r = false /\ acks evs = [] /\
         lastRetryCount (snd r) = lastRetryCount st.
Proof.
  intros r. subst r. unfold publish, link_up.
  pose proof (isConnected_quiet st) as Q1.
  destruct (isConnected st) as [c st1]. cbn [snd] in Q1.
  assert (Hretry : forall st2, quiet_step st st2 ->
    let r := publishWithRetry message MAX_RETRIES st2 in
    exists evs : list Event,
      events (snd r) = (events st ++ evs)%list /\
      timeline evs = publish_timeline (tries evs) /\
      Z.of_nat (tries evs) <= MAX_RETRIES + 1 /\
      if fst r
      then exists n, Z.of_nat n <= MAX_RETRIES /\
                     acks evs = (repeat false n ++ [true])%list /\
                     lastRetryCount (snd r) = Z.of_nat n
      else acks evs = repeat false (Z.to_nat (MAX_RETRIES + 1)) /\
           lastRetryCount (snd r) = MAX_RETRIES).
  { intros st2 [_ (e0 & E0 & A0 & T0)] r.
    destruct (publishWithRetry_spec message MAX_RETRIES st2) as (evs & E & T & Hn & Hres);
      [unfold MAX_RETRIES; lia|].
    exists (e0 ++ evs)%list. subst r.
    unfold tries in *. rewrite E, E0, <- app_assoc, timeline_app, acks_app, A0, T0.
    cbn [app]. auto. }
  destruct c; cbn [negb].
  - apply Hretry, Q1.
  - pose proof (connect_quiet st1) as Q2.
    destruct (connect st1) as [ok st2]. cbn [fst snd] in *.
    pose proof (quiet_step_trans _ _ _ Q1 Q2) as Q.
    destruct ok; cbn [negb].
    + apply Hretry, Q.
    + destruct Q as [L (e0 & E0 & A0 & T0)].
      exists e0. cbn [fst snd]. unfold tries. rewrite A0, T0. cbn.
      repeat split; trivial. unfold MAX_RETRIES. lia.
Qed.

End MQTTClientManagerFacts.

(** C4.  In every world, the events of one call of [publish] hold at most
    [MAX_RETRIES + 1] delivery tries, and they follow [publish_timeline]:
    the first try at once, and before the [k]-th retry ([k] = 1, 2, ...) a
    delay of [RETRY_DELAY_BASE_MS * 2^k], which is what [getBackoffDelay]
    returns for every retry there can be. *)
Theorem publish_tries_bounded_backoff_doubles
  (W : Type) (client : PubSubClient W) (message : string)
  (st : MQTTClientManager W) :
  (exists evs : list Event,
     events (snd (publish message st)) = (events st ++ evs)%list /\
     Z.of_nat (tries evs) <= MAX_RETRIES + 1 /\
     timeline evs = publish_timeline (tries evs)) /\
  Forall (fun k => getBackoffDelay k = RETRY_DELAY_BASE_MS * 2 ^ k) [1; 2; 3] /\
  publish_timeline (Z.to_nat (MAX_RETRIES + 1))
  = [None; Some (RETRY_DELAY_BASE_MS * 2 ^ 1); None;
     Some (RETRY_DELAY_BASE_MS * 2 ^ 2); None;
     Some (RETRY_DELAY_BASE_MS * 2 ^ 3); None].
Proof.
  split.
  - destruct (publish_spec message st) as (evs & E & T & Hn & _).
    exists evs. auto.
  - split; [|reflexivity].
    repeat constructor.
Qed.

(** C5, as the code has it.  [publish] returns success exactly when a
    delivery try is acknowledged.  When the client is connected or the one
    [connect] of [publish] succeeds: on success the acknowledged try is the
    last one made, and [getLastRetryCount] is the number of tries that
    failed before it; failure comes after [MAX_RETRIES + 1] failed tries,
    with [getLastRetryCount = MAX_RETRIES].  When the client is not
    connected and [connect] fails, [publish] returns failure without a
    delivery try and leaves [getLastRetryCount] as it was. *)
Theorem publish_result_and_retry_count
  (W : Type) (client : PubSubClient W) (message : string)
  (st : MQTTClientManager W) :
  exists evs : list Event,
    events (snd (publish message st)) = (events st ++ evs)%list /\
    (fst (publish message st) = true <-> In true (acks evs)) /\
    if link_up st
    then if fst (publish message st)
         then exists n, Z.of_nat n <= MAX_RETRIES /\
                        acks evs = (repeat false n ++ [true])%list /\
                        getLastRetryCount (snd (publish message st)) = Z.of_nat n
         else acks evs = repeat false (Z.to_nat (MAX_RETRIES + 1)) /\
              getLastRetryCount (snd (publish message st)) = MAX_RETRIES
    else fst (publish message st) = false /\ acks evs = [] /\
         getLastRetryCount (snd (publish message st)) = getLastRetryCount st.
Proof.
  destruct (publish_spec message st) as (evs & E & _ & _ & H).
  exists evs. split; [exact E|]. split; [|exact H].
  destruct (link_up st).
  - destruct (fst (publish message st)).
    + destruct H as (n & _ & A & _). rewrite A.
      split; [intros _; apply in_or_app; right; now left | reflexivity].
    + destruct H as (A & _). rewrite A.
      split; [discriminate|]. intros Hin. apply repeat_spec in Hin. discriminate.
  - destruct H as (R & A & _). rewrite R, A.
    split; [discriminate | intros []].
Qed.

Lemma publish_result_and_retry_count_witness :
  let st := snd (mqtt_begin "F1" "D1" (MQTTClientManager_new [false; false; true])) in
  fst (publish (client := Scripted) "m" st) = true /\
  acks (events (snd (publish (client := Scripted) "m" st))) = [false; false; true] /\
  getLastRetryCount (snd (publish (client := Scripted) "m" st)) = 2.
Proof.
  intros st.
  destruct (publish_result_and_retry_count (list bool) Scripted "m" st)
    as (evs & E & Hiff & H).
  split; [reflexivity|]. split; [reflexivity|].
  change (link_up (client := Scripted) st) with true in H.
  change (fst (publish (client := Scripted) "m" st)) with true in H.
  destruct H as (n & Hn & A & L).
  assert (Hn2 : n = 2%nat).
  { assert (Hacks : acks (events (snd (publish (client := Scripted) "m" st)))
                    = [false; false; true]) by reflexivity.
    rewrite E, acks_app, A in Hacks.
    change (acks (events st)) with (@nil bool) in Hacks.
    apply (f_equal (@List.length bool)) in Hacks.
    rewrite !length_app, repeat_length in Hacks. simpl in Hacks. lia. }
  rewrite L, Hn2. reflexivity.
Defined.

(** C5 as stated fails: offline, with a [connect] that fails, [publish]
    returns failure without having made a single delivery try, and the
    retry count of a new manager is 0, not [MAX_RETRIES]. *)
Lemma publish_offline_counterexample :
  let st := snd (mqtt_begin "F1" "D1" (MQTTClientManager_new tt)) in
  fst (publish (client := Offline) "m" st) = false /\
  tries (events (snd (publish (client := Offline) "m" st))) = 0%nat /\
  Z.of_nat (tries (events (snd (publish (client := Offline) "m" st)))) <> MAX_RETRIES + 1 /\
  getLastRetryCount (snd (publish (client := Offline) "m" st)) = 0 /\
  getLastRetryCount (snd (publish (client := Offline) "m" st)) <> MAX_RETRIES.
Proof. vm_compute. repeat split; discriminate. Qed.

(** Four tries that fail, with [MAX_RETRIES = 3]: the delays are 4000, 8000
    and 16000 ms. *)
Example publish_scripted_timeline :
  let st := snd (mqtt_begin "F1" "D1" (MQTTClientManager_new [false; false; false; false])) in
  fst (publish (client := Scripted) "m" st) = false /\
  timeline (events (snd (publish (client := Scripted) "m" st)))
  = [None; Some 4000; None; Some 8000; None; Some 16000; None] /\
  getLastRetryCount (snd (publish (client := Scripted) "m" st)) = 3.
Proof. vm_compute. auto. Qed.

(** ** Floating point: no NaN out of the arithmetic used *)

Lemma shr_1_nonneg (mrs : shr_record) : 0 <= shr_m mrs -> 0 <= shr_m (shr_1 mrs).
Proof.
  destruct mrs as [m r s]. simpl.
  destruct m as [|[p|p|]|[p|p|]]; simpl; lia.
Qed.

Lemma iter_pos_shr_1_nonneg (p : positive) : forall mrs : shr_record,
  0 <= shr_m mrs -> 0 <= shr_m (iter_pos shr_1 p mrs).
Proof.
  induction p as [p IH|p IH|]; intros mrs H; simpl.
  - apply IH, IH, shr_1_nonneg, H.
  - apply IH, IH, H.
  - apply shr_1_nonneg, H.
Qed.

Lemma shr_fexp_nonneg (prec emax m e : Z) (l : location) :
  0 <= m -> 0 <= shr_m (fst (shr_fexp prec emax m e l)).
Proof.
  intros H. unfold shr_fexp, shr.
  assert (H0 : 0 <= shr_m (shr_record_of_loc m l)).
  { destruct l as [|[ | | ]]; exact H. }
  destruct (fexp prec emax (Zdigits2 m + e) - e); simpl; trivial.
  now apply iter_pos_shr_1_nonneg.
Qed.

Lemma round_nearest_even_nonneg (m : Z) (l : location) :
  0 <= m -> 0 <= round_nearest_even m l.
Proof.
  intros H. destruct l as [|[ | | ]]; simpl; try lia.
  destruct (Z.even m); lia.
Qed.

Lemma binary_round_aux_not_nan (prec emax : Z) (s : bool) (m e : Z) (l : location) :
  0 <= m -> is_nan (binary_round_aux prec emax s m e l) = false.
Proof.
  intros H. unfold binary_round_aux.
  pose proof (shr_fexp_nonneg prec emax m e l H) as H1.
  destruct (shr_fexp prec emax m e l) as [mrs' e']. cbn [fst] in H1.
  pose proof (round_nearest_even_nonneg _ (loc_of_shr_record mrs') H1) as H2.
  pose proof (shr_fexp_nonneg prec emax _ e' loc_Exact H2) as H3.
  destruct (shr_fexp prec emax _ e' loc_Exact) as [mrs'' e'']. cbn [fst] in H3.
  destruct (shr_m mrs'') as [|p|p]; [reflexivity | | lia].
  destruct (e'' <=? emax - prec); reflexivity.
Qed.

Lemma binary_round_not_nan (prec emax : Z) (s : bool) (m : positive) (e : Z) :
  is_nan (binary_round prec emax s m e) = false.
Proof.
  unfold binary_round. destruct (shl_align _ _ _) as [mz ez].
  apply binary_round_aux_not_nan. lia.
Qed.

Lemma binary_normalize_not_nan (prec emax m e : Z) (szero : bool) :
  is_nan (binary_normalize prec emax m e szero) = false.
Proof. destruct m; simpl; [reflexivity | | ]; apply binary_round_not_nan. Qed.

Lemma float_of_Z_not_nan (z : Z) : is_nan (float_of_Z z) = false.
Proof. apply binary_normalize_not_nan. Qed.

Lemma float_to_double_not_nan (x : spec_float) :
  is_nan x = false -> is_nan (float_to_double x) = false.
Proof. destruct x; simpl; trivial. intros _. apply binary_round_not_nan. Qed.

Lemma double_to_float_not_nan (x : spec_float) :
  is_nan x = false -> is_nan (double_to_float x) = false.
Proof. destruct x; simpl; trivial. intros _. apply binary_round_not_nan. Qed.

Lemma SFdiv_finite_not_nan (prec emax : Z) (x : spec_float)
  (sy : bool) (my : positive) (ey : Z) :
  is_nan x = false -> is_nan (SFdiv prec emax x (S754_finite sy my ey)) = false.
Proof.
  destruct x as [sx|sx| |sx mx ex]; simpl; trivial. intros _.
  unfold SFdiv_core_binary.
  set (m' := match _ - _ - _ with Z0 => Z.pos mx | Zpos _ => _ | Zneg _ => 0 end).
  assert (Hm : 0 <= m').
  { subst m'. destruct (_ - _ - _); [lia | | lia].
    apply Z.shiftl_nonneg. lia. }
  pose proof (Z.div_pos m' (Z.pos my) Hm ltac:(lia)) as Hq.
  unfold Z.div in Hq. destruct (Z.div_eucl m' (Z.pos my)) as [q r].
  cbn [fst] in Hq. now apply binary_round_aux_not_nan.
Qed.

Lemma SFmul_finite_not_nan (prec emax : Z) (x : spec_float)
  (sy : bool) (my : positive) (ey : Z) :
  is_nan x = false -> is_nan (SFmul prec emax x (S754_finite sy my ey)) = false.
Proof.
  destruct x as [sx|sx| |sx mx ex]; simpl; trivial. intros _.
  apply binary_round_aux_not_nan. lia.
Qed.

Lemma SFsub_finite_not_nan (prec emax : Z) (sx : bool) (mx : positive) (ex : Z)
  (y : spec_float) :
  is_nan y = false -> is_nan (SFsub prec emax (S754_finite sx mx ex) y) = false.
Proof.
  destruct y as [sy|sy| |sy my ey]; simpl; trivial. intros _.
  apply binary_normalize_not_nan.
Qed.

(** ** Floating point: comparisons *)

Lemma fcompare_numbers (x y : spec_float) (qx qy : Q) :
  F2Q x = Some qx -> F2Q y = Some qy -> fcompare x y = Some (qx ?= qy)%Q.
Proof.
  destruct x, y; simpl; try discriminate; intros [= <-] [= <-]; reflexivity.
Qed.

Lemma flt_numbers (x y : spec_float) (qx qy : Q) :
  F2Q x = Some qx -> F2Q y = Some qy -> (flt x y = true <-> (qx < qy)%Q).
Proof.
  intros Hx Hy. unfold flt. rewrite (fcompare_numbers x y qx qy Hx Hy).
  rewrite Qlt_alt. destruct (qx ?= qy)%Q; split; congruence.
Qed.

Lemma fle_numbers (x y : spec_float) (qx qy : Q) :
  F2Q x = Some qx -> F2Q y = Some qy -> (fle x y = true <-> (qx <= qy)%Q).
Proof.
  intros Hx Hy. unfold fle. rewrite (fcompare_numbers x y qx qy Hx Hy).
  rewrite Qle_alt. destruct (qx ?= qy)%Q; split; congruence.
Qed.

(** A value that is not NaN is a number or an infinity. *)
Lemma not_nan_cases (v : spec_float) :
  is_nan v = false ->
  (exists q, F2Q v = Some q) \/ (exists s, v = S754_infinity s).
Proof.
  destruct v as [s|s| |s m e]; simpl; intros H; try discriminate.
  - left. now exists 0%Q.
  - right. now exists s.
  - left. now exists (Qval s m e).
Qed.

Lemma constrain_within (amt lo hi : spec_float) (ql qh : Q) :
  is_nan amt = false ->
  F2Q lo = Some ql -> F2Q hi = Some qh -> (ql <= qh)%Q ->
  within (constrain amt lo hi) ql qh.
Proof.
  intros Hn Hlo Hhi Hle. unfold constrain.
  destruct (flt amt lo) eqn:E1.
  { exists ql. repeat split; trivial. apply Qle_refl. }
  destruct (flt hi amt) eqn:E2.
  { exists qh. repeat split; trivial. apply Qle_refl. }
  destruct (not_nan_cases amt Hn) as [[q Hq]|[s ->]].
  - exists q. split; [exact Hq|].
    pose proof (flt_numbers amt lo q ql Hq Hlo) as F1.
    pose proof (flt_numbers hi amt qh q Hhi Hq) as F2.
    split.
    + apply Qnot_lt_le. intros C. apply F1 in C. congruence.
    + apply Qnot_lt_le. intros C. apply F2 in C. congruence.
  - exfalso. destruct s.
    + unfold flt in E1. destruct lo; simpl in *; discriminate.
    + unfold flt in E2. destruct hi; simpl in *; discriminate.
Qed.

(** ** SensorManager *)

Lemma within_not_nan (v : spec_float) (lo hi : Q) : within v lo hi -> is_nan v = false.
Proof. intros (q & H & _). destruct v; simpl in *; congruence. Qed.

Lemma within_bounds_eq (v : spec_float) (lo hi lo' hi' : Q) :
  (lo == lo')%Q -> (hi == hi')%Q -> within v lo hi -> within v lo' hi'.
Proof.
  intros El Eh (q & H & L & U). exists q. split; [exact H|].
  rewrite <- El, <- Eh. auto.
Qed.

Lemma within_above_marker (v : spec_float) (lo hi : Q) :
  (-999 < lo)%Q -> within v lo hi -> ~ at_or_below_marker v.
Proof.
  intros Hlo (q & H & L & _) [->|(q' & H' & M)]; [discriminate|].
  rewrite H in H'. injection H' as <-. lra.
Qed.

Lemma F2Q_INVALID_READING :
  exists qm : Q, F2Q INVALID_READING = Some qm /\ (qm == -999)%Q.
Proof. eexists. split; reflexivity. Qed.

(** The marker test of [validateReading] is the test of [at_or_below_marker]. *)
Lemma fle_marker (v : spec_float) :
  fle v INVALID_READING = true <-> at_or_below_marker v.
Proof.
  destruct F2Q_INVALID_READING as (qm & Hm & Em).
  destruct v as [s|s| |s m e].
  - rewrite (fle_numbers (S754_zero s) _ 0%Q qm eq_refl Hm), Em. split.
    + intros H. right. exists 0%Q. auto.
    + intros [H|(q & [= <-] & H)]; [discriminate | exact H].
  - destruct s; split; trivial.
    + now left.
    + discriminate.
    + intros [H|(q & H & _)]; discriminate.
  - split; [discriminate|]. intros [H|(q & H & _)]; discriminate.
  - rewrite (fle_numbers (S754_finite s m e) _ (Qval s m e) qm eq_refl Hm), Em. split.
    + intros H. right. eexists. split; [reflexivity | exact H].
    + intros [H|(q & [= <-] & H)]; [discriminate | exact H].
Qed.

Lemma validateReading_iff (v lo hi : spec_float) (ql qh : Q) :
  is_nan v = false ->
  F2Q lo = Some ql -> F2Q hi = Some qh -> (-999 < ql)%Q ->
  (validateReading v lo hi = true <-> within v ql qh).
Proof.
  intros Hn Hlo Hhi Hm.
  destruct F2Q_INVALID_READING as (qm & Hqm & Em).
  unfold validateReading.
  destruct (not_nan_cases v Hn) as [[q Hq]|[s ->]].
  - pose proof (fle_numbers v _ q qm Hq Hqm) as F0.
    pose proof (flt_numbers v lo q ql Hq Hlo) as F1.
    pose proof (flt_numbers hi v qh q Hhi Hq) as F2.
    rewrite Em in F0.
    split.
    + intros H. exists q. split; [exact Hq|].
      destruct (fle v INVALID_READING); [discriminate|].
      destruct (flt v lo); [discriminate|].
      destruct (flt hi v); [discriminate|].
      split; apply Qnot_lt_le; intros C; [apply F1 in C | apply F2 in C]; discriminate.
    + intros (q' & Hq' & L & U). rewrite Hq in Hq'. injection Hq' as <-.
      destruct (fle v INVALID_READING).
      { exfalso. assert (q <= -999)%Q by now apply F0. lra. }
      destruct (flt v lo).
      { exfalso. assert (q < ql)%Q by now apply F1. lra. }
      destruct (flt hi v); [|reflexivity].
      exfalso. assert (qh < q)%Q by now apply F2. lra.
  - split.
    + intros H. exfalso. destruct s.
      * discriminate.
      * unfold flt in H. destruct lo, hi; simpl in *; discriminate.
    + intros (q & Hq & _). discriminate.
Qed.

Lemma validateReading_percent (v : spec_float) :
  is_nan v = false ->
  (validateReading v (float_of_Z 0) (float_of_Z 100) = true <-> within v 0 100).
Proof.
  intros Hn.
  rewrite (validateReading_iff v _ _ 0%Q (Qval false 13107200 (-17)) Hn);
    [| reflexivity | reflexivity | reflexivity].
  split; apply within_bounds_eq; reflexivity.
Qed.

Lemma validateReading_celsius (v : spec_float) :
  is_nan v = false ->
  (validateReading v (float_of_Z (-10)) (float_of_Z 60) = true <-> within v (-10) 60).
Proof.
  intros Hn.
  rewrite (validateReading_iff v _ _ (Qval true 10485760 (-20))
             (Qval false 15728640 (-18)) Hn);
    [| reflexivity | reflexivity | reflexivity].
  split; apply within_bounds_eq; reflexivity.
Qed.

Lemma readSoilMoisture_within (inp : SensorInputs) :
  within (readSoilMoisture inp) 0 100.
Proof.
  unfold readSoilMoisture.
  apply (within_bounds_eq _ 0%Q (Qval false 13107200 (-17))); try reflexivity.
  apply constrain_within; try reflexivity; [|discriminate].
  apply double_to_float_not_nan.
  change (float_to_double (float_of_Z 100))
    with (S754_finite false 7036874417766400 (-46)).
  apply SFsub_finite_not_nan, SFmul_finite_not_nan, float_to_double_not_nan.
  change (float_of_Z (int32_wrap (SOIL_MOISTURE_DRY - SOIL_MOISTURE_WET)))
    with (S754_finite false 16384000 (-13)).
  apply SFdiv_finite_not_nan, float_of_Z_not_nan.
Qed.

Lemma readSoilTemperature_not_nan (mgr : SensorManager) (inp : SensorInputs) :
  is_nan (getTempCByIndex inp) = false ->
  is_nan (readSoilTemperature mgr inp) = false.
Proof.
  intros H. unfold readSoilTemperature.
  destruct (negb _); [reflexivity|]. destruct (feq _ _); [reflexivity | exact H].
Qed.

Lemma readAirTemperature_not_nan (mgr : SensorManager) (inp : SensorInputs) :
  is_nan (readAirTemperature mgr inp) = false.
Proof.
  unfold readAirTemperature. destruct (negb _); [reflexivity|].
  destruct (is_nan (dht_readTemperature inp)) eqn:E; [reflexivity | exact E].
Qed.

Lemma readHumidity_not_nan (mgr : SensorManager) (inp : SensorInputs) :
  is_nan (readHumidity mgr inp) = false.
Proof.
  unfold readHumidity. destruct (negb _); [reflexivity|].
  destruct (is_nan (dht_readHumidity inp)) eqn:E; [reflexivity | exact E].
Qed.




(** C10.  Whatever the ADC delivers, [readSoilMoisture] returns a number
    of [[0, 100]]: the field is never out of range and never at or below
    the marker, its check in [readAllSensors] always passes, and [valid]
    is decided by the other three fields alone. *)
Theorem readSoilMoisture_always_in_range (mgr : SensorManager) (inp : SensorInputs) :
  within (readSoilMoisture inp) 0 100 /\
  ~ at_or_below_marker (readSoilMoisture inp) /\
  validateReading (readSoilMoisture inp) (float_of_Z 0) (float_of_Z 100) = true /\
  valid (readAllSensors mgr inp)
  = (validateReading (readSoilTemperature mgr inp) (float_of_Z (-10)) (float_of_Z 60)
     && validateReading (readAirTemperature mgr inp) (float_of_Z (-10)) (float_of_Z 60)
     && validateReading (readHumidity mgr inp) (float_of_Z 0) (float_of_Z 100))%bool.
Proof.
  pose proof (readSoilMoisture_within inp) as Hsm.
  assert (V : validateReading (readSoilMoisture inp) (float_of_Z 0) (float_of_Z 100) = true).
  { apply validateReading_percent; [eapply within_not_nan; exact Hsm | exact Hsm]. }
  split; [exact Hsm|].
  split; [eapply within_above_marker; [|exact Hsm]; reflexivity|].
  split; [exact V|].
  unfold readAllSensors. cbn [valid andb]. now rewrite V.
Qed.

(** Soil moisture at the calibration points and half way. *)
Example readSoilMoisture_samples :
  F2Q (readSoilMoisture (mkInputs 1200 S754_nan S754_nan S754_nan 0)) = Some (Qval false 13107200 (-17)) /\
  readSoilMoisture (mkInputs 3200 S754_nan S754_nan S754_nan 0) = S754_zero false /\
  readSoilMoisture (mkInputs 2200 S754_nan S754_nan S754_nan 0) = float_of_Z 50 /\
  readSoilMoisture (mkInputs 0 S754_nan S754_nan S754_nan 0) = float_of_Z 100 /\
  readSoilMoisture (mkInputs 4095 S754_nan S754_nan S754_nan 0) = float_of_Z 0.
Proof. vm_compute. auto. Qed.

(** ** ArduinoJson: what is written is read back *)

Lemma escape_char_some (c e : ascii) :
  escape_char c = Some e -> unescape_char e = Some c.
Proof.
  unfold escape_char.
  repeat match goal with
         | |- context [Ascii.eqb c ?x] =>
             let E := fresh "E" in
             destruct (Ascii.eqb c x) eqn:E;
             [apply Ascii.eqb_eq in E; subst c; intros [= <-]; reflexivity|]
         end.
  discriminate.
Qed.

Lemma escape_char_none (c : ascii) :
  escape_char c = None ->
  Ascii.eqb c DQ = false /\ Ascii.eqb c BACKSLASH = false.
Proof.
  unfold escape_char.
  destruct (Ascii.eqb c DQ); [discriminate|].
  destruct (Ascii.eqb c BACKSLASH); [discriminate|]. auto.
Qed.

Lemma parse_string_body_escape (s rest : string) :
  nul_free s = true ->
  parse_string_body (escape s ++ String DQ rest) = Some (s, rest).
Proof.
  induction s as [|c s IH]; intros Hn.
  - reflexivity.
  - cbn [nul_free] in Hn. apply andb_true_iff in Hn as [Hc Hs].
    apply negb_true_iff in Hc. specialize (IH Hs).
    cbn [escape]. destruct (escape_char c) as [e|] eqn:E.
    + pose proof (escape_char_some c e E) as U.
      change (parse_string_body (String BACKSLASH (String e (escape s ++ String DQ rest)))
              = Some (String c s, rest)).
      cbn [parse_string_body].
      change (Ascii.eqb BACKSLASH DQ) with false.
      change (Ascii.eqb BACKSLASH BACKSLASH) with true.
      cbn iota. rewrite U, IH. reflexivity.
    + destruct (escape_char_none c E) as [N1 N2].
      rewrite Hc.
      change (parse_string_body (String c (escape s ++ String DQ rest))
              = Some (String c s, rest)).
      cbn [parse_string_body]. rewrite N1, N2, Hc, IH. reflexivity.
Qed.

Lemma parse_string_body_quote (s rest : string) :
  nul_free s = true ->
  exists body, quote s ++ rest = String DQ body /\
               parse_string_body body = Some (s, rest).
Proof.
  intros H. exists (escape s ++ String DQ rest). split.
  - unfold quote. cbn [append]. now rewrite append_assoc.
  - now apply parse_string_body_escape.
Qed.

Lemma substring_all (s : string) : substring 0 (String.length s) s = s.
Proof. induction s as [|c s IH]; simpl; [reflexivity | now rewrite IH]. Qed.

Lemma skip_spaces_serializeJson (v : JsonVariant) (rest : string) :
  skip_spaces (serializeJson v ++ rest) = serializeJson v ++ rest.
Proof. destruct v; reflexivity. Qed.

Lemma skip_spaces_quote (k rest : string) :
  skip_spaces (quote k ++ rest) = quote k ++ rest.
Proof. reflexivity. Qed.

Lemma has_key_members_set (acc : JsonMembers) (k k' : string) (v : JsonVariant) :
  has_key (members_set acc k v) k' = (has_key acc k' || String.eqb k k')%bool.
Proof.
  unfold has_key. induction acc as [|k0 v0 acc IH]; cbn [members_set members_get].
  - destruct (String.eqb k k'); reflexivity.
  - destruct (String.eqb k0 k) eqn:E0; cbn [members_get].
    + apply String.eqb_eq in E0. subst k0.
      destruct (String.eqb k k'); rewrite ?orb_true_r, ?orb_false_r; reflexivity.
    + destruct (String.eqb k0 k'); [reflexivity | exact IH].
Qed.

Lemma members_set_fresh (acc : JsonMembers) (k : string) (v : JsonVariant) :
  has_key acc k = false -> members_set acc k v = mappend acc (MCons k v MNil).
Proof.
  unfold has_key. induction acc as [|k0 v0 acc IH]; cbn [members_set members_get mappend].
  - reflexivity.
  - destruct (String.eqb k0 k); [discriminate|]. intros H. now rewrite IH.
Qed.

Lemma mappend_assoc (a b c : JsonMembers) :
  mappend (mappend a b) c = mappend a (mappend b c).
Proof. induction a as [|k v a IH]; cbn; [reflexivity | now rewrite IH]. Qed.

Lemma keys_fresh_members_set (acc r : JsonMembers) (k : string) (v : JsonVariant) :
  keys_fresh acc r = true -> has_key r k = false ->
  keys_fresh (members_set acc k v) r = true.
Proof.
  unfold has_key.
  induction r as [|k' v' r IH]; cbn [keys_fresh members_get]; [reflexivity|].
  intros Hf Hk. apply andb_true_iff in Hf as [H1 H2].
  destruct (String.eqb k' k) eqn:E; [discriminate|].
  rewrite has_key_members_set, String.eqb_sym, E.
  apply negb_true_iff in H1. rewrite H1. cbn. now apply IH.
Qed.

Lemma serialize_members_head (k : string) (v : JsonVariant) (r : JsonMembers)
  (x : string) :
  exists body, serialize_members (MCons k v r) ++ x = String DQ body.
Proof. eexists. cbn [serialize_members]. unfold quote. cbn [append]. reflexivity. Qed.

Lemma serialize_members_cons (k : string) (v : JsonVariant) (r : JsonMembers)
  (x : string) :
  serialize_members (MCons k v r) ++ x
  = quote k ++ String ":" (serializeJson v
      ++ match r with
         | MNil => x
         | MCons _ _ _ => String "," (serialize_members r ++ x)
         end).
Proof.
  cbn [serialize_members]. rewrite !append_assoc. cbn [append].
  destruct r; reflexivity.
Qed.

Lemma keys_fresh_nil (ms : JsonMembers) : keys_fresh MNil ms = true.
Proof. induction ms as [|k v r IH]; [reflexivity | exact IH]. Qed.

(** The parser reads back what the serializer wrote, given rounds enough. *)
Lemma parse_serialize :
  (forall (v : JsonVariant) (fuel : nat) (rest : string),
      wf_variant v = true -> (vfuel v <= fuel)%nat ->
      parse_value fuel (serializeJson v ++ rest) = Some (v, rest)) /\
  (forall (ms : JsonMembers) (fuel : nat) (rest : string) (acc : JsonMembers),
      wf_members ms = true -> keys_fresh acc ms = true ->
      (mfuel ms <= fuel)%nat -> ms <> MNil ->
      parse_members fuel (serialize_members ms ++ String "}" rest) acc
      = Some (JObject (mappend acc ms), rest)).
Proof.
  apply Json_mutind.
  - (* null *)
    intros fuel rest _ Hf. destruct fuel as [|f]; [simpl in Hf; lia|].
    reflexivity.
  - (* string *)
    intros s fuel rest Hwf Hf. destruct fuel as [|f]; [simpl in Hf; lia|].
    cbn [wf_variant] in Hwf. cbn [serializeJson].
    destruct (parse_string_body_quote s rest Hwf) as (body & E & P).
    rewrite E. cbn. rewrite P. reflexivity.
  - (* object *)
    intros ms IH fuel rest Hwf Hf. destruct fuel as [|f]; [simpl in Hf; lia|].
    cbn [wf_variant vfuel] in *. cbn [serializeJson].
    replace (("{" ++ serialize_members ms ++ "}") ++ rest)
      with (String "{" (serialize_members ms ++ String "}" rest))
      by (cbn [append]; now rewrite append_assoc).
    destruct ms as [|k v r].
    + reflexivity.
    + destruct (serialize_members_head k v r (String "}" rest)) as (body & E).
      specialize (IH f rest MNil Hwf (keys_fresh_nil _) ltac:(lia) ltac:(discriminate)).
      rewrite E in *. cbn. exact IH.
  - (* no member *)
    intros fuel rest acc _ _ _ H. congruence.
  - (* a member *)
    intros k v IHv r IHr fuel rest acc Hwf Hfresh Hf _.
    destruct fuel as [|f]; [simpl in Hf; lia|].
    cbn [wf_members keys_fresh mfuel] in *.
    apply andb_true_iff in Hwf as [Hwf Hwr].
    apply andb_true_iff in Hwf as [Hwf Hkr].
    apply andb_true_iff in Hwf as [Hk Hwv].
    apply andb_true_iff in Hfresh as [Hka Hfresh].
    apply negb_true_iff in Hkr, Hka.
    rewrite serialize_members_cons.
    destruct (parse_string_body_quote k
                (String ":" (serializeJson v ++
                   match r with
                   | MNil => String "}" rest
                   | MCons _ _ _ => String "," (serialize_members r ++ String "}" rest)
                   end)) Hk) as (body & E & P).
    rewrite E. cbn [parse_members].
    change (Ascii.eqb DQ DQ) with true. cbn iota.
    rewrite P. cbn [skip_spaces]. 
    change (Ascii.eqb ":" " " || Ascii.eqb ":" (ascii_of_nat 9)
            || Ascii.eqb ":" LF || Ascii.eqb ":" CR)%bool with false.
    cbn iota. change (Ascii.eqb ":" ":") with true. cbn iota.
    rewrite (IHv f _ Hwv ltac:(lia)).
    rewrite (members_set_fresh acc k v Hka).
    destruct r as [|k' v' r'].
    + reflexivity.
    + cbn [skip_spaces].
      change (Ascii.eqb "," " " || Ascii.eqb "," (ascii_of_nat 9)
              || Ascii.eqb "," LF || Ascii.eqb "," CR)%bool with false.
      cbn iota. change (Ascii.eqb "," "}") with false.
      change (Ascii.eqb "," ",") with true. cbn iota.
      destruct (serialize_members_head k' v' r' (String "}" rest)) as (body' & E').
      assert (Sk : skip_spaces (serialize_members (MCons k' v' r') ++ String "}" rest)
                   = serialize_members (MCons k' v' r') ++ String "}" rest).
      { rewrite E'. reflexivity. }
      rewrite Sk.
      rewrite (IHr f rest (mappend acc (MCons k v MNil)) Hwr).
      * now rewrite mappend_assoc.
      * rewrite <- (members_set_fresh acc k v Hka).
        now apply keys_fresh_members_set.
      * lia.
      * discriminate.
Qed.

Lemma vfuel_le_length :
  (forall v : JsonVariant, (vfuel v <= String.length (serializeJson v))%nat) /\
  (forall ms : JsonMembers, (mfuel ms <= String.length (serialize_members ms))%nat).
Proof.
  apply Json_mutind.
  - simpl. lia.
  - intros s. simpl. lia.
  - intros ms IH. cbn [vfuel serializeJson]. rewrite !length_append. simpl. lia.
  - simpl. lia.
  - intros k v IHv r IHr. cbn [mfuel serialize_members].
    rewrite !length_append.
    destruct r as [|k' v' r'].
    + simpl in *. lia.
    + rewrite length_append. simpl String.length at 2 3.
      unfold quote. simpl String.length at 1. lia.
Qed.

Lemma deserialize_serialize (v : JsonVariant) :
  wf_variant v = true -> deserializeJson (serializeJson v) = Some v.
Proof.
  intros H. unfold deserializeJson.
  pose proof (proj1 parse_serialize v (S (String.length (serializeJson v))) EmptyString H) as P.
  rewrite append_empty_r in P. rewrite P; [reflexivity|].
  pose proof (proj1 vfuel_le_length v). lia.
Qed.

(** ** The strings of [DataProcessor] are C strings *)

Lemma nul_free_append (a b : string) :
  nul_free (a ++ b) = (nul_free a && nul_free b)%bool.
Proof.
  induction a as [|c a IH]; simpl; [reflexivity|].
  now rewrite IH, andb_assoc.
Qed.

Lemma nul_free_substring (s : string) : forall n m : nat,
  nul_free s = true -> nul_free (substring n m s) = true.
Proof.
  induction s as [|c s IH]; intros n m H.
  - destruct n, m; reflexivity.
  - simpl in H. apply andb_true_iff in H as [Hc Hs].
    destruct n as [|n]; destruct m as [|m]; simpl; auto.
    rewrite Hc. now apply IH.
Qed.

Lemma nul_free_string_of_uint (u : Decimal.uint) :
  nul_free (NilEmpty.string_of_uint u) = true.
Proof. induction u; simpl; auto. Qed.

Lemma nul_free_dec (z : Z) : nul_free (dec z) = true.
Proof.
  unfold dec, NilZero.string_of_uint.
  destruct (N.to_uint (Z.to_N z)) eqn:E; try reflexivity;
    rewrite <- E; apply nul_free_string_of_uint.
Qed.

Lemma nul_free_pad2 (z : Z) : nul_free (pad2 z) = true.
Proof. unfold pad2. now rewrite nul_free_append, !nul_free_dec. Qed.

Lemma nul_free_formatFloat (x : spec_float) : nul_free (formatFloat x) = true.
Proof.
  unfold formatFloat. apply nul_free_substring.
  destruct x as [s|s| |s m e];
    [destruct s; reflexivity | destruct s; reflexivity | reflexivity |].
  cbn [printf_2f].
  rewrite !nul_free_append, nul_free_dec, nul_free_pad2.
  destruct s; reflexivity.
Qed.

Lemma nul_free_formatISO8601 (t : Z) : nul_free (formatISO8601 t) = true.
Proof.
  unfold formatISO8601. destruct (civil_from_days _) as [[y m] d].
  rewrite !nul_free_append, nul_free_dec, !nul_free_pad2. reflexivity.
Qed.

Lemma hex_digit_lower (z : Z) : is_lower_hex (hex_digit z) = true.
Proof.
  unfold hex_digit.
  destruct (z mod 16) as [|p|p]; try reflexivity.
  do 4 (destruct p as [p|p|]; try reflexivity).
Qed.

Lemma all_lower_hex_hex_of_bytes (bs : list Z) :
  all_lower_hex (hex_of_bytes bs) = true.
Proof.
  induction bs as [|b bs IH]; [reflexivity|].
  cbn [hex_of_bytes all_lower_hex]. now rewrite !hex_digit_lower, IH.
Qed.

Lemma is_lower_hex_not_nul (c : ascii) :
  is_lower_hex c = true -> Ascii.eqb c NUL = false.
Proof.
  intros H. apply Ascii.eqb_neq. intros ->. discriminate.
Qed.

Lemma all_lower_hex_nul_free (s : string) :
  all_lower_hex s = true -> nul_free s = true.
Proof.
  induction s as [|c s IH]; [reflexivity|].
  simpl. intros H. apply andb_true_iff in H as [Hc Hs].
  now rewrite (is_lower_hex_not_nul c Hc), IH.
Qed.

(** ** SHA-256 yields 32 bytes *)

Lemma length_round (st : list Z) (kw : Z * Z) :
  List.length (round st kw) = List.length st.
Proof.
  unfold round.
  do 9 (destruct st as [|? st]; try reflexivity).
Qed.

Lemma length_fold_round (kws : list (Z * Z)) : forall st : list Z,
  List.length (fold_left round kws st) = List.length st.
Proof.
  induction kws as [|kw kws IH]; intros st; [reflexivity|].
  simpl. now rewrite IH, length_round.
Qed.

Lemma length_compress (h block : list Z) :
  List.length (compress h block) = List.length h.
Proof.
  unfold compress. rewrite length_map, length_combine, length_fold_round. lia.
Qed.

Lemma length_fold_compress (bs : list (list Z)) : forall h : list Z,
  List.length (fold_left compress bs h) = List.length h.
Proof.
  induction bs as [|b bs IH]; intros h; [reflexivity|].
  simpl. now rewrite IH, length_compress.
Qed.

Lemma length_sha256 (msg : list Z) : List.length (sha256 msg) = 32%nat.
Proof.
  unfold sha256.
  set (h := fold_left compress _ H256).
  assert (L : List.length h = 8%nat) by (subst h; now rewrite length_fold_compress).
  do 9 (destruct h as [|? h]; try discriminate L). reflexivity.
Qed.

Lemma length_hex_of_bytes (bs : list Z) :
  String.length (hex_of_bytes bs) = (2 * List.length bs)%nat.
Proof. induction bs as [|b bs IH]; simpl; [reflexivity | rewrite IH; lia]. Qed.

Lemma length_computeSHA256Hash (payload : string) :
  String.length (computeSHA256Hash payload) = 64%nat.
Proof. unfold computeSHA256Hash. now rewrite length_hex_of_bytes, length_sha256. Qed.

(** ** DataProcessor: the days and the text of a timestamp *)

Lemma Zrange_forallb (P : Z -> bool) (n : nat) : forall lo z : Z,
  forallb P (Zrange lo n) = true -> lo <= z < lo + Z.of_nat n -> P z = true.
Proof.
  induction n as [|n IH]; intros lo z H Hz; [lia|].
  cbn [Zrange forallb] in H. apply andb_true_iff in H as [H1 H2].
  destruct (Z.eq_dec z lo) as [->|Hne]; [exact H1|].
  apply (IH (lo + 1)); [exact H2 | lia].
Qed.

Lemma dates_check_spec (n : nat) : forall day prev : Z,
  dates_check n day prev = true ->
  forall k : Z, 0 <= k < Z.of_nat n ->
    exists y m d, civil_from_days (day + k) = (y, m, d) /\
                  1970 <= y <= 2106 /\ 1 <= m <= 12 /\ 1 <= d <= 31 /\
                  (if k =? 0 then prev else date_code (day + k - 1)) < date_code (day + k).
Proof.
  induction n as [|n IH]; intros day prev C k Hk; [lia|].
  cbn [dates_check] in C.
  destruct (civil_from_days day) as [[y m] d] eqn:E.
  cbv zeta in C.
  apply andb_true_iff in C as [C Crest].
  repeat (apply andb_true_iff in C as [C ?]).
  destruct (k =? 0) eqn:K.
  - apply Z.eqb_eq in K. subst k. rewrite Z.add_0_r.
    exists y, m, d. unfold date_code. rewrite E. repeat split; lia.
  - apply Z.eqb_neq in K.
    destruct (IH (day + 1) _ Crest (k - 1) ltac:(lia)) as (y' & m' & d' & E' & Hy & Hm & Hd & L).
    replace (day + 1 + (k - 1)) with (day + k) in * by lia.
    exists y', m', d'. split; [exact E'|]. repeat split; try lia.
    destruct (k - 1 =? 0) eqn:K1.
    + apply Z.eqb_eq in K1. replace (day + k - 1) with day by lia.
      unfold date_code at 1. rewrite E. exact L.
    + replace (day + 1 + (k - 1) - 1) with (day + k - 1) in L by lia. exact L.
Qed.

Lemma dates_check_all : dates_check (Z.to_nat 49712) 0 0 = true.
Proof. vm_cast_no_check (eq_refl true). Qed.

Lemma year_check_all (y : Z) : 1970 <= y <= 2106 -> year_check y = true.
Proof.
  intros H. apply (Zrange_forallb year_check 137 1970); [vm_compute; reflexivity | lia].
Qed.

Lemma pad2_check_all (z : Z) : 0 <= z <= 99 -> pad2_check z = true.
Proof.
  intros H. apply (Zrange_forallb pad2_check 100 0); [vm_compute; reflexivity | lia].
Qed.

Lemma year_text (y : Z) :
  1970 <= y <= 2106 -> String.length (dec y) = 4%nat /\ digits_code (dec y) 0 = y.
Proof.
  intros H. pose proof (year_check_all y H) as C. unfold year_check in C.
  apply andb_true_iff in C as [C1 C2].
  split; [now apply Nat.eqb_eq | now apply Z.eqb_eq].
Qed.

Lemma pad2_text (z : Z) :
  0 <= z <= 99 -> String.length (pad2 z) = 2%nat /\ digits_code (pad2 z) 0 = z.
Proof.
  intros H. pose proof (pad2_check_all z H) as C. unfold pad2_check in C.
  apply andb_true_iff in C as [C1 C2].
  split; [now apply Nat.eqb_eq | now apply Z.eqb_eq].
Qed.

Lemma civil_from_days_range (day : Z) :
  0 <= day < 49711 ->
  exists y m d, civil_from_days day = (y, m, d) /\
                1970 <= y <= 2106 /\ 1 <= m <= 12 /\ 1 <= d <= 31 /\
                date_code day = y * 10000 + m * 100 + d /\
                date_code day < date_code (day + 1).
Proof.
  intros H.
  destruct (dates_check_spec _ 0 0 dates_check_all day ltac:(lia))
    as (y & m & d & E & Hy & Hm & Hd & _).
  destruct (dates_check_spec _ 0 0 dates_check_all (day + 1) ltac:(lia))
    as (_ & _ & _ & _ & _ & _ & _ & L).
  destruct (day + 1 =? 0) eqn:K; [apply Z.eqb_eq in K; lia|].
  cbn [Z.add] in E. replace (0 + (day + 1) - 1) with day in L by lia.
  exists y, m, d. unfold date_code at 1. rewrite E.
  repeat split; try lia. exact L.
Qed.

Lemma date_code_increasing (n : nat) : forall a : Z,
  0 <= a -> a + Z.of_nat (S n) < 49712 ->
  date_code a < date_code (a + Z.of_nat (S n)).
Proof.
  induction n as [|n IH]; intros a Ha Hb.
  - destruct (civil_from_days_range a) as (y & m & d & _ & _ & _ & _ & _ & L); [lia|].
    exact L.
  - specialize (IH a Ha ltac:(lia)).
    destruct (civil_from_days_range (a + Z.of_nat (S n)))
      as (y & m & d & _ & _ & _ & _ & _ & L); [lia|].
    replace (a + Z.of_nat (S (S n))) with (a + Z.of_nat (S n) + 1) by lia.
    lia.
Qed.

Lemma date_code_injective (a b : Z) :
  0 <= a < 49711 -> 0 <= b < 49711 -> date_code a = date_code b -> a = b.
Proof.
  intros Ha Hb E.
  destruct (Z.lt_trichotomy a b) as [L|[L|L]]; [|exact L|]; exfalso.
  - pose proof (date_code_increasing (Z.to_nat (b - a - 1)) a) as M.
    replace (a + Z.of_nat (S (Z.to_nat (b - a - 1)))) with b in M by lia. lia.
  - pose proof (date_code_increasing (Z.to_nat (a - b - 1)) b) as M.
    replace (b + Z.of_nat (S (Z.to_nat (a - b - 1)))) with a in M by lia. lia.
Qed.

Lemma append_inj_length (a a' b b' : string) :
  String.length a = String.length a' -> a ++ b = a' ++ b' -> a = a' /\ b = b'.
Proof.
  revert a'. induction a as [|c a IH]; intros [|c' a'] L E; try discriminate.
  - auto.
  - cbn in E. injection E as -> E. injection L as L.
    destruct (IH a' L E) as [-> ->]. auto.
Qed.

Lemma formatISO8601_parts (t : Z) :
  formatISO8601 t
  = date_text (uint32_wrap t / 86400) ++ "T" ++ time_text (uint32_wrap t mod 86400) ++ "Z".
Proof.
  unfold formatISO8601, date_text, time_text. cbv zeta.
  destruct (civil_from_days (uint32_wrap t / 86400)) as [[y m] d].
  now rewrite !append_assoc.
Qed.

Lemma uint32_wrap_range (t : Z) : 0 <= uint32_wrap t < 4294967296.
Proof. unfold uint32_wrap. change (2 ^ 32) with 4294967296. apply Z.mod_pos_bound. lia. Qed.

Lemma date_text_length (day : Z) :
  0 <= day < 49711 -> String.length (date_text day) = 10%nat.
Proof.
  intros H. unfold date_text.
  destruct (civil_from_days_range day H) as (y & m & d & E & Hy & Hm & Hd & _).
  rewrite E, !length_append.
  destruct (year_text y Hy) as [-> _].
  destruct (pad2_text m ltac:(lia)) as [-> _].
  destruct (pad2_text d ltac:(lia)) as [-> _]. reflexivity.
Qed.

Lemma time_text_length (secs : Z) :
  0 <= secs < 86400 -> String.length (time_text secs) = 8%nat.
Proof.
  intros H. unfold time_text. rewrite !length_append.
  assert (H1 : 0 <= secs / 3600 <= 99)
    by (split; [apply Z.div_pos; lia | apply Z.div_le_upper_bound; lia]).
  assert (H2 : 0 <= secs mod 3600 / 60 <= 99).
  { pose proof (Z.mod_pos_bound secs 3600 ltac:(lia)).
    split; [apply Z.div_pos; lia | apply Z.div_le_upper_bound; lia]. }
  assert (H3 : 0 <= secs mod 60 <= 99)
    by (pose proof (Z.mod_pos_bound secs 60 ltac:(lia)); lia).
  destruct (pad2_text _ H1) as [-> _].
  destruct (pad2_text _ H2) as [-> _].
  destruct (pad2_text _ H3) as [-> _]. reflexivity.
Qed.

Lemma date_text_injective (a b : Z) :
  0 <= a < 49711 -> 0 <= b < 49711 -> date_text a = date_text b -> a = b.
Proof.
  intros Ha Hb E. apply date_code_injective; trivial.
  destruct (civil_from_days_range a Ha) as (y & m & d & Ea & Hy & Hm & Hd & Ca & _).
  destruct (civil_from_days_range b Hb) as (y' & m' & d' & Eb & Hy' & Hm' & Hd' & Cb & _).
  unfold date_text in E. rewrite Ea, Eb in E. rewrite Ca, Cb.
  destruct (year_text y Hy) as [Ly Vy]. destruct (year_text y' Hy') as [Ly' Vy'].
  destruct (pad2_text m ltac:(lia)) as [Lm Vm].
  destruct (pad2_text m' ltac:(lia)) as [Lm' Vm'].
  destruct (pad2_text d ltac:(lia)) as [Ld Vd].
  destruct (pad2_text d' ltac:(lia)) as [Ld' Vd'].
  apply append_inj_length in E as [E1 E]; [|congruence].
  cbn [append] in E. injection E as E.
  apply append_inj_length in E as [E2 E]; [|congruence].
  cbn [append] in E. injection E as E.
  congruence.
Qed.

Lemma time_text_injective (a b : Z) :
  0 <= a < 86400 -> 0 <= b < 86400 -> time_text a = time_text b -> a = b.
Proof.
  intros Ha Hb E. unfold time_text in E.
  assert (R : forall s, 0 <= s < 86400 ->
                0 <= s / 3600 <= 99 /\ 0 <= s mod 3600 / 60 <= 99 /\ 0 <= s mod 60 <= 99).
  { intros s Hs. pose proof (Z.mod_pos_bound s 3600 ltac:(lia)).
    pose proof (Z.mod_pos_bound s 60 ltac:(lia)).
    repeat split; try (apply Z.div_pos; lia); try (apply Z.div_le_upper_bound; lia); lia. }
  destruct (R a Ha) as (A1 & A2 & A3). destruct (R b Hb) as (B1 & B2 & B3).
  destruct (pad2_text _ A1) as [L1 V1]. destruct (pad2_text _ B1) as [L1' V1'].
  destruct (pad2_text _ A2) as [L2 V2]. destruct (pad2_text _ B2) as [L2' V2'].
  destruct (pad2_text _ A3) as [L3 V3]. destruct (pad2_text _ B3) as [L3' V3'].
  apply append_inj_length in E as [E1 E]; [|congruence].
  cbn [append] in E. injection E as E.
  apply append_inj_length in E as [E2 E]; [|congruence].
  cbn [append] in E. injection E as E.
  assert (Q1 : a / 3600 = b / 3600) by congruence.
  assert (Q2 : a mod 3600 / 60 = b mod 3600 / 60) by congruence.
  assert (Q3 : a mod 60 = b mod 60) by congruence.
  clear - Ha Hb Q1 Q2 Q3.
  Z.div_mod_to_equations. lia.
Qed.

Lemma length_formatISO8601 (t : Z) : String.length (formatISO8601 t) = 20%nat.
Proof.
  pose proof (uint32_wrap_range t) as R.
  assert (Hd : 0 <= uint32_wrap t / 86400 < 49711)
    by (split; [apply Z.div_pos; lia | apply Z.div_lt_upper_bound; lia]).
  assert (Hs : 0 <= uint32_wrap t mod 86400 < 86400) by (apply Z.mod_pos_bound; lia).
  rewrite formatISO8601_parts, !length_append.
  now rewrite (date_text_length _ Hd), (time_text_length _ Hs).
Qed.

Lemma length_substring_le (s : string) : forall n : nat,
  (String.length (substring 0 n s) <= n)%nat.
Proof.
  induction s as [|c s IH]; intros [|n]; simpl; try lia.
  specialize (IH n). lia.
Qed.

Lemma length_formatFloat (value : spec_float) :
  (String.length (formatFloat value) <= 9)%nat.
Proof. apply length_substring_le. Qed.

(** ** ArduinoJson: documents that fit the pool *)

Lemma string_size_pos (s : string) : 0 < string_size s.
Proof. unfold string_size. lia. Qed.

Lemma load_size_nonneg :
  (forall v : JsonVariant, 0 <= load_size v) /\
  (forall ms : JsonMembers, 0 <= members_load_size ms).
Proof.
  apply Json_mutind; cbn [load_size members_load_size]; intros; try lia.
  - pose proof (string_size_pos s). lia.
  - pose proof (string_size_pos key). unfold SLOT_SIZE. lia.
Qed.

(** The parser with the pool reads back what the serializer wrote when
    the pool has room for it, and takes [load_size] bytes. *)
Lemma parse_serialize_pool :
  (forall (v : JsonVariant) (fuel : nat) (rest : string) (used : Z),
      wf_variant v = true -> (vfuel v <= fuel)%nat ->
      used + load_size v <= POOL_CAPACITY ->
      parse_value_pool fuel (serializeJson v ++ rest) used
      = Complete v rest (used + load_size v)) /\
  (forall (ms : JsonMembers) (fuel : nat) (rest : string) (acc : JsonMembers)
          (used : Z),
      wf_members ms = true -> keys_fresh acc ms = true ->
      (mfuel ms <= fuel)%nat -> ms <> MNil ->
      used + members_load_size ms <= POOL_CAPACITY ->
      parse_members_pool fuel (serialize_members ms ++ String "}" rest) acc used
      = Complete (JObject (mappend acc ms)) rest (used + members_load_size ms)).
Proof.
  apply Json_mutind.
  - (* null *)
    intros fuel rest used _ Hf _. destruct fuel as [|f]; [simpl in Hf; lia|].
    cbn [load_size]. rewrite Z.add_0_r. reflexivity.
  - (* string *)
    intros s fuel rest used Hwf Hf Hroom. destruct fuel as [|f]; [simpl in Hf; lia|].
    cbn [wf_variant] in Hwf. cbn [serializeJson load_size] in *.
    destruct (parse_string_body_quote s rest Hwf) as (body & E & P).
    rewrite E. cbn [parse_value_pool skip_spaces].
    change (Ascii.eqb DQ " " || Ascii.eqb DQ (ascii_of_nat 9)
            || Ascii.eqb DQ LF || Ascii.eqb DQ CR)%bool with false.
    cbn iota. change (Ascii.eqb DQ "{") with false.
    change (Ascii.eqb DQ DQ) with true. cbn iota. rewrite P.
    apply Z.leb_le in Hroom. now rewrite Hroom.
  - (* object *)
    intros ms IH fuel rest used Hwf Hf Hroom.
    destruct fuel as [|f]; [simpl in Hf; lia|].
    cbn [wf_variant vfuel load_size] in *. cbn [serializeJson].
    replace (("{" ++ serialize_members ms ++ "}") ++ rest)
      with (String "{" (serialize_members ms ++ String "}" rest))
      by (cbn [append]; now rewrite append_assoc).
    destruct ms as [|k v r].
    + cbn [members_load_size]. rewrite Z.add_0_r. reflexivity.
    + destruct (serialize_members_head k v r (String "}" rest)) as (body & E).
      specialize (IH f rest MNil used Hwf (keys_fresh_nil _) ltac:(lia)
                    ltac:(discriminate) Hroom).
      rewrite E in *. cbn. exact IH.
  - (* no member *)
    intros fuel rest acc used _ _ _ H. congruence.
  - (* a member *)
    intros k v IHv r IHr fuel rest acc used Hwf Hfresh Hf _ Hroom.
    destruct fuel as [|f]; [simpl in Hf; lia|].
    cbn [wf_members keys_fresh mfuel members_load_size] in *.
    apply andb_true_iff in Hwf as [Hwf Hwr].
    apply andb_true_iff in Hwf as [Hwf Hkr].
    apply andb_true_iff in Hwf as [Hk Hwv].
    apply andb_true_iff in Hfresh as [Hka Hfresh].
    apply negb_true_iff in Hkr, Hka.
    pose proof (string_size_pos k) as Pk.
    pose proof (proj1 load_size_nonneg v) as Pv.
    pose proof (proj2 load_size_nonneg r) as Pr.
    assert (PS : 0 < SLOT_SIZE) by reflexivity.
    rewrite serialize_members_cons.
    destruct (parse_string_body_quote k
                (String ":" (serializeJson v ++
                   match r with
                   | MNil => String "}" rest
                   | MCons _ _ _ => String "," (serialize_members r ++ String "}" rest)
                   end)) Hk) as (body & E & P).
    rewrite E. cbn [parse_members_pool].
    change (Ascii.eqb DQ DQ) with true. cbn iota.
    rewrite P.
    replace (used + string_size k <=? POOL_CAPACITY) with true
      by (symmetry; apply Z.leb_le; lia).
    cbn [skip_spaces].
    change (Ascii.eqb ":" " " || Ascii.eqb ":" (ascii_of_nat 9)
            || Ascii.eqb ":" LF || Ascii.eqb ":" CR)%bool with false.
    cbn iota. change (Ascii.eqb ":" ":") with true. cbn iota.
    cbv zeta. rewrite Hka. unfold alloc_slot.
    replace (used + string_size k + SLOT_SIZE <=? POOL_CAPACITY) with true
      by (symmetry; apply Z.leb_le; lia).
    rewrite (IHv f _ (used + string_size k + SLOT_SIZE) Hwv ltac:(lia) ltac:(lia)).
    rewrite (members_set_fresh acc k v Hka).
    destruct r as [|k' v' r'].
    + cbn [skip_spaces].
      change (Ascii.eqb "}" " " || Ascii.eqb "}" (ascii_of_nat 9)
              || Ascii.eqb "}" LF || Ascii.eqb "}" CR)%bool with false.
      cbn iota. change (Ascii.eqb "}" "}") with true. cbn iota.
      cbn [members_load_size]. f_equal. lia.
    + cbn [skip_spaces].
      change (Ascii.eqb "," " " || Ascii.eqb "," (ascii_of_nat 9)
              || Ascii.eqb "," LF || Ascii.eqb "," CR)%bool with false.
      cbn iota. change (Ascii.eqb "," "}") with false.
      change (Ascii.eqb "," ",") with true. cbn iota.
      destruct (serialize_members_head k' v' r' (String "}" rest)) as (body' & E').
      assert (Sk : skip_spaces (serialize_members (MCons k' v' r') ++ String "}" rest)
                   = serialize_members (MCons k' v' r') ++ String "}" rest).
      { rewrite E'. reflexivity. }
      rewrite Sk.
      rewrite (IHr f rest (mappend acc (MCons k v MNil))
                 (used + string_size k + SLOT_SIZE + load_size v) Hwr).
      * rewrite mappend_assoc. cbn [mappend]. f_equal. lia.
      * rewrite <- (members_set_fresh acc k v Hka).
        now apply keys_fresh_members_set.
      * lia.
      * discriminate.
      * lia.
Qed.

Lemma deserialize_static_serialize (v : JsonVariant) :
  wf_variant v = true -> load_size v <= POOL_CAPACITY ->
  deserializeJson_static (serializeJson v) = (mkDocument v (load_size v), true).
Proof.
  intros H Hroom. unfold deserializeJson_static.
  pose proof (proj1 parse_serialize_pool v (S (String.length (serializeJson v)))
                EmptyString 0 H) as P.
  rewrite append_empty_r in P. rewrite P; [reflexivity | | lia].
  pose proof (proj1 vfuel_le_length v). lia.
Qed.

(** ** DataProcessor *)

(** A step of the pool that finds room. *)
Lemma alloc_slot_room (used : Z) :
  used + SLOT_SIZE <= POOL_CAPACITY -> alloc_slot false used = Some (used + SLOT_SIZE).
Proof. intros H. unfold alloc_slot. apply Z.leb_le in H. now rewrite H. Qed.

Lemma store_string_room (s : string) (used : Z) :
  used + string_size s <= POOL_CAPACITY ->
  store_string s used = (JString s, used + string_size s).
Proof. intros H. unfold store_string. apply Z.leb_le in H. now rewrite H. Qed.

Lemma set_string_room (doc : StaticJsonDocument) (key value : string) :
  has_member (root doc) key = false ->
  pool_used doc + SLOT_SIZE + string_size value <= POOL_CAPACITY ->
  set_string doc key value
  = mkDocument (doc_set (root doc) key (JString value))
      (pool_used doc + SLOT_SIZE + string_size value).
Proof.
  intros Hk Hroom. pose proof (string_size_pos value). unfold set_string.
  rewrite Hk, alloc_slot_room, store_string_room by lia. reflexivity.
Qed.

Lemma create_nested_object_room (doc : StaticJsonDocument) (key : string) :
  has_member (root doc) key = false ->
  pool_used doc + SLOT_SIZE <= POOL_CAPACITY ->
  create_nested_object doc key
  = (mkDocument (createNestedObject (root doc) key) (pool_used doc + SLOT_SIZE), true).
Proof.
  intros Hk Hroom. unfold create_nested_object.
  rewrite Hk, alloc_slot_room by lia. reflexivity.
Qed.

Lemma nested_set_string_room (doc : StaticJsonDocument) (obj : JsonVariant)
  (key k value : string) :
  doc_get (root doc) key = Some obj ->
  has_member obj k = false ->
  pool_used doc + SLOT_SIZE + string_size value <= POOL_CAPACITY ->
  nested_set_string doc true key k value
  = mkDocument (nested_set (root doc) key k (JString value))
      (pool_used doc + SLOT_SIZE + string_size value).
Proof.
  intros Hobj Hk Hroom. pose proof (string_size_pos value). unfold nested_set_string.
  rewrite Hobj, Hk, alloc_slot_room, store_string_room by lia. reflexivity.
Qed.

Lemma payload_pool_whole (readings : SensorReadings) (farmId deviceId : string) :
  payload_pool_size readings farmId deviceId <= POOL_CAPACITY ->
  payload_pool readings farmId deviceId
  = mkDocument (whole_payload readings farmId deviceId)
      (payload_pool_size readings farmId deviceId).
Proof.
  unfold payload_pool_size, payload_strings_size. intros H.
  pose proof (string_size_pos farmId).
  pose proof (string_size_pos deviceId).
  pose proof (string_size_pos (formatISO8601 (timestamp readings))).
  pose proof (string_size_pos (formatFloat (soilMoisture readings))).
  pose proof (string_size_pos (formatFloat (soilTemperature readings))).
  pose proof (string_size_pos (formatFloat (airTemperature readings))).
  pose proof (string_size_pos (formatFloat (humidity readings))).
  assert (PS : SLOT_SIZE = 16) by reflexivity.
  unfold payload_pool. cbv zeta.
  rewrite (set_string_room _ "farmId");
    [| reflexivity | unfold StaticJsonDocument_new; cbn [pool_used]; lia].
  rewrite (set_string_room _ "deviceId"); [| reflexivity | unfold StaticJsonDocument_new; cbn [pool_used]; lia].
  rewrite (set_string_room _ "timestamp"); [| reflexivity | unfold StaticJsonDocument_new; cbn [pool_used]; lia].
  rewrite (create_nested_object_room _ "readings");
    [| reflexivity | unfold StaticJsonDocument_new; cbn [pool_used]; lia].
  erewrite (nested_set_string_room _ _ "readings" "soilMoisture");
    [| reflexivity | reflexivity | unfold StaticJsonDocument_new; cbn [pool_used]; lia].
  erewrite (nested_set_string_room _ _ "readings" "soilTemperature");
    [| reflexivity | reflexivity | unfold StaticJsonDocument_new; cbn [pool_used]; lia].
  erewrite (nested_set_string_room _ _ "readings" "airTemperature");
    [| reflexivity | reflexivity | unfold StaticJsonDocument_new; cbn [pool_used]; lia].
  erewrite (nested_set_string_room _ _ "readings" "humidity");
    [| reflexivity | reflexivity | unfold StaticJsonDocument_new; cbn [pool_used]; lia].
  f_equal. unfold StaticJsonDocument_new. cbn [pool_used]. lia.
Qed.

Lemma payload_document_members (readings : SensorReadings) (farmId deviceId : string) :
  payload_pool_size readings farmId deviceId <= POOL_CAPACITY ->
  payload_document readings farmId deviceId = whole_payload readings farmId deviceId.
Proof. intros H. unfold payload_document. now rewrite payload_pool_whole. Qed.

Lemma wf_whole_payload (readings : SensorReadings) (farmId deviceId : string) :
  nul_free farmId = true -> nul_free deviceId = true ->
  wf_variant (whole_payload readings farmId deviceId) = true.
Proof.
  intros Hf Hd. unfold whole_payload.
  cbn [wf_variant wf_members].
  rewrite Hf, Hd, nul_free_formatISO8601, !nul_free_formatFloat.
  reflexivity.
Qed.

Lemma wf_message_document (readings : SensorReadings) (farmId deviceId hash : string) :
  nul_free farmId = true -> nul_free deviceId = true -> nul_free hash = true ->
  wf_variant (doc_set (whole_payload readings farmId deviceId) "hash" (JString hash))
  = true.
Proof.
  intros Hf Hd Hh. unfold whole_payload.
  cbn [doc_set members_set]. 
  change (String.eqb "farmId" "hash") with false.
  change (String.eqb "deviceId" "hash") with false.
  change (String.eqb "timestamp" "hash") with false.
  change (String.eqb "readings" "hash") with false.
  cbn iota. cbn [wf_variant wf_members].
  rewrite Hf, Hd, Hh, nul_free_formatISO8601, !nul_free_formatFloat.
  reflexivity.
Qed.

(** Parsed, the payload takes its eight slots, its eight keys and its
    strings. *)
Lemma load_size_whole_payload (readings : SensorReadings) (farmId deviceId : string) :
  load_size (whole_payload readings farmId deviceId)
  = 8 * SLOT_SIZE + 88 + payload_strings_size readings farmId deviceId.
Proof.
  unfold whole_payload, payload_strings_size. cbn [load_size members_load_size].
  change (string_size "farmId") with 7.
  change (string_size "deviceId") with 9.
  change (string_size "timestamp") with 10.
  change (string_size "readings") with 9.
  change (string_size "soilMoisture") with 13.
  change (string_size "soilTemperature") with 16.
  change (string_size "airTemperature") with 15.
  change (string_size "humidity") with 9.
  lia.
Qed.

Lemma message_room_payload_room (readings : SensorReadings) (farmId deviceId : string) :
  message_pool_size readings farmId deviceId <= POOL_CAPACITY ->
  payload_pool_size readings farmId deviceId <= POOL_CAPACITY.
Proof. unfold message_pool_size, payload_pool_size, SLOT_SIZE. lia. Qed.

(** The message needs 360 bytes and the bytes of the two identifiers at
    most. *)
Lemma message_pool_size_bound (readings : SensorReadings) (farmId deviceId : string) :
  message_pool_size readings farmId deviceId
  <= 360 + Z.of_nat (String.length farmId + String.length deviceId).
Proof.
  unfold message_pool_size, payload_strings_size, string_size, SLOT_SIZE.
  rewrite length_formatISO8601.
  pose proof (length_formatFloat (soilMoisture readings)).
  pose proof (length_formatFloat (soilTemperature readings)).
  pose proof (length_formatFloat (airTemperature readings)).
  pose proof (length_formatFloat (humidity readings)).
  lia.
Qed.

Lemma createPayload_whole (readings : SensorReadings) (farmId deviceId : string) :
  payload_pool_size readings farmId deviceId <= POOL_CAPACITY ->
  createPayload readings farmId deviceId
  = serializeJson (whole_payload readings farmId deviceId).
Proof. intros H. unfold createPayload. now rewrite payload_document_members. Qed.

Lemma deserialize_createPayload (readings : SensorReadings) (farmId deviceId : string) :
  nul_free farmId = true -> nul_free deviceId = true ->
  payload_pool_size readings farmId deviceId <= POOL_CAPACITY ->
  deserializeJson (createPayload readings farmId deviceId)
  = Some (whole_payload readings farmId deviceId).
Proof.
  intros Hf Hd Hp. rewrite (createPayload_whole _ _ _ Hp).
  apply deserialize_serialize, wf_whole_payload; assumption.
Qed.

Lemma createMessage_document (readings : SensorReadings) (farmId deviceId : string) :
  nul_free farmId = true -> nul_free deviceId = true ->
  message_pool_size readings farmId deviceId <= POOL_CAPACITY ->
  createMessage readings farmId deviceId
  = serializeJson
      (doc_set (whole_payload readings farmId deviceId) "hash"
         (JString (computeSHA256Hash (createPayload readings farmId deviceId)))).
Proof.
  intros Hf Hd Hm.
  pose proof (message_room_payload_room _ _ _ Hm) as Hp.
  pose proof (load_size_whole_payload readings farmId deviceId) as L.
  unfold message_pool_size in Hm.
  unfold createMessage. cbv zeta.
  set (hash := computeSHA256Hash (createPayload readings farmId deviceId)).
  assert (Hh : string_size hash = 65).
  { unfold string_size, hash. now rewrite length_computeSHA256Hash. }
  rewrite (createPayload_whole _ _ _ Hp).
  rewrite deserialize_static_serialize;
    [| now apply wf_whole_payload | unfold SLOT_SIZE in *; lia].
  cbn [fst].
  rewrite set_string_room;
    [reflexivity | reflexivity | cbn [pool_used]; unfold SLOT_SIZE in *; lia].
Qed.

Lemma escape_lower_hex (s : string) : all_lower_hex s = true -> escape s = s.
Proof.
  induction s as [|c s IH]; [reflexivity|].
  cbn [all_lower_hex escape]. intros H. apply andb_true_iff in H as [Hc Hs].
  rewrite (IH Hs).
  destruct c as [[] [] [] [] [] [] [] []]; try discriminate Hc; reflexivity.
Qed.

Lemma serialize_members_snoc (ms : JsonMembers) (k : string) (v : JsonVariant) :
  ms <> MNil ->
  serialize_members (mappend ms (MCons k v MNil))
  = serialize_members ms ++ "," ++ quote k ++ ":" ++ serializeJson v.
Proof.
  induction ms as [|k0 v0 r IH]; [congruence|]. intros _.
  destruct r as [|k1 v1 r'].
  - cbn [mappend serialize_members]. now rewrite !append_empty_r, !append_assoc.
  - change (mappend (MCons k0 v0 (MCons k1 v1 r')) (MCons k v MNil))
      with (MCons k0 v0 (mappend (MCons k1 v1 r') (MCons k v MNil))).
    cbn [serialize_members] in *. cbn [mappend] in *.
    rewrite IH by discriminate.
    now rewrite !append_assoc.
Qed.

(** The bytes of the message are the bytes of the payload with the member
    "hash" put in before the closing brace. *)
Lemma createMessage_bytes (readings : SensorReadings) (farmId deviceId : string) :
  nul_free farmId = true -> nul_free deviceId = true ->
  message_pool_size readings farmId deviceId <= POOL_CAPACITY ->
  exists body : string,
    createPayload readings farmId deviceId = body ++ "}" /\
    createMessage readings farmId deviceId
    = body ++ dq ",'hash':'"
        ++ computeSHA256Hash (createPayload readings farmId deviceId) ++ dq "'}".
Proof.
  intros Hf Hd Hm. rewrite (createMessage_document _ _ _ Hf Hd Hm).
  set (h := computeSHA256Hash _).
  assert (Hh : all_lower_hex h = true) by apply all_lower_hex_hex_of_bytes.
  rewrite (createPayload_whole _ _ _ (message_room_payload_room _ _ _ Hm)).
  unfold whole_payload.
  set (ms := MCons "farmId" _ _).
  exists ("{" ++ serialize_members ms). split.
  - cbn [serializeJson]. now rewrite append_assoc.
  - change (doc_set (JObject ms) "hash" (JString h))
      with (JObject (members_set ms "hash" (JString h))).
    rewrite (members_set_fresh ms "hash" (JString h) eq_refl).
    cbn [serializeJson].
    rewrite serialize_members_snoc by (subst ms; discriminate).
    cbn [serializeJson]. unfold quote at 2. rewrite (escape_lower_hex h Hh).
    clearbody h. rewrite !append_assoc. do 2 f_equal.
    cbn. now rewrite append_assoc.
Qed.

(** C1, as the code has it.  For every reading and all identifiers (C
    strings) with which the message finds room in the pool of 512 bytes
    of its document, as it does whenever the two identifiers have 152
    bytes together at most: the payload is a document without a member
    "hash"; the message is read back as that document with one more
    member, "hash", whose value is the SHA-256 digest of the bytes of the
    payload in lowercase hexadecimal, 64 characters; taking "hash" out of
    the message and serializing the rest gives the bytes of the payload
    again, so that the digest computed over them anew is the one in the
    message; and the bytes of the message are those of the payload with
    the member "hash" before the closing brace. *)
Theorem createMessage_hash_is_payload_digest
  (readings : SensorReadings) (farmId deviceId : string) :
  nul_free farmId = true ->
  nul_free deviceId = true ->
  (Z.of_nat (String.length farmId + String.length deviceId) <= 152 ->
   message_pool_size readings farmId deviceId <= POOL_CAPACITY) /\
  (message_pool_size readings farmId deviceId <= POOL_CAPACITY ->
   let payload := createPayload readings farmId deviceId in
   let message := createMessage readings farmId deviceId in
   let digest := hex_of_bytes (sha256 (bytes_of_string payload)) in
   exists pdoc mdoc : JsonVariant,
     deserializeJson payload = Some pdoc /\
     doc_get pdoc "hash" = None /\
     deserializeJson message = Some mdoc /\
     doc_get mdoc "hash" = Some (JString digest) /\
     serializeJson (doc_remove mdoc "hash") = payload /\
     computeSHA256Hash (serializeJson (doc_remove mdoc "hash")) = digest /\
     String.length digest = 64%nat /\
     all_lower_hex digest = true /\
     exists body : string,
       payload = body ++ "}" /\
       message = body ++ dq ",'hash':'" ++ digest ++ dq "'}").
Proof.
  intros Hf Hd. split.
  { intros Hlen. pose proof (message_pool_size_bound readings farmId deviceId).
    unfold POOL_CAPACITY. lia. }
  intros Hm payload message digest.
  pose proof (message_room_payload_room _ _ _ Hm) as Hp.
  assert (Hhex : all_lower_hex digest = true) by apply all_lower_hex_hex_of_bytes.
  exists (whole_payload readings farmId deviceId),
         (doc_set (whole_payload readings farmId deviceId) "hash" (JString digest)).
  assert (Hrm : doc_remove (doc_set (whole_payload readings farmId deviceId)
                              "hash" (JString digest)) "hash"
                = whole_payload readings farmId deviceId) by reflexivity.
  split.
  { apply deserialize_createPayload; assumption. }
  split; [reflexivity|].
  split.
  { subst message. rewrite (createMessage_document _ _ _ Hf Hd Hm).
    apply deserialize_serialize, wf_message_document; trivial.
    now apply all_lower_hex_nul_free. }
  split; [reflexivity|].
  rewrite Hrm.
  split; [symmetry; now apply createPayload_whole|].
  split.
  { subst digest payload. now rewrite <- (createPayload_whole _ _ _ Hp). }
  split; [apply length_computeSHA256Hash|].
  split; [exact Hhex|].
  apply createMessage_bytes; assumption.
Qed.

Lemma createMessage_hash_is_payload_digest_witness :
  exists mdoc : JsonVariant,
    deserializeJson (createMessage scenario_reading "F1" "D1") = Some mdoc /\
    doc_get mdoc "hash"
    = Some (JString "de0be8e5f88ff5c3622baa1008a0883ebae56603ef826f4c4a402bba01b6ac67") /\
    computeSHA256Hash (createPayload scenario_reading "F1" "D1")
    = "de0be8e5f88ff5c3622baa1008a0883ebae56603ef826f4c4a402bba01b6ac67".
Proof.
  destruct (createMessage_hash_is_payload_digest scenario_reading "F1" "D1"
              eq_refl eq_refl) as [Hfits Hprop].
  assert (Hlen : Z.of_nat (String.length "F1" + String.length "D1") <= 152)
    by (vm_compute; discriminate).
  destruct (Hprop (Hfits Hlen)) as (pdoc & mdoc & _ & _ & M & H & _).
  exists mdoc. split; [exact M|]. split; [|vm_compute; reflexivity].
  rewrite H. vm_compute. reflexivity.
Defined.

(** C1 as stated fails: with a farm identifier of 200 bytes the payload
    finds room in its document, and so does the payload parsed in the
    document of [createMessage], with the slot of the member "hash"; the
    65 bytes of the digest do not, the message asking for 546 bytes in
    all.  The member "hash" of the message is null, not the digest. *)
Lemma createMessage_pool_counterexample :
  let payload := createPayload scenario_reading long_farm_id "D1" in
  let message := createMessage scenario_reading long_farm_id "D1" in
  nul_free long_farm_id = true /\
  String.length long_farm_id = 200%nat /\
  message_pool_size scenario_reading long_farm_id "D1" = 546 /\
  exists mdoc : JsonVariant,
    deserializeJson message = Some mdoc /\
    doc_get mdoc "hash" = Some JNull /\
    doc_get mdoc "hash" <> Some (JString (computeSHA256Hash payload)).
Proof.
  intros payload message.
  split; [vm_compute; reflexivity|].
  split; [vm_compute; reflexivity|].
  split; [vm_compute; reflexivity|].
  exists (doc_set (whole_payload scenario_reading long_farm_id "D1") "hash" JNull).
  split; [vm_compute; reflexivity|].
  assert (E : doc_get (doc_set (whole_payload scenario_reading long_farm_id "D1")
                         "hash" JNull) "hash" = Some JNull) by reflexivity.
  split; [exact E|]. rewrite E. discriminate.
Qed.

(** C2.  The reading of the scenario (45, 22.5, 25 and 60 as binary32
    values, timestamp 1700000000) with "F1" and "D1" gives exactly the
    payload of the specification; its timestamp and its four numbers are
    formatted as the specification has them. *)
Theorem createPayload_scenario :
  createPayload scenario_reading "F1" "D1"
  = dq "{'farmId':'F1','deviceId':'D1','timestamp':'2023-11-14T22:13:20Z','readings':{'soilMoisture':'45.00','soilTemperature':'22.50','airTemperature':'25.00','humidity':'60.00'}}" /\
  (within (soilMoisture scenario_reading) 45 45 /\
   within (soilTemperature scenario_reading) (45 # 2) (45 # 2) /\
   within (airTemperature scenario_reading) 25 25 /\
   within (humidity scenario_reading) 60 60 /\
   timestamp scenario_reading = 1700000000) /\
  formatISO8601 (timestamp scenario_reading) = "2023-11-14T22:13:20Z" /\
  formatFloat (soilMoisture scenario_reading) = "45.00" /\
  formatFloat (soilTemperature scenario_reading) = "22.50" /\
  formatFloat (airTemperature scenario_reading) = "25.00" /\
  formatFloat (humidity scenario_reading) = "60.00".
Proof.
  split; [vm_compute; reflexivity|].
  split.
  { repeat split;
      try (eexists; split; [reflexivity | split; vm_compute; discriminate]). }
  repeat split; vm_compute; reflexivity.
Qed.

(** SHA-256 on the test vectors of FIPS 180-4, and the digest of the
    scenario appended as "hash". *)
Example computeSHA256Hash_vectors :
  computeSHA256Hash "abc"
  = "ba7816bf8f01cfea414140de5dae2223b00361a396177a9cb410ff61f20015ad" /\
  computeSHA256Hash EmptyString
  = "e3b0c44298fc1c149afbf4c8996fb92427ae41e4649b934ca495991b7852b855" /\
  computeSHA256Hash "abcdbcdecdefdefgefghfghighijhijkijkljklmklmnlmnomnopnopq"
  = "248d6a61d20638b8e5c026930c3e6039a33ce45964ff2167f6ecedd419db06c1".
Proof. vm_compute. auto. Qed.

Example createMessage_scenario :
  createMessage scenario_reading "F1" "D1"
  = dq "{'farmId':'F1','deviceId':'D1','timestamp':'2023-11-14T22:13:20Z','readings':{'soilMoisture':'45.00','soilTemperature':'22.50','airTemperature':'25.00','humidity':'60.00'},'hash':'de0be8e5f88ff5c3622baa1008a0883ebae56603ef826f4c4a402bba01b6ac67'}".
Proof. vm_compute. reflexivity. Qed.

(* ================================================================== *)
(** * Part III: further properties of the code                         *)
(* ================================================================== *)

(** ** LocalStorage: what is read, errors, composition *)

Lemma is_record_trim (l : string) : is_record l = true -> trim l = l.
Proof.
  intros H. destruct (is_record_inv l H) as (_ & _ & Hl & Hr).
  unfold trim. now rewrite Hl.
Qed.

Lemma line_entry_trimmed (l : string) : is_record l = true -> line_entry l = [l].
Proof.
  intros H. unfold line_entry. rewrite (is_record_trim l H).
  destruct (is_record_inv l H) as (Hne & _). destruct l; [congruence | reflexivity].
Qed.

Lemma read_content_lf_line (l rest : string) :
  is_record l = true -> read_content (l ++ String LF rest) = l :: read_content rest.
Proof.
  intros H. destruct (is_record_inv l H) as (Hne & Hnl & _).
  rewrite read_content_step by (destruct l; [congruence | discriminate]).
  rewrite (readStringUntil_line l rest Hnl). cbn [fst snd].
  now rewrite (line_entry_trimmed l H).
Qed.

Lemma read_content_last_line (l : string) :
  is_record l = true -> read_content l = [l].
Proof.
  intros H. destruct (is_record_inv l H) as (Hne & Hnl & _).
  rewrite read_content_step by exact Hne.
  rewrite (readStringUntil_no_terminator l Hnl). cbn [fst snd].
  now rewrite (line_entry_trimmed l H), read_content_empty.
Qed.

Lemma read_content_unix_file_of (ls : list string) :
  Forall (fun l => is_record l = true) ls -> read_content (unix_file_of ls) = ls.
Proof.
  induction 1 as [|l ls Hl _ IH]; [reflexivity|].
  change (unix_file_of (l :: ls)) with (l ++ String LF (unix_file_of ls)).
  now rewrite (read_content_lf_line l _ Hl), IH.
Qed.

(** X1.  Whatever bytes the storage file holds, the entries that
    [getAllReadings] returns are not empty, hold no LF and have no blank at
    either end, and [getStoredCount] is their number. *)
Theorem getAllReadings_entries_clean (st : LocalStorage) :
  Forall (fun l => l <> EmptyString /\ newline_free l = true /\ trim l = l)
    (fst (getAllReadings st)) /\
  getStoredCount st = Z.of_nat (List.length (fst (getAllReadings st))).
Proof.
  split; [|reflexivity]. cbn [getAllReadings fst].
  eapply Forall_impl; [|apply readLines_records].
  intros l H. destruct (is_record_inv l H) as (Hne & Hnl & _).
  repeat split; trivial. now apply is_record_trim.
Qed.

(** X2.  On a mounted partition [writeLines] succeeds, and [readLines]
    gives back the lines written when they are records; writing back what
    [readLines] returned leaves the queue as it is, whatever the file held
    before. *)
Theorem writeLines_readLines_round_trip (fs : Spiffs) (ls : list string) :
  mounted fs = true ->
  Forall (fun l => is_record l = true) ls ->
  fst (writeLines fs ls) = true /\
  readLines (snd (writeLines fs ls)) = ls /\
  readLines (snd (writeLines fs (readLines fs))) = readLines fs.
Proof.
  intros Hm Hrec.
  assert (R : forall xs, Forall (fun l => is_record l = true) xs ->
                         readLines (snd (writeLines fs xs)) = xs).
  { intros xs Hxs. rewrite (writeLines_mounted fs xs Hm). cbn [snd].
    rewrite readLines_flash. cbn [mounted]. unfold flash_entries. cbn [storage_file].
    rewrite <- (append_empty_r (file_of xs)), (read_content_file_of xs _ Hxs).
    now rewrite read_content_empty, app_nil_r. }
  split; [now rewrite (writeLines_mounted fs ls Hm)|].
  split; [now apply R | apply R, readLines_records].
Qed.

Lemma writeLines_readLines_round_trip_witness :
  readLines (snd (writeLines (mkSpiffs true (Some "  x  ")) ["{a}"; "{b}"]))
  = ["{a}"; "{b}"].
Proof.
  apply (writeLines_readLines_round_trip (mkSpiffs true (Some "  x  ")) ["{a}"; "{b}"]);
    [reflexivity | repeat constructor].
Defined.

(** X3.  [readLines] takes a line that ends with LF alone like one that
    ends with CR LF, takes the bytes after the last terminator as a line
    of their own, and passes over blank lines: records come back from a
    file with LF line ends, from a file whose last line has no end, and
    from a file with blank lines in front. *)
Theorem readLines_line_ends (ls : list string) (l : string) :
  Forall (fun x => is_record x = true) ls ->
  is_record l = true ->
  readLines (mkSpiffs true (Some (unix_file_of ls))) = ls /\
  readLines (mkSpiffs true (Some (file_of ls ++ l))) = (ls ++ [l])%list /\
  readLines (mkSpiffs true (Some (CRLF ++ String LF (file_of ls)))) = ls.
Proof.
  intros Hls Hl. rewrite !readLines_flash. cbn [mounted].
  unfold flash_entries. cbn [storage_file].
  split; [now apply read_content_unix_file_of|].
  split.
  - now rewrite (read_content_file_of ls _ Hls), (read_content_last_line l Hl).
  - change (CRLF ++ String LF (file_of ls))
      with (EmptyString ++ CRLF ++ String LF (file_of ls)).
    rewrite (read_content_line EmptyString _ eq_refl).
    change (line_entry (EmptyString ++ String CR EmptyString)) with (@nil string).
    cbn [app].
    rewrite (read_content_step (String LF (file_of ls))) by discriminate.
    cbn [readStringUntil fst snd].
    change (Ascii.eqb LF LF) with true. cbn iota. cbn [fst snd].
    change (line_entry EmptyString) with (@nil string). cbn [app].
    rewrite <- (append_empty_r (file_of ls)), (read_content_file_of ls _ Hls).
    now rewrite read_content_empty, app_nil_r.
Qed.

Lemma readLines_line_ends_witness :
  readLines (mkSpiffs true (Some (unix_file_of ["{a}"; "{b}"]))) = ["{a}"; "{b}"] /\
  readLines (mkSpiffs true (Some (file_of ["{a}"] ++ "{b"))) = ["{a}"; "{b"].
Proof.
  destruct (readLines_line_ends ["{a}"; "{b}"] "{b") as (A & _);
    [repeat constructor | reflexivity |].
  destruct (readLines_line_ends ["{a}"] "{b") as (_ & B & _);
    [repeat constructor | reflexivity |].
  split; [exact A | exact B].
Defined.

(** X4.  While the partition is not mounted the queue reads as empty,
    [storeReading] and [clearReadings] fail, and neither changes
    anything. *)
Theorem LocalStorage_unmounted (st : LocalStorage) (m : string) :
  mounted (spiffs st) = false ->
  fst (getAllReadings st) = [] /\
  getStoredCount st = 0 /\
  storeReading st m = (false, st) /\
  clearReadings st = (false, st).
Proof.
  intros Hm.
  assert (R : readLines (spiffs st) = []) by now rewrite readLines_flash, Hm.
  split; [exact R|].
  split; [unfold getStoredCount; now rewrite R|].
  split; [now apply storeReading_unmounted|].
  unfold clearReadings, spiffs_remove, spiffs_exists. rewrite Hm. cbn.
  now destruct st.
Qed.

Lemma LocalStorage_unmounted_witness :
  let st := LocalStorage_new (mkSpiffs false (Some (file_of ["{a}"]))) in
  fst (getAllReadings st) = [] /\ storeReading st "{b}" = (false, st).
Proof.
  intros st.
  destruct (LocalStorage_unmounted st "{b}" eq_refl) as (A & _ & B & _).
  split; [exact A | exact B].
Defined.

Lemma readLines_clearReadings (st : LocalStorage) :
  readLines (spiffs (snd (clearReadings st))) = [].
Proof.
  unfold clearReadings, spiffs_remove, spiffs_call.
  rewrite !readLines_flash. unfold spiffs_exists, flash_entries.
  destruct (mounted (spiffs st)) eqn:Hm; simpl; rewrite ?Hm; [|reflexivity].
  destruct (storage_file (spiffs st)) eqn:Hf; simpl; rewrite ?Hm, ?Hf; reflexivity.
Qed.

(** X5.  [clearReadings] returns success exactly when the storage file was
    there to remove; on a queue that has no file, and so a second time in
    a row, it returns failure and changes nothing, although there is no
    entry left to clear. *)
Theorem clearReadings_reports_missing_file (st : LocalStorage) :
  (fst (clearReadings st) = true <->
   mounted (spiffs st) = true /\ storage_file (spiffs st) <> None) /\
  (fst (clearReadings st) = false -> clearReadings st = (false, st)) /\
  fst (clearReadings (snd (clearReadings st))) = false /\
  fst (getAllReadings (snd (clearReadings st))) = [].
Proof.
  split; [|split; [|split]].
  - unfold clearReadings, spiffs_remove, spiffs_exists.
    destruct (mounted (spiffs st)), (storage_file (spiffs st)); cbn; split;
      try discriminate; try (intros [? ?]; congruence); auto.
    split; [reflexivity | discriminate].
  - unfold clearReadings, spiffs_remove.
    destruct (spiffs_exists (spiffs st)); cbn; [discriminate|].
    intros _. now destruct st.
  - unfold clearReadings, spiffs_remove, spiffs_exists, spiffs_call.
    destruct (mounted (spiffs st)) eqn:Hm, (storage_file (spiffs st)) eqn:Hf;
      cbn; rewrite ?Hm, ?Hf; cbn; rewrite ?Hm, ?Hf; reflexivity.
  - apply readLines_clearReadings.
Qed.

(** X6.  After [clearReadings] a mounted queue of capacity at least 1 takes
    the next record, full or not before, and then holds that record
    alone. *)
Theorem clearReadings_then_storeReading (st : LocalStorage) (m : string) :
  mounted (spiffs st) = true ->
  1 <= maxReadings st ->
  is_record m = true ->
  fst (storeReading (snd (clearReadings st)) m) = true /\
  fst (getAllReadings (snd (storeReading (snd (clearReadings st)) m))) = [m].
Proof.
  intros Hm HC Hrec.
  pose proof (readLines_clearReadings st) as R.
  set (st1 := snd (clearReadings st)) in *.
  assert (M1 : maxReadings st1 = maxReadings st).
  { subst st1. unfold clearReadings.
    destruct (spiffs_remove (spiffs st)) as [[|] fs']; reflexivity. }
  assert (Hm1 : mounted (spiffs st1) = true).
  { subst st1. unfold clearReadings, spiffs_remove, spiffs_call, spiffs_exists.
    rewrite Hm. cbn. destruct (storage_file (spiffs st)); cbn; trivial. }
  assert (Hf : isFull st1 = false).
  { apply isFull_false. rewrite R, M1. simpl. lia. }
  rewrite (storeReading_stored st1 m Hf Hm1). cbn [fst snd getAllReadings spiffs].
  split; [reflexivity|].
  rewrite readLines_flash. cbn [mounted].
  rewrite flash_entries_stored by apply readLines_records.
  now rewrite R, (entries_of_record m Hrec).
Qed.

Lemma clearReadings_then_storeReading_witness :
  let full := snd (store_all (mkLocalStorage 2 (mkSpiffs true None)) ["{a}"; "{b}"]) in
  isFull full = true /\
  fst (getAllReadings (snd (storeReading (snd (clearReadings full)) "{c}"))) = ["{c}"].
Proof.
  intros full. split; [reflexivity|].
  apply (clearReadings_then_storeReading full "{c}"); [reflexivity | | reflexivity].
  vm_compute. discriminate.
Defined.

(** X7.  With a capacity of zero or less the queue is always full:
    [storeReading] fails for every message and leaves the storage as it
    is. *)
Theorem storeReading_no_capacity (st : LocalStorage) (m : string) :
  maxReadings st <= 0 ->
  isFull st = true /\ storeReading st m = (false, st).
Proof.
  intros HC.
  assert (Hf : isFull st = true).
  { apply isFull_spec. lia. }
  split; [exact Hf | now apply storeReading_full].
Qed.

Lemma storeReading_no_capacity_witness :
  storeReading (mkLocalStorage 0 (mkSpiffs true None)) "{a}"
  = (false, mkLocalStorage 0 (mkSpiffs true None)).
Proof.
  apply (storeReading_no_capacity (mkLocalStorage 0 (mkSpiffs true None)) "{a}").
  simpl. lia.
Defined.

(** ** DataProcessor: the text of payloads and messages *)

Lemma escape_char_some_visible (c e : ascii) :
  escape_char c = Some e -> Ascii.eqb e LF = false.
Proof.
  unfold escape_char.
  repeat match goal with
         | |- context [Ascii.eqb c ?x] =>
             destruct (Ascii.eqb c x); [intros [= <-]; reflexivity|]
         end.
  discriminate.
Qed.

Lemma escape_char_none_not_lf (c : ascii) :
  escape_char c = None -> Ascii.eqb c LF = false.
Proof.
  unfold escape_char.
  repeat match goal with
         | |- context [if Ascii.eqb c ?x then _ else _] =>
             let E := fresh "E" in
             destruct (Ascii.eqb c x) eqn:E; [discriminate|]
         end.
  intros _. first [reflexivity | assumption].
Qed.

Lemma newline_free_escape (s : string) : newline_free (escape s) = true.
Proof.
  induction s as [|c s IH]; [reflexivity|].
  cbn [escape]. destruct (escape_char c) as [e|] eqn:E.
  - cbn [newline_free]. now rewrite (escape_char_some_visible c e E), IH.
  - destruct (Ascii.eqb c NUL).
    + rewrite newline_free_append, IH. reflexivity.
    + cbn [newline_free]. now rewrite (escape_char_none_not_lf c E), IH.
Qed.

Lemma newline_free_quote (s : string) : newline_free (quote s) = true.
Proof.
  unfold quote. cbn [newline_free].
  now rewrite newline_free_append, newline_free_escape.
Qed.

Lemma newline_free_serializeJson :
  (forall v : JsonVariant, newline_free (serializeJson v) = true) /\
  (forall ms : JsonMembers, newline_free (serialize_members ms) = true).
Proof.
  apply Json_mutind.
  - reflexivity.
  - intros s. apply newline_free_quote.
  - intros ms IH. cbn [serializeJson].
    now rewrite !newline_free_append, IH.
  - reflexivity.
  - intros k v IHv r IHr. cbn [serialize_members].
    rewrite !newline_free_append, newline_free_quote, IHv.
    destruct r; [reflexivity|].
    now rewrite newline_free_append, IHr.
Qed.

Lemma rtrim_append_visible (s : string) (c : ascii) :
  isspace c = false -> rtrim (s ++ String c EmptyString) = s ++ String c EmptyString.
Proof.
  intros Hc. induction s as [|a s IH]; cbn [append rtrim].
  - now rewrite Hc.
  - rewrite IH. destruct (s ++ String c EmptyString) eqn:E.
    + destruct s; discriminate.
    + now rewrite andb_false_r.
Qed.

Lemma is_record_framed (c0 c1 : ascii) (mid : string) :
  isspace c0 = false -> isspace c1 = false ->
  newline_free (String c0 (mid ++ String c1 EmptyString)) = true ->
  is_record (String c0 (mid ++ String c1 EmptyString)) = true.
Proof.
  intros H0 H1 Hnl. unfold is_record. rewrite Hnl. cbn [is_empty negb andb].
  rewrite andb_true_r. apply String.eqb_eq.
  unfold trim. cbn [ltrim]. rewrite H0.
  change (String c0 (mid ++ String c1 EmptyString))
    with (String c0 mid ++ String c1 EmptyString).
  now apply rtrim_append_visible.
Qed.

(** Whatever the document, its compact form is a record of the queue. *)
Lemma is_record_serializeJson (v : JsonVariant) : is_record (serializeJson v) = true.
Proof.
  pose proof (proj1 newline_free_serializeJson v) as Hnl.
  destruct v as [|s|ms].
  - reflexivity.
  - cbn [serializeJson] in *. unfold quote in *.
    now apply is_record_framed.
  - cbn [serializeJson] in *.
    change ("{" ++ serialize_members ms ++ "}")
      with (String "{" (serialize_members ms ++ String "}" EmptyString)) in *.
    now apply is_record_framed.
Qed.

(** X8.  Every message [createMessage] builds, and every payload, is one
    line, not blank, without blanks at its ends; so a message that
    [storeReading] accepts is returned by [getAllReadings] byte for byte,
    behind the entries held before. *)
Theorem createMessage_stored_verbatim
  (readings : SensorReadings) (farmId deviceId : string) (st : LocalStorage) :
  let message := createMessage readings farmId deviceId in
  is_record (createPayload readings farmId deviceId) = true /\
  is_record message = true /\
  (fst (storeReading st message) = true ->
   fst (getAllReadings (snd (storeReading st message)))
   = (fst (getAllReadings st) ++ [message])%list).
Proof.
  intros message.
  assert (Hrec : is_record message = true).
  { subst message. unfold createMessage. cbv zeta. apply is_record_serializeJson. }
  split; [apply is_record_serializeJson|].
  split; [exact Hrec|].
  intros Hok. cbn [getAllReadings fst].
  now rewrite readLines_storeReading, Hok, (entries_of_record message Hrec).
Qed.

Lemma createMessage_stored_verbatim_witness :
  let st := LocalStorage_new (mkSpiffs true None) in
  fst (getAllReadings (snd (storeReading st (createMessage scenario_reading "F1" "D1"))))
  = [createMessage scenario_reading "F1" "D1"].
Proof.
  intros st.
  apply (createMessage_stored_verbatim scenario_reading "F1" "D1" st).
  vm_compute. reflexivity.
Defined.

(** X9.  For identifiers that are C strings, whatever bytes they hold
    (quotes, backslashes, control characters), with which the payload
    finds room in the pool of 512 bytes of its document (eight slots of 16
    bytes and its seven strings, each with a final zero), the payload is
    read back by the parser as the document with the members farmId,
    deviceId, timestamp and readings in this order, the identifiers
    unchanged, and readings holding soilMoisture, soilTemperature,
    airTemperature and humidity in this order. *)
Theorem createPayload_parses_back
  (readings : SensorReadings) (farmId deviceId : string) :
  nul_free farmId = true ->
  nul_free deviceId = true ->
  payload_pool_size readings farmId deviceId <= POOL_CAPACITY ->
  deserializeJson (createPayload readings farmId deviceId)
  = Some
      (JObject
         (MCons "farmId" (JString farmId)
         (MCons "deviceId" (JString deviceId)
         (MCons "timestamp" (JString (formatISO8601 (timestamp readings)))
         (MCons "readings"
            (JObject
               (MCons "soilMoisture" (JString (formatFloat (soilMoisture readings)))
               (MCons "soilTemperature" (JString (formatFloat (soilTemperature readings)))
               (MCons "airTemperature" (JString (formatFloat (airTemperature readings)))
               (MCons "humidity" (JString (formatFloat (humidity readings))) MNil)))))
          MNil))))).
Proof.
  intros Hf Hd Hp. exact (deserialize_createPayload readings _ _ Hf Hd Hp).
Qed.

Lemma createPayload_parses_back_witness :
  let farm := dq "a'b\c" ++ String LF "d" in
  exists rest : JsonMembers,
    deserializeJson (createPayload scenario_reading farm "D1")
    = Some (JObject (MCons "farmId" (JString farm) rest)).
Proof.
  intros farm. eexists.
  apply (createPayload_parses_back scenario_reading farm "D1");
    [reflexivity | reflexivity | vm_compute; discriminate].
Defined.

(** X10.  For every input [computeSHA256Hash] returns 64 characters, each
    of them one of 0-9 and a-f. *)
Theorem computeSHA256Hash_shape (payload : string) :
  String.length (computeSHA256Hash payload) = 64%nat /\
  all_lower_hex (computeSHA256Hash payload) = true.
Proof.
  split; [apply length_computeSHA256Hash | apply all_lower_hex_hex_of_bytes].
Qed.

(** ** DataProcessor: the timestamp text *)

(** X11.  For every timestamp the text of [formatISO8601] has 20 bytes, so
    that it fits the buffer of 25, with the hyphens, T, the colons and Z
    at their places: it is the date on 10 bytes, T, the time on 8 bytes,
    and Z. *)
Theorem formatISO8601_shape (timestamp : Z) :
  String.length (formatISO8601 timestamp) = 20%nat /\
  exists date time : string,
    formatISO8601 timestamp = date ++ "T" ++ time ++ "Z" /\
    String.length date = 10%nat /\ String.length time = 8%nat /\
    String.get 4 date = Some "-"%char /\ String.get 7 date = Some "-"%char /\
    String.get 2 time = Some ":"%char /\ String.get 5 time = Some ":"%char.
Proof.
  pose proof (uint32_wrap_range timestamp) as R.
  set (raw := uint32_wrap timestamp) in *.
  assert (Hd : 0 <= raw / 86400 < 49711)
    by (split; [apply Z.div_pos; lia | apply Z.div_lt_upper_bound; lia]).
  assert (Hs : 0 <= raw mod 86400 < 86400) by (apply Z.mod_pos_bound; lia).
  rewrite formatISO8601_parts. fold raw.
  pose proof (date_text_length _ Hd) as Ld.
  pose proof (time_text_length _ Hs) as Lt.
  split; [rewrite !length_append, Ld, Lt; reflexivity|].
  exists (date_text (raw / 86400)), (time_text (raw mod 86400)).
  split; [reflexivity|]. split; [exact Ld|]. split; [exact Lt|].
  split; [|split; [|split]].
  - unfold date_text.
    destruct (civil_from_days_range _ Hd) as (y & m & d & E & Hy & Hm & Hdd & _).
    rewrite E. destruct (year_text y Hy) as [Ly _].
    destruct (dec y) as [|c0 [|c1 [|c2 [|c3 [|c4 r]]]]]; try discriminate Ly.
    reflexivity.
  - unfold date_text.
    destruct (civil_from_days_range _ Hd) as (y & m & d & E & Hy & Hm & Hdd & _).
    rewrite E. destruct (year_text y Hy) as [Ly _].
    destruct (pad2_text m ltac:(lia)) as [Lm _].
    destruct (dec y) as [|c0 [|c1 [|c2 [|c3 [|c4 r]]]]]; try discriminate Ly.
    destruct (pad2 m) as [|m0 [|m1 [|m2 r]]]; try discriminate Lm.
    reflexivity.
  - unfold time_text.
    assert (H1 : 0 <= raw mod 86400 / 3600 <= 99)
      by (split; [apply Z.div_pos; lia | apply Z.div_le_upper_bound; lia]).
    destruct (pad2_text _ H1) as [L1 _].
    destruct (pad2 (raw mod 86400 / 3600)) as [|m0 [|m1 [|m2 r]]]; try discriminate L1.
    reflexivity.
  - unfold time_text.
    assert (H1 : 0 <= raw mod 86400 / 3600 <= 99)
      by (split; [apply Z.div_pos; lia | apply Z.div_le_upper_bound; lia]).
    assert (H2 : 0 <= (raw mod 86400) mod 3600 / 60 <= 99).
    { pose proof (Z.mod_pos_bound (raw mod 86400) 3600 ltac:(lia)).
      split; [apply Z.div_pos; lia | apply Z.div_le_upper_bound; lia]. }
    destruct (pad2_text _ H1) as [L1 _]. destruct (pad2_text _ H2) as [L2 _].
    destruct (pad2 (raw mod 86400 / 3600)) as [|m0 [|m1 [|m2 r]]]; try discriminate L1.
    destruct (pad2 ((raw mod 86400) mod 3600 / 60)) as [|n0 [|n1 [|n2 r]]];
      try discriminate L2.
    reflexivity.
Qed.

(** X12.  Two timestamps with the same text are the same [unsigned long]:
    [formatISO8601] loses nothing of the timestamp. *)
Theorem formatISO8601_injective (t1 t2 : Z) :
  formatISO8601 t1 = formatISO8601 t2 -> uint32_wrap t1 = uint32_wrap t2.
Proof.
  intros E. rewrite !formatISO8601_parts in E.
  pose proof (uint32_wrap_range t1) as R1. pose proof (uint32_wrap_range t2) as R2.
  set (a := uint32_wrap t1) in *. set (b := uint32_wrap t2) in *.
  assert (Ha : 0 <= a / 86400 < 49711)
    by (split; [apply Z.div_pos; lia | apply Z.div_lt_upper_bound; lia]).
  assert (Hb : 0 <= b / 86400 < 49711)
    by (split; [apply Z.div_pos; lia | apply Z.div_lt_upper_bound; lia]).
  assert (Sa : 0 <= a mod 86400 < 86400) by (apply Z.mod_pos_bound; lia).
  assert (Sb : 0 <= b mod 86400 < 86400) by (apply Z.mod_pos_bound; lia).
  apply append_inj_length in E as [Ed E];
    [|now rewrite !date_text_length].
  cbn [append] in E. injection E as E.
  apply append_inj_length in E as [Et _];
    [|now rewrite !time_text_length].
  apply date_text_injective in Ed; trivial.
  apply time_text_injective in Et; trivial.
  rewrite (Z.div_mod a 86400), (Z.div_mod b 86400) by lia. congruence.
Qed.

Lemma formatISO8601_injective_witness :
  uint32_wrap 1700000000 = uint32_wrap (1700000000 + 2 ^ 32).
Proof.
  apply (formatISO8601_injective 1700000000 (1700000000 + 2 ^ 32)).
  vm_compute. reflexivity.
Defined.

(** ** MQTTClientManager: topic, payload and blocking time *)

Lemma total_delay_timeline (evs : list Event) :
  total_delay evs = timeline_delay (timeline evs).
Proof.
  induction evs as [|e evs IH]; [reflexivity|].
  destruct e; cbn [total_delay timeline timeline_delay]; now rewrite IH.
Qed.

Lemma tries_carry_app (topic payload : string) (a b : list Event) :
  tries_carry topic payload a -> tries_carry topic payload b ->
  tries_carry topic payload (a ++ b).
Proof. intros Ha Hb. apply Forall_app. now split. Qed.

Section MQTTClientManagerFrame.
Context {W : Type} {client : PubSubClient W}.

Lemma carries_refl (message : string) (st : MQTTClientManager W) :
  carries message st st.
Proof.
  split; [repeat split|]. exists []. rewrite app_nil_r. split; [reflexivity|constructor].
Qed.

Lemma carries_trans (message : string) (a b c : MQTTClientManager W) :
  carries message a b -> carries message b c -> carries message a c.
Proof.
  intros [(F1 & D1 & P1 & S1) (e1 & E1 & C1)] [(F2 & D2 & P2 & S2) (e2 & E2 & C2)].
  split; [repeat split; congruence|].
  exists (e1 ++ e2)%list. split; [now rewrite E2, E1, app_assoc|].
  apply tries_carry_app; [exact C1 | now rewrite <- P1].
Qed.

Lemma carries_no_try (message : string) (st st' : MQTTClientManager W) (evs : list Event) :
  same_config st st' -> events st' = (events st ++ evs)%list ->
  Forall (fun e => match e with EvPublish _ _ _ => False | _ => True end) evs ->
  carries message st st'.
Proof.
  intros C E F. split; [exact C|]. exists evs. split; [exact E|].
  unfold tries_carry. eapply Forall_impl; [|exact F].
  intros [ms|ok|t p a] H; [exact I | exact I | destruct H].
Qed.

Lemma carries_isConnected (message : string) (st : MQTTClientManager W) :
  carries message st (snd (isConnected st)).
Proof.
  unfold isConnected. destruct (pc_connected (mqttClient st)) as [c w].
  apply (carries_no_try message _ _ []); [repeat split | cbn; now rewrite app_nil_r | constructor].
Qed.

Lemma carries_connect (message : string) (st : MQTTClientManager W) :
  carries message st (snd (connect st)).
Proof.
  unfold connect. destruct (pc_connected (mqttClient st)) as [c w1].
  destruct c.
  { apply (carries_no_try message _ _ []);
      [repeat split | cbn; now rewrite app_nil_r | constructor]. }
  destruct (pc_connect (deviceId st) w1) as [ok w2].
  destruct ok.
  - destruct (pc_subscribe (subscribeTopic st) w2) as [sub w3].
    apply (carries_no_try message _ _ [EvConnect true]);
      [repeat split | reflexivity | repeat constructor].
  - apply (carries_no_try message _ _ [EvConnect false]);
      [repeat split | reflexivity | repeat constructor].
Qed.

Lemma carries_retry_prelude (message : string) (attempt : Z) (st : MQTTClientManager W) :
  carries message st (retry_prelude attempt st).
Proof.
  unfold retry_prelude. destruct (0 <? attempt); [|apply carries_refl].
  set (st1 := emit _ _).
  assert (C1 : carries message st st1).
  { apply (carries_no_try message _ _ [EvDelay (getBackoffDelay attempt)]);
      [repeat split | reflexivity | repeat constructor]. }
  pose proof (carries_isConnected message st1) as C2.
  destruct (isConnected st1) as [c st2]. cbn [snd] in C2.
  destruct c; cbn [negb].
  - eapply carries_trans; eassumption.
  - eapply carries_trans; [exact C1|].
    eapply carries_trans; [exact C2 | apply carries_connect].
Qed.

Lemma carries_publish_loop (message : string) (rounds : nat) :
  forall (attempt : Z) (st : MQTTClientManager W),
    carries message st (snd (publish_loop rounds attempt message st)).
Proof.
  induction rounds as [|rounds IH]; intros attempt st; [apply carries_refl|].
  cbn [publish_loop].
  pose proof (carries_retry_prelude message attempt st) as C1.
  set (st1 := retry_prelude attempt st) in *.
  destruct (pc_publish (publishTopic st1) message (mqttClient st1)) as [ack w].
  set (st2 := emit _ _).
  assert (C2 : carries message st1 st2).
  { split; [repeat split|].
    exists [EvPublish (publishTopic st1) message ack]. split; [reflexivity|].
    constructor; [split; reflexivity | constructor]. }
  pose proof (carries_trans _ _ _ _ C1 C2) as C.
  destruct ack; [exact C|].
  eapply carries_trans; [exact C | apply IH].
Qed.

Lemma carries_publishWithRetry (message : string) (maxRetries : Z)
  (st : MQTTClientManager W) :
  carries message st (snd (publishWithRetry message maxRetries st)).
Proof.
  unfold publishWithRetry.
  eapply carries_trans; [|apply carries_publish_loop].
  apply (carries_no_try message _ _ []);
    [repeat split | cbn; now rewrite app_nil_r | constructor].
Qed.

Lemma carries_publish (message : string) (st : MQTTClientManager W) :
  carries message st (snd (publish message st)).
Proof.
  unfold publish.
  pose proof (carries_isConnected message st) as C1.
  destruct (isConnected st) as [c st1]. cbn [snd] in C1.
  destruct c; cbn [negb].
  - eapply carries_trans; [exact C1 | apply carries_publishWithRetry].
  - pose proof (carries_connect message st1) as C2.
    destruct (connect st1) as [ok st2]. cbn [snd] in C2.
    pose proof (carries_trans _ _ _ _ C1 C2) as C.
    destruct ok; cbn [negb]; [|exact C].
    eapply carries_trans; [exact C | apply carries_publishWithRetry].
Qed.

End MQTTClientManagerFrame.

(** X13.  In every world, after [begin] with the farm [farm], every
    delivery try of a call of [publish] goes to the topic
    carbonready/farm/<farm>/sensor/data and carries the message handed in,
    unchanged; the call leaves the farm, the device and the two topics of
    the manager as [begin] set them. *)
Theorem publish_topic_and_message
  (W : Type) (client : PubSubClient W) (farm device message : string)
  (st0 : MQTTClientManager W) :
  let st := snd (mqtt_begin farm device st0) in
  let st' := snd (publish message st) in
  (exists evs : list Event,
     events st' = (events st ++ evs)%list /\
     tries_carry ("carbonready/farm/" ++ farm ++ "/sensor/data") message evs) /\
  farmId st' = farm /\ deviceId st' = device /\
  publishTopic st' = "carbonready/farm/" ++ farm ++ "/sensor/data" /\
  subscribeTopic st' = "carbonready/farm/" ++ farm ++ "/commands".
Proof.
  intros st st'.
  destruct (carries_publish message st) as [(F & D & P & S) (evs & E & C)].
  split; [exists evs; split; [exact E | exact C]|].
  fold st' in F, D, P, S. rewrite F, D, P, S. repeat split.
Qed.

(** X14.  In every world, the time one call of [publish] spends in
    [::delay] is [RETRY_DELAY_BASE_MS * (2^n - 2)] for its [n >= 1]
    delivery tries, nothing when the first try is acknowledged or no try
    is made, and 28000 ms at most. *)
Theorem publish_total_delay
  (W : Type) (client : PubSubClient W) (message : string)
  (st : MQTTClientManager W) :
  exists evs : list Event,
    events (snd (publish message st)) = (events st ++ evs)%list /\
    total_delay evs
    = (if Nat.eqb (tries evs) 0 then 0
       else RETRY_DELAY_BASE_MS * (2 ^ Z.of_nat (tries evs) - 2)) /\
    0 <= total_delay evs <= 28000 /\
    (acks evs = [true] \/ acks evs = [] <-> total_delay evs = 0).
Proof.
  destruct (publish_spec message st) as (evs & E & T & Hn & H).
  exists evs. split; [exact E|].
  rewrite total_delay_timeline, T.
  assert (A : List.length (acks evs) = tries evs) by reflexivity.
  assert (Hacks : acks evs = [] \/ (exists n, acks evs = (repeat false n ++ [true])%list)
                  \/ acks evs = repeat false 4).
  { destruct (link_up st).
    - destruct (fst (publish message st)).
      + destruct H as (n & _ & H & _). right. left. now exists n.
      + destruct H as (H & _). right. right. exact H.
    - destruct H as (_ & H & _). now left. }
  unfold MAX_RETRIES in Hn.
  destruct (tries evs) as [|[|[|[|[|n]]]]] eqn:En; try lia; cbn; (split; [reflexivity|]);
    (split; [lia|]).
  - split; [reflexivity|]. intros _. right.
    destruct (acks evs); [reflexivity | discriminate A].
  - split; [reflexivity|]. intros _. left.
    destruct Hacks as [Ha|[(n & Ha)|Ha]]; rewrite Ha in A |- *.
    + discriminate A.
    + rewrite length_app, repeat_length in A. cbn in A.
      assert (n = 0%nat) by lia. subst n. reflexivity.
    + discriminate A.
  - split; [|discriminate]. intros [Ha|Ha]; rewrite Ha in A; discriminate A.
  - split; [|discriminate]. intros [Ha|Ha]; rewrite Ha in A; discriminate A.
  - split; [|discriminate]. intros [Ha|Ha]; rewrite Ha in A; discriminate A.
Qed.

(** X15.  Up to the 20th retry the backoff is computed without overflow:
    [getBackoffDelay] is [RETRY_DELAY_BASE_MS * 2^k], each delay twice the
    one before. *)
Theorem getBackoffDelay_doubles (k : Z) :
  0 <= k < 20 ->
  getBackoffDelay k = RETRY_DELAY_BASE_MS * 2 ^ k /\
  getBackoffDelay (k + 1) = 2 * getBackoffDelay k /\
  0 < getBackoffDelay k < getBackoffDelay (k + 1).
Proof.
  intros Hk. rewrite !getBackoffDelay_pow by lia.
  rewrite Z.pow_add_r by lia. change (2 ^ 1) with 2.
  assert (0 < 2 ^ k) by (apply Z.pow_pos_nonneg; lia).
  unfold RETRY_DELAY_BASE_MS. lia.
Qed.

Lemma getBackoffDelay_doubles_witness :
  getBackoffDelay 3 = RETRY_DELAY_BASE_MS * 2 ^ 3 /\
  getBackoffDelay (3 + 1) = 2 * getBackoffDelay 3 /\
  0 < getBackoffDelay 3 < getBackoffDelay (3 + 1).
Proof. apply (getBackoffDelay_doubles 3). lia. Defined.

(** X16.  [publishWithRetry] with any bound up to 20, in every world: it
    makes at most [maxRetries + 1] delivery tries, none when the bound is
    negative; it returns success exactly when a try is acknowledged, and
    then the retry count is the number of tries less one; it returns
    failure with all the tries made and the retry count at the bound. *)
Theorem publishWithRetry_tries
  (W : Type) (client : PubSubClient W) (message : string) (maxRetries : Z)
  (st : MQTTClientManager W) :
  maxRetries <= 20 ->
  let r := publishWithRetry message maxRetries st in
  exists evs : list Event,
    events (snd r) = (events st ++ evs)%list /\
    Z.of_nat (tries evs) <= Z.max 0 (maxRetries + 1) /\
    (fst r = true <-> In true (acks evs)) /\
    (if fst r
     then Z.of_nat (tries evs) = getLastRetryCount (snd r) + 1
     else Z.of_nat (tries evs) = Z.max 0 (maxRetries + 1) /\
          getLastRetryCount (snd r) = Z.max 0 maxRetries).
Proof.
  intros Hm r. subst r.
  destruct (Z.lt_ge_cases maxRetries 0) as [Hneg|Hpos].
  - unfold publishWithRetry.
    replace (Z.to_nat (maxRetries + 1)) with 0%nat by lia.
    exists []. cbn. rewrite app_nil_r.
    split; [reflexivity|]. split; [lia|].
    split; [split; [discriminate | intros []]|]. lia.
  - destruct (publishWithRetry_spec message maxRetries st) as (evs & E & _ & Hn & H);
      [lia|].
    exists evs. split; [exact E|]. split; [lia|].
    unfold getLastRetryCount.
    destruct (fst (publishWithRetry message maxRetries st)).
    + destruct H as (n & Hle & A & L). unfold tries. rewrite A, L.
      split; [split; [intros _; apply in_or_app; right; now left | reflexivity]|].
      rewrite length_app, repeat_length. cbn. lia.
    + destruct H as (A & L). unfold tries. rewrite A, L, repeat_length.
      split; [|lia].
      split; [discriminate|]. intros Hin. apply repeat_spec in Hin. discriminate.
Qed.

Lemma publishWithRetry_tries_witness :
  exists evs : list Event,
    events (snd (publishWithRetry (client := Scripted) "m" 5
                   (MQTTClientManager_new [false; true])))
    = evs /\ tries evs = 2%nat.
Proof.
  destruct (publishWithRetry_tries (list bool) Scripted "m" 5
              (MQTTClientManager_new [false; true])) as (evs & E & _); [lia|].
  exists evs. split; [exact E|].
  cbn in E. subst evs. reflexivity.
Defined.

(** ** SensorManager: failed sensors, NaN, and the soil moisture scale *)

Lemma validateReading_marker (lo hi : spec_float) :
  validateReading INVALID_READING lo hi = false.
Proof. reflexivity. Qed.

Lemma sf_eqb_eq (x y : spec_float) : sf_eqb x y = true -> x = y.
Proof.
  destruct x as [a|a| |s m e], y as [b|b| |s' m' e']; simpl; try discriminate.
  - intros H. apply Bool.eqb_prop in H. now subst.
  - intros H. apply Bool.eqb_prop in H. now subst.
  - reflexivity.
  - intros H. apply andb_true_iff in H as [H He]. apply andb_true_iff in H as [Hs Hm].
    apply Bool.eqb_prop in Hs. apply Pos.eqb_eq in Hm. apply Z.eqb_eq in He.
    now subst.
Qed.

Lemma readSoilMoisture_adc (inp : SensorInputs) :
  readSoilMoisture inp = readSoilMoisture (adc_inputs (analogRead inp)).
Proof. reflexivity. Qed.

Lemma moisture_check_all (raw : Z) : 0 <= raw < 4096 -> moisture_check raw = true.
Proof.
  intros H.
  apply (Zrange_forallb moisture_check 4096 0); [vm_cast_no_check (eq_refl true) | lia].
Qed.

Lemma fle_trans_within (a b c : spec_float) (lo hi : Q) :
  within a lo hi -> within b lo hi -> within c lo hi ->
  fle a b = true -> fle b c = true -> fle a c = true.
Proof.
  intros (qa & Ha & _) (qb & Hb & _) (qc & Hc & _) H1 H2.
  apply (fle_numbers a b qa qb Ha Hb) in H1.
  apply (fle_numbers b c qb qc Hb Hc) in H2.
  apply (fle_numbers a c qa qc Ha Hc). lra.
Qed.

Lemma fle_refl_within (a : spec_float) (lo hi : Q) : within a lo hi -> fle a a = true.
Proof.
  intros (qa & Ha & _). apply (fle_numbers a a qa qa Ha Ha). lra.
Qed.

(** The reading [n] steps of the ADC further on. *)
Lemma moisture_steps (n : nat) : forall a : Z,
  0 <= a -> a + Z.of_nat n < 4097 ->
  fle (readSoilMoisture (adc_inputs (a + Z.of_nat n))) (readSoilMoisture (adc_inputs a))
  = true.
Proof.
  induction n as [|n IH]; intros a Ha Hb.
  - rewrite Z.add_0_r. eapply fle_refl_within, readSoilMoisture_within.
  - specialize (IH a Ha ltac:(lia)).
    pose proof (moisture_check_all (a + Z.of_nat n) ltac:(lia)) as C.
    unfold moisture_check in C. cbv zeta in C.
    apply andb_true_iff in C as [C _]. apply andb_true_iff in C as [C _].
    apply andb_true_iff in C as [C _].
    replace (a + Z.of_nat (S n)) with (a + Z.of_nat n + 1) by lia.
    eapply fle_trans_within; try apply readSoilMoisture_within; eassumption.
Qed.

Lemma moisture_step_strict (a : Z) :
  SOIL_MOISTURE_WET <= a < SOIL_MOISTURE_DRY ->
  flt (readSoilMoisture (adc_inputs (a + 1))) (readSoilMoisture (adc_inputs a)) = true.
Proof.
  intros H. unfold SOIL_MOISTURE_WET, SOIL_MOISTURE_DRY in H.
  pose proof (moisture_check_all a ltac:(lia)) as C.
  unfold moisture_check in C. cbv zeta in C.
  apply andb_true_iff in C as [_ C].
  replace ((SOIL_MOISTURE_WET <=? a) && (a <? SOIL_MOISTURE_DRY))%bool with true in C;
    [exact C|].
  symmetry. apply andb_true_iff. unfold SOIL_MOISTURE_WET, SOIL_MOISTURE_DRY.
  split; [apply Z.leb_le | apply Z.ltb_lt]; lia.
Qed.

(** X17.  A sensor that failed makes the reading invalid: when the DS18B20
    or the DHT22 was not initialized, the DS18B20 reports a disconnected
    device, or the DHT22 delivers NaN for the temperature or the humidity,
    [readAllSensors] puts the marker -999 into the field of that sensor
    and returns [valid = false], whatever the other sensors deliver. *)
Theorem readAllSensors_failed_sensor (mgr : SensorManager) (inp : SensorInputs) :
  let r := readAllSensors mgr inp in
  (ds18b20Initialized mgr = false \/
   feq (getTempCByIndex inp) DEVICE_DISCONNECTED_C = true ->
   soilTemperature r = INVALID_READING /\ valid r = false) /\
  (dht22Initialized mgr = false \/ is_nan (dht_readTemperature inp) = true ->
   airTemperature r = INVALID_READING /\ valid r = false) /\
  (dht22Initialized mgr = false \/ is_nan (dht_readHumidity inp) = true ->
   humidity r = INVALID_READING /\ valid r = false).
Proof.
  intros r. subst r. unfold readAllSensors.
  cbn [soilTemperature airTemperature humidity valid].
  split; [|split].
  - intros H.
    assert (E : readSoilTemperature mgr inp = INVALID_READING).
    { unfold readSoilTemperature. destruct H as [-> | ->]; [reflexivity|].
      now destruct (negb _). }
    rewrite E, validateReading_marker. split; [reflexivity|].
    now rewrite andb_false_r.
  - intros H.
    assert (E : readAirTemperature mgr inp = INVALID_READING).
    { unfold readAirTemperature. destruct H as [-> | ->]; [reflexivity|].
      now destruct (negb _). }
    rewrite E, validateReading_marker. split; [reflexivity|].
    now rewrite andb_false_r.
  - intros H.
    assert (E : readHumidity mgr inp = INVALID_READING).
    { unfold readHumidity. destruct H as [-> | ->]; [reflexivity|].
      now destruct (negb _). }
    rewrite E, validateReading_marker. split; [reflexivity|].
    now rewrite andb_false_r.
Qed.

Lemma readAllSensors_failed_sensor_witness :
  soilTemperature (readAllSensors sensors_ready disconnected_inputs) = INVALID_READING /\
  valid (readAllSensors sensors_ready disconnected_inputs) = false.
Proof.
  pose proof (readAllSensors_failed_sensor sensors_ready disconnected_inputs) as H.
  cbv zeta in H. destruct H as (H & _). apply H. right. reflexivity.
Defined.

(** X18.  [begin] returns true exactly when a DS18B20 was found.  After a
    [begin] that returned false, and on a manager that was never begun,
    every reading of [readAllSensors] is invalid. *)
Theorem sensor_begin_reports_missing_probe (deviceCount : Z) (inp : SensorInputs) :
  (fst (sensor_begin deviceCount SensorManager_new) = true <-> 0 < deviceCount) /\
  (fst (sensor_begin deviceCount SensorManager_new) = false ->
   valid (readAllSensors (snd (sensor_begin deviceCount SensorManager_new)) inp) = false) /\
  valid (readAllSensors SensorManager_new inp) = false.
Proof.
  unfold sensor_begin. cbn [fst snd andb].
  split; [|split].
  - destruct (0 <? deviceCount) eqn:E.
    + apply Z.ltb_lt in E. split; auto.
    + apply Z.ltb_ge in E. split; [discriminate | lia].
  - destruct (0 <? deviceCount); [discriminate|]. intros _.
    unfold readAllSensors, readSoilTemperature. cbn [valid ds18b20Initialized negb].
    rewrite validateReading_marker. now rewrite andb_false_r.
  - unfold readAllSensors, readSoilTemperature, SensorManager_new.
    cbn [valid ds18b20Initialized negb].
    rewrite validateReading_marker. now rewrite andb_false_r.
Qed.

Lemma sensor_begin_reports_missing_probe_witness :
  valid (readAllSensors (snd (sensor_begin 0 SensorManager_new)) sample_inputs) = false.
Proof.
  exact (proj1 (proj2 (sensor_begin_reports_missing_probe 0 sample_inputs)) eq_refl).
Defined.

(** X19.  NaN passes [validateReading], whatever the bounds.  So when the
    DS18B20 is initialized and its driver delivers NaN, [readAllSensors]
    hands the NaN on as the soil temperature, and [valid] is decided by
    the air temperature and the humidity alone. *)
Theorem readAllSensors_nan_soil_temperature (mgr : SensorManager) (inp : SensorInputs) :
  ds18b20Initialized mgr = true ->
  is_nan (getTempCByIndex inp) = true ->
  let r := readAllSensors mgr inp in
  (forall lo hi : spec_float, validateReading (getTempCByIndex inp) lo hi = true) /\
  is_nan (soilTemperature r) = true /\
  valid r
  = (validateReading (airTemperature r) (float_of_Z (-10)) (float_of_Z 60)
     && validateReading (humidity r) (float_of_Z 0) (float_of_Z 100))%bool.
Proof.
  intros Hi Hn r. subst r.
  destruct (getTempCByIndex inp) eqn:Et; try discriminate Hn.
  assert (Hv : forall lo hi : spec_float, validateReading S754_nan lo hi = true)
    by (intros lo hi; destruct lo, hi; reflexivity).
  split; [exact Hv|].
  assert (Es : readSoilTemperature mgr inp = S754_nan).
  { unfold readSoilTemperature. rewrite Hi, Et. reflexivity. }
  unfold readAllSensors. cbn [soilTemperature airTemperature humidity valid andb].
  rewrite Es, Hv. split; [reflexivity|].
  pose proof (readSoilMoisture_within inp) as Hsm.
  rewrite (proj2 (validateReading_percent _ (within_not_nan _ _ _ Hsm)) Hsm).
  reflexivity.
Qed.

Lemma readAllSensors_nan_soil_temperature_witness :
  is_nan (soilTemperature (readAllSensors sensors_ready nan_inputs)) = true /\
  valid (readAllSensors sensors_ready nan_inputs) = true.
Proof.
  destruct (readAllSensors_nan_soil_temperature sensors_ready nan_inputs
              eq_refl eq_refl) as (_ & Hn & Hv).
  split; [exact Hn|]. rewrite Hv. reflexivity.
Defined.

(** X20.  On the 12-bit ADC of the ESP32 the soil moisture saturates at
    the calibration points: [readSoilMoisture] is exactly 100 for every
    raw value up to [SOIL_MOISTURE_WET] and exactly 0 from
    [SOIL_MOISTURE_DRY] on. *)
Theorem readSoilMoisture_saturates (inp : SensorInputs) :
  0 <= analogRead inp <= 4095 ->
  (analogRead inp <= SOIL_MOISTURE_WET -> readSoilMoisture inp = float_of_Z 100) /\
  (SOIL_MOISTURE_DRY <= analogRead inp -> readSoilMoisture inp = float_of_Z 0).
Proof.
  intros H. rewrite readSoilMoisture_adc.
  pose proof (moisture_check_all (analogRead inp) ltac:(lia)) as C.
  unfold moisture_check in C. cbv zeta in C.
  apply andb_true_iff in C as [C _]. apply andb_true_iff in C as [C C3].
  apply andb_true_iff in C as [_ C2].
  split; intros Hr.
  - apply Z.leb_le in Hr. rewrite Hr in C2. now apply sf_eqb_eq.
  - apply Z.leb_le in Hr. rewrite Hr in C3. now apply sf_eqb_eq.
Qed.

Lemma readSoilMoisture_saturates_witness :
  readSoilMoisture (adc_inputs 800) = float_of_Z 100.
Proof.
  apply (readSoilMoisture_saturates (adc_inputs 800)); cbn; unfold SOIL_MOISTURE_WET; lia.
Defined.

(** X21.  On the 12-bit ADC of the ESP32 a higher raw value never gives a
    higher soil moisture, and between the calibration points it gives a
    lower one: the scale is monotone, and strictly so from
    [SOIL_MOISTURE_WET] to [SOIL_MOISTURE_DRY]. *)
Theorem readSoilMoisture_monotone (inp1 inp2 : SensorInputs) :
  0 <= analogRead inp1 -> analogRead inp1 < analogRead inp2 -> analogRead inp2 <= 4095 ->
  fle (readSoilMoisture inp2) (readSoilMoisture inp1) = true /\
  (SOIL_MOISTURE_WET <= analogRead inp1 -> analogRead inp2 <= SOIL_MOISTURE_DRY ->
   flt (readSoilMoisture inp2) (readSoilMoisture inp1) = true).
Proof.
  intros H0 H1 H2.
  rewrite (readSoilMoisture_adc inp1), (readSoilMoisture_adc inp2).
  set (a := analogRead inp1) in *. set (b := analogRead inp2) in *.
  split.
  - pose proof (moisture_steps (Z.to_nat (b - a)) a H0 ltac:(lia)) as M.
    replace (a + Z.of_nat (Z.to_nat (b - a))) with b in M by lia. exact M.
  - intros Hw Hd.
    pose proof (moisture_step_strict a ltac:(lia)) as S1.
    pose proof (moisture_steps (Z.to_nat (b - a - 1)) (a + 1) ltac:(lia) ltac:(lia)) as M.
    replace (a + 1 + Z.of_nat (Z.to_nat (b - a - 1))) with b in M by lia.
    pose proof (readSoilMoisture_within (adc_inputs a)) as Wa.
    pose proof (readSoilMoisture_within (adc_inputs (a + 1))) as Wa1.
    pose proof (readSoilMoisture_within (adc_inputs b)) as Wb.
    destruct Wa as (qa & Ha & _), Wa1 as (q1 & H1' & _), Wb as (qb & Hb & _).
    apply (flt_numbers _ _ q1 qa H1' Ha) in S1.
    apply (fle_numbers _ _ qb q1 Hb H1') in M.
    apply (flt_numbers _ _ qb qa Hb Ha). lra.
Qed.

Lemma readSoilMoisture_monotone_witness :
  flt (readSoilMoisture (adc_inputs 2500)) (readSoilMoisture (adc_inputs 2000)) = true.
Proof.
  apply (readSoilMoisture_monotone (adc_inputs 2000) (adc_inputs 2500));
    cbn; unfold SOIL_MOISTURE_WET, SOIL_MOISTURE_DRY; lia.
Defined.

(** ** DataProcessor: the text of a reading *)

Lemma printf_2f_finite (s : bool) (m : positive) (e : Z) :
  printf_2f (S754_finite s m e) = two_decimals s (hundredths m e).
Proof. reflexivity. Qed.

Lemma round_half_even_near (num den : Z) :
  0 < den ->
  - den <= 2 * (round_half_even num den * den - num) <= den.
Proof.
  intros Hd. unfold round_half_even.
  pose proof (Z.div_mod num den ltac:(lia)) as E.
  pose proof (Z.mod_pos_bound num den Hd) as B.
  destruct (2 * (num mod den) ?= den) eqn:C.
  - apply Z.compare_eq in C. destruct (Z.even (num / den)); nia.
  - rewrite Z.compare_lt_iff in C. nia.
  - rewrite Z.compare_gt_iff in C. nia.
Qed.

Lemma round_half_even_le (num den bound : Z) :
  0 < den -> num <= bound * den -> round_half_even num den <= bound.
Proof.
  intros Hd Hb. unfold round_half_even.
  pose proof (Z.div_mod num den ltac:(lia)) as E.
  pose proof (Z.mod_pos_bound num den Hd) as B.
  assert (Hq : num / den <= bound) by (apply Z.div_le_upper_bound; lia).
  assert (Hlt : num / den = bound -> num mod den = 0) by nia.
  destruct (2 * (num mod den) ?= den) eqn:C.
  - apply Z.compare_eq in C. destruct (Z.even (num / den)); [exact Hq|].
    destruct (Z.eq_dec (num / den) bound) as [Eq|Ne]; [|lia].
    specialize (Hlt Eq). lia.
  - exact Hq.
  - rewrite Z.compare_gt_iff in C.
    destruct (Z.eq_dec (num / den) bound) as [Eq|Ne]; [|lia].
    specialize (Hlt Eq). lia.
Qed.

Lemma round_half_even_nonneg (num den : Z) :
  0 < den -> 0 <= num -> 0 <= round_half_even num den.
Proof.
  intros Hd Hn. unfold round_half_even.
  pose proof (Z.div_pos num den Hn Hd).
  destruct (2 * (num mod den) ?= den); [destruct (Z.even _)| |]; lia.
Qed.

Lemma Qabs_Qval (s : bool) (m : positive) (e : Z) :
  (Qabs (Qval s m e) == inject_Z (Zpos m) * 2 ^ e)%Q.
Proof.
  unfold Qval. rewrite !Qabs_Qmult.
  assert (P : (0 < 2 ^ e)%Q) by (apply Qpower_0_lt; reflexivity).
  rewrite (Qabs_pos (2 ^ e)) by (apply Qlt_le_weak; exact P).
  rewrite (Qabs_pos (inject_Z (Zpos m))) by (unfold Qle; simpl; lia).
  destruct s; simpl Qabs; ring.
Qed.

(** The magnitude in hundredths and what is printed differ by half a
    hundredth at most. *)
Lemma hundredths_near (m : positive) (e : Z) :
  (Qabs (inject_Z (Zpos m) * 2 ^ e * 100 - inject_Z (hundredths m e)) <= 1 # 2)%Q.
Proof.
  unfold hundredths. destruct (0 <=? e) eqn:E.
  - apply Z.leb_le in E.
    rewrite !inject_Z_mult, (Zpower_Qpower 2 e E).
    setoid_replace (inject_Z (Z.pos m) * inject_Z 2 ^ e * 100
                    - inject_Z (Z.pos m) * inject_Z 2 ^ e * inject_Z 100)%Q
      with 0%Q by (change (inject_Z 100) with 100%Q; ring).
    discriminate.
  - apply Z.leb_gt in E.
    set (d := 2 ^ (- e)).
    assert (Hd : 0 < d) by (apply Z.pow_pos_nonneg; lia).
    pose proof (round_half_even_near (Zpos m * 100) d Hd) as [L U].
    set (h := round_half_even (Zpos m * 100) d) in *.
    assert (Ed : (2 ^ e == / inject_Z d)%Q).
    { subst d. rewrite (Zpower_Qpower 2 (- e)) by lia.
      rewrite <- Qpower_opp. now rewrite Z.opp_involutive. }
    rewrite Ed.
    assert (HD : (0 < inject_Z d)%Q) by (change 0%Q with (inject_Z 0); rewrite <- Zlt_Qlt; exact Hd).
    apply Qabs_Qle_condition.
    rewrite Zle_Qle in L, U.
    unfold Z.sub in L, U.
    repeat first [rewrite inject_Z_mult in L | rewrite inject_Z_opp in L
                 | rewrite inject_Z_plus in L].
    repeat first [rewrite inject_Z_mult in U | rewrite inject_Z_opp in U
                 | rewrite inject_Z_plus in U].
    change (inject_Z 2) with 2%Q in L, U. change (inject_Z 100) with 100%Q in L, U.
    set (D := inject_Z d) in *. set (A := inject_Z (Z.pos m)) in *.
    set (H := inject_Z h) in *.
    assert (X : (A * / D * D == A)%Q) by (field; lra).
    set (x := (A * / D)%Q) in *.
    split.
    + apply Qnot_lt_le. intros C.
      assert ((x * 100 - H + (1 # 2)) * D < 0)%Q by nra.
      nra.
    + apply Qnot_lt_le. intros C.
      assert (0 < (x * 100 - H - (1 # 2)) * D)%Q by nra.
      nra.
Qed.

Lemma hundredths_bound (m : positive) (e : Z) (bound : Z) :
  0 <= bound ->
  (inject_Z (Zpos m) * 2 ^ e <= inject_Z bound)%Q ->
  0 <= hundredths m e <= bound * 100.
Proof.
  intros Hb Hq. unfold hundredths. destruct (0 <=? e) eqn:E.
  - apply Z.leb_le in E.
    rewrite <- (Zpower_Qpower 2 e E), <- inject_Z_mult, <- Zle_Qle in Hq.
    assert (0 < 2 ^ e) by (apply Z.pow_pos_nonneg; lia). nia.
  - apply Z.leb_gt in E.
    set (d := 2 ^ (- e)).
    assert (Hd : 0 < d) by (apply Z.pow_pos_nonneg; lia).
    assert (Ed : (2 ^ e == / inject_Z d)%Q).
    { subst d. rewrite (Zpower_Qpower 2 (- e)) by lia.
      rewrite <- Qpower_opp. now rewrite Z.opp_involutive. }
    rewrite Ed in Hq.
    assert (HD : (0 < inject_Z d)%Q) by (change 0%Q with (inject_Z 0); rewrite <- Zlt_Qlt; exact Hd).
    assert (Hm : Zpos m <= bound * d).
    { rewrite Zle_Qle, inject_Z_mult.
      apply (Qmult_le_r _ _ (/ inject_Z d)); [now apply Qinv_lt_0_compat|].
      setoid_replace (inject_Z bound * inject_Z d * / inject_Z d)%Q
        with (inject_Z bound) by (field; lra).
      exact Hq. }
    split.
    + apply round_half_even_nonneg; lia.
    + apply round_half_even_le; [exact Hd | nia].
Qed.

Lemma dec_check_all (n : Z) : 0 <= n <= 999 -> dec_check n = true.
Proof.
  intros H. apply (Zrange_forallb dec_check 1000 0); [vm_compute; reflexivity | lia].
Qed.

Lemma substring_short (s : string) : forall n : nat,
  (String.length s <= n)%nat -> substring 0 n s = s.
Proof.
  induction s as [|c s IH]; intros [|n] H; simpl in *; try reflexivity; try lia.
  rewrite IH by lia. reflexivity.
Qed.

Lemma two_decimals_length (negative : bool) (h : Z) :
  0 <= h <= 99900 -> (String.length (two_decimals negative h) <= 7)%nat.
Proof.
  intros H. unfold two_decimals. rewrite !length_append.
  assert (H1 : 0 <= h / 100 <= 999)
    by (split; [apply Z.div_pos; lia | apply Z.div_le_upper_bound; lia]).
  pose proof (dec_check_all _ H1) as C. unfold dec_check in C.
  apply Nat.leb_le in C.
  pose proof (Z.mod_pos_bound h 100 ltac:(lia)) as H2.
  destruct (pad2_text (h mod 100) ltac:(lia)) as [-> _].
  destruct negative; simpl; lia.
Qed.

Lemma formatFloat_full (value : spec_float) (q : Q) :
  F2Q value = Some q -> (-999 <= q)%Q -> (q <= 999)%Q ->
  exists (negative : bool) (h : Z),
    formatFloat value = two_decimals negative h /\
    formatFloat value = printf_2f value /\
    (String.length (formatFloat value) <= 7)%nat /\
    0 <= h <= 99900 /\
    (Qabs (Qabs q * 100 - inject_Z h) <= 1 # 2)%Q /\
    (if negative then q <= 0 else 0 <= q)%Q.
Proof.
  intros Hq Hlo Hhi.
  assert (Hshape : exists (negative : bool) (h : Z),
             printf_2f value = two_decimals negative h /\
             0 <= h <= 99900 /\
             (Qabs (Qabs q * 100 - inject_Z h) <= 1 # 2)%Q /\
             (if negative then q <= 0 else 0 <= q)%Q).
  { destruct value as [s|s| |s m e]; try discriminate Hq.
    - injection Hq as <-. exists s, 0. split; [reflexivity|]. split; [lia|].
      split; [discriminate|]. destruct s; discriminate.
    - injection Hq as <-. exists s, (hundredths m e).
      split; [apply printf_2f_finite|].
      assert (Ha : (Qabs (Qval s m e) <= inject_Z 999)%Q).
      { apply Qabs_Qle_condition. change (inject_Z 999) with 999%Q. split; lra. }
      rewrite Qabs_Qval in Ha.
      split; [apply (hundredths_bound m e 999); [lia | exact Ha]|].
      split; [rewrite Qabs_Qval; apply hundredths_near|].
      unfold Qval.
      assert (P : (0 < 2 ^ e)%Q) by (apply Qpower_0_lt; reflexivity).
      assert (M : (0 < inject_Z (Z.pos m))%Q) by (unfold Qlt; simpl; lia).
      destruct s; nra. }
  destruct Hshape as (negative & h & Ep & Hh & Hn & Hs).
  pose proof (two_decimals_length negative h Hh) as L.
  assert (Ef : formatFloat value = printf_2f value).
  { unfold formatFloat. apply substring_short. rewrite Ep. lia. }
  exists negative, h. rewrite Ef, Ep.
  split; [reflexivity|]. split; [reflexivity|]. split; [exact L|].
  split; [exact Hh|]. split; assumption.
Qed.

Lemma within_formatFloat (v : spec_float) (lo hi : Q) :
  within v lo hi -> (-999 <= lo)%Q -> (hi <= 999)%Q ->
  formatFloat v = printf_2f v /\ (String.length (formatFloat v) <= 7)%nat.
Proof.
  intros (q & Hq & L & U) Hlo Hhi.
  destruct (formatFloat_full v q Hq) as (negative & h & _ & E & Len & _);
    [lra | lra | auto].
Qed.

(** X22.  For every number between -999 and 999, the range of the valid
    readings and the marker -999 included, [formatFloat] gives the text in
    full, the buffer of 10 bytes cutting nothing off: a minus sign when
    the sign bit is set, the hundredths [h] as integer part, point and two
    digits, on 7 bytes at most, and [h] is the magnitude in hundredths
    rounded, half a hundredth away from it at most. *)
Theorem formatFloat_two_decimals (value : spec_float) (q : Q) :
  F2Q value = Some q -> (-999 <= q)%Q -> (q <= 999)%Q ->
  exists (negative : bool) (h : Z),
    formatFloat value = two_decimals negative h /\
    formatFloat value = printf_2f value /\
    (String.length (formatFloat value) <= 7)%nat /\
    0 <= h <= 99900 /\
    (Qabs (Qabs q * 100 - inject_Z h) <= 1 # 2)%Q /\
    (if negative then q <= 0 else 0 <= q)%Q.
Proof. apply formatFloat_full. Qed.

Lemma formatFloat_two_decimals_witness :
  exists (negative : bool) (h : Z),
    formatFloat INVALID_READING = two_decimals negative h /\ 0 <= h <= 99900.
Proof.
  destruct (formatFloat_two_decimals INVALID_READING (Qval true 16367616 (-14)) eq_refl)
    as (negative & h & E & _ & _ & Hh & _).
  - unfold Qval. vm_compute. discriminate.
  - unfold Qval. vm_compute. discriminate.
  - exists negative, h. split; [exact E | exact Hh].
Defined.

(** X24.  The readings of a valid acquisition reach the payload in full:
    when [readAllSensors] returns [valid = true], the DS18B20 driver
    delivering no NaN, [formatFloat] cuts nothing off any of the four
    fields, each text being the one of [%.2f] on 7 bytes at most. *)
Theorem valid_readings_formatted_in_full (mgr : SensorManager) (inp : SensorInputs) :
  is_nan (getTempCByIndex inp) = false ->
  valid (readAllSensors mgr inp) = true ->
  Forall (fun v => formatFloat v = printf_2f v /\
                   (String.length (formatFloat v) <= 7)%nat)
    [soilMoisture (readAllSensors mgr inp); soilTemperature (readAllSensors mgr inp);
     airTemperature (readAllSensors mgr inp); humidity (readAllSensors mgr inp)].
Proof.
  intros Hds Hv. unfold readAllSensors in *.
  cbn [valid soilMoisture soilTemperature airTemperature humidity andb] in *.
  pose proof (readSoilMoisture_within inp) as Hsm.
  pose proof (validateReading_celsius _ (readSoilTemperature_not_nan mgr inp Hds)) as V2.
  pose proof (validateReading_celsius _ (readAirTemperature_not_nan mgr inp)) as V3.
  pose proof (validateReading_percent _ (readHumidity_not_nan mgr inp)) as V4.
  rewrite !andb_true_iff, V2, V3, V4 in Hv.
  destruct Hv as [[[_ H2] H3] H4].
  assert (F : forall (v : spec_float) (lo hi : Q),
             within v lo hi -> (-999 <= lo)%Q -> (hi <= 999)%Q ->
             formatFloat v = printf_2f v /\ (String.length (formatFloat v) <= 7)%nat)
    by exact within_formatFloat.
  constructor; [apply (F _ _ _ Hsm); lra|].
  constructor; [apply (F _ _ _ H2); lra|].
  constructor; [apply (F _ _ _ H3); lra|].
  constructor; [apply (F _ _ _ H4); lra|].
  constructor.
Qed.

Lemma valid_readings_formatted_in_full_witness :
  formatFloat (soilTemperature (readAllSensors sensors_ready sample_inputs))
  = printf_2f (soilTemperature (readAllSensors sensors_ready sample_inputs)).
Proof.
  pose proof (valid_readings_formatted_in_full sensors_ready sample_inputs
                eq_refl eq_refl) as H.
  apply Forall_inv_tail, Forall_inv in H. exact (proj1 H).
Defined.
